(** * Verification of the pylinked containers

    A shallow embedding of [single.py] (class [SinglyLinked] and its [Node])
    and [pylinked.py] (class [Double] and its [Node]).

    Python objects live in a store: a node is a record kept in a finite map
    from references to records, and attribute reads and writes go through
    that map, so that aliasing (the same node reached through [head], [tail]
    or a neighbour's link) is modelled as in the source.  Methods are
    computations in a state-and-exception monad; a raised exception carries
    the store as it was at the moment of the raise. *)

From stdpp Require Import base gmap list strings pretty.

Set Default Proof Using "Type".
#[local] Set Warnings "-clear-no-such-hyp".

(** ** References, exceptions and the method monad *)

(** A reference to a heap object (the identity Python's [is] compares). *)
Abbreviation loc := positive.

(** The built-in exception classes the two modules raise or provoke. *)
Inductive exn := IndexError | AttributeError | ValueError | TypeError.

Global Instance exn_eq_dec : EqDecision exn.
Proof. solve_decision. Defined.

(** The values' own [!=]: Python evaluates [v != w] by the values' method,
    which need not be the negation of an equality ([nan != nan] is true). *)
Class ValueNe (V : Type) := value_ne : V → V → bool.

(** Values compared by a decidable equality (integers, strings, ...):
    [v != w] is the negation of [v = w]. *)
Global Instance ne_of_eq_dec `{EqDecision V} : ValueNe V :=
  λ v w, bool_decide (v ≠ w).

(** Result of running a method body from a state [S]:
    - [Ok a s]: normal return of [a] in final state [s];
    - [Raise e s]: exception [e] propagates, the store being [s];
    - [Undef]: the model gives no answer (a loop ran out of fuel, or a
      reference outside the store was followed, which no Python program
      can do). *)
Inductive outcome (S A : Type) :=
  | Ok (a : A) (s : S)
  | Raise (e : exn) (s : S)
  | Undef.
Arguments Ok {S A} a s.
Arguments Raise {S A} e s.
Arguments Undef {S A}.

Definition M (S A : Type) : Type := S → outcome S A.

Definition ret {S A} (a : A) : M S A := λ s, Ok a s.
Definition raise {S A} (e : exn) : M S A := λ s, Raise e s.
Definition undef {S A} : M S A := λ _, Undef.
Definition bind {S A B} (m : M S A) (f : A → M S B) : M S B :=
  λ s, match m s with
       | Ok a s' => f a s'
       | Raise e s' => Raise e s'
       | Undef => Undef
       end.
Definition gets {S A} (f : S → A) : M S A := λ s, Ok (f s) s.
Definition modify {S} (f : S → S) : M S unit := λ s, Ok tt (f s).

Declare Scope py_scope.
Delimit Scope py_scope with py.
Notation "x <- m ;; k" := (bind m (λ x, k))
  (at level 100, m at next level, right associativity) : py_scope.
Notation "m ;;; k" := (bind m (λ _, k))
  (at level 100, right associativity) : py_scope.
Open Scope py_scope.

(** The final state of an outcome, when there is one. *)
Definition final {S A} (o : outcome S A) : option S :=
  match o with Ok _ s | Raise _ s => Some s | Undef => None end.

(** The state a run ends in, [dflt] standing for no state. *)
Definition state_after {S A} (o : outcome S A) (dflt : S) : S :=
  match o with Ok _ s | Raise _ s => s | Undef => dflt end.

(** What a run returned. *)
Definition returned {S A} (o : outcome S A) : option A :=
  match o with Ok a _ => Some a | _ => None end.

(** Three properties of a computation: it leaves the state as it found it
    whenever it returns or raises; it never raises; when it raises, the
    state is the one it started from. *)
Definition pure {S A} (m : M S A) : Prop :=
  ∀ s, match m s with Ok _ s' | Raise _ s' => s' = s | Undef => True end.
Definition noraise {S A} (m : M S A) : Prop :=
  ∀ s, match m s with Raise _ _ => False | _ => True end.
Definition atomic {S A} (m : M S A) : Prop :=
  ∀ s, match m s with Raise _ s' => s' = s | _ => True end.

(** Every exception the computation raises satisfies [P]. *)
Definition raises_only {S A} (P : exn → Prop) (m : M S A) : Prop :=
  ∀ s, match m s with Raise e _ => P e | _ => True end.

(** An argument that is either an integer or a [slice] object. *)
Inductive index := Int (i : Z) | Slice.

(** The [node_or_index] arguments: a node reference or an index. *)
Inductive target := ByNode (l : loc) | ByIndex (i : index).

(** ** Cells

    The chain of a list is described by the list of its cells, each a node
    reference paired with the value the node holds, in traversal order. *)
Section cells.
Context {V : Type}.

(** The reference of the first cell, or [dflt] for no cell; likewise for
    the last one. *)
Definition first_loc (ls : list (loc * V)) (dflt : option loc) : option loc :=
  match ls with
  | [] => dflt
  | c :: _ => Some c.1
  end.

Definition last_loc (ls : list (loc * V)) (dflt : option loc) : option loc :=
  match last ls with
  | None => dflt
  | Some c => Some c.1
  end.

(** The position an integer index designates in a list of [n] elements:
    [-1] is the last position of a non-empty list, [0 ≤ i < n] is position
    [i], and no other index designates a position. *)
Definition position (n : nat) (i : Z) : option nat :=
  if decide (i = -1)%Z then (if decide (n = 0) then None else Some (n - 1))
  else if decide (0 ≤ i < Z.of_nat n)%Z then Some (Z.to_nat i) else None.

Definition cell_at (ls : list (loc * V)) (i : Z) : option (loc * V) :=
  k ← position (length ls) i; ls !! k.

(** The target [t] designates the cell [c] at position [k] of [ls]: it is
    the node of that cell, or an index that designates position [k]. *)
Definition designates (ls : list (loc * V)) (k : nat) (c : loc * V)
    (t : target) : Prop :=
  ls !! k = Some c
  ∧ (t = ByNode c.1
     ∨ ∃ i, t = ByIndex (Int i) ∧ position (length ls) i = Some k).

End cells.

(** An index that designates no position of a list of [n] elements: a
    slice, or an integer outside [-1 .. n - 1] ([-1] too when [n = 0]). *)
Definition out_of_range (n : nat) (idx : index) : Prop :=
  match idx with
  | Slice => True
  | Int i => position n i = None
  end.

(** ** single.py *)
Module Single.
Section single.
(** The type of the values stored in the list; [==] on values is a decidable
    equality.  [lt] is the values' [<].  [attr_value x] is the [value]
    attribute of an object [x] that is not a node of this module, when it has
    one. *)
Context {V : Type} `{EqDecision V}.
Variable lt : V → V → bool.
Variable attr_value : V → option V.

(** [class Node]: the attributes [value] and [next_node]. *)
Record Node := mkNode { value : V; next_node : option loc }.

(** The attributes of a [SinglyLinked] instance. *)
Record SinglyLinked := mkList {
  _length : Z;
  head : option loc;
  tail : option loc
}.

(** A list object together with the store of nodes. *)
Record state := mkState { self : SinglyLinked; heap : gmap loc Node }.

Definition set_length (z : Z) : M state unit :=
  modify (λ s, mkState (mkList z (head (self s)) (tail (self s))) (heap s)).
Definition set_head (o : option loc) : M state unit :=
  modify (λ s, mkState (mkList (_length (self s)) o (tail (self s))) (heap s)).
Definition set_tail (o : option loc) : M state unit :=
  modify (λ s, mkState (mkList (_length (self s)) (head (self s)) o) (heap s)).
Definition get_length : M state Z := gets (λ s, _length (self s)).
Definition get_head : M state (option loc) := gets (λ s, head (self s)).
Definition get_tail : M state (option loc) := gets (λ s, tail (self s)).

(** [Node(value, link)]: a new object, distinct from every existing one. *)
Definition new_Node (v : V) (link : option loc) : M state loc :=
  λ s, let l := fresh (dom (heap s)) in
       Ok l (mkState (self s) (<[l := mkNode v link]> (heap s))).

(** Attribute read [o.attr]; [o] may be [None], which has no attributes. *)
Definition getattr {A} (f : Node → A) (o : option loc) : M state A :=
  λ s, match o with
       | None => Raise AttributeError s
       | Some l => match heap s !! l with
                   | Some n => Ok (f n) s
                   | None => Undef
                   end
       end.

(** Attribute write [o.attr = x]. *)
Definition setattr (upd : Node → Node) (o : option loc) : M state unit :=
  λ s, match o with
       | None => Raise AttributeError s
       | Some l => match heap s !! l with
                   | Some n => Ok tt (mkState (self s) (<[l := upd n]> (heap s)))
                   | None => Undef
                   end
       end.

Definition set_next_node (x : option loc) : option loc → M state unit :=
  setattr (λ n, mkNode (value n) x).
Definition set_value (v : V) : option loc → M state unit :=
  setattr (λ n, mkNode v (next_node n)).

(** [append_tail].  The chained assignment
    [self.tail.next_node = self.tail = new_node] assigns its targets from
    left to right: first the old tail's link, then [self.tail]. *)
Definition append_tail (new_value : V) : M state unit :=
  new_node <- new_Node new_value None;;
  h <- get_head;;
  match h with
  | None => set_head (Some new_node);;; set_tail (Some new_node)
  | Some _ =>
      t <- get_tail;;
      set_next_node (Some new_node) t;;;
      set_tail (Some new_node)
  end;;;
  n <- get_length;;
  set_length (n + 1).

(** [append_head]. *)
Definition append_head (new_value : V) : M state unit :=
  new_node <- new_Node new_value None;;
  h <- get_head;;
  match h with
  | None => set_head (Some new_node);;; set_tail (Some new_node)
  | Some _ =>
      set_next_node h (Some new_node);;;
      set_head (Some new_node)
  end;;;
  n <- get_length;;
  set_length (n + 1).

(** [extend]: a [for] loop over a finite sequence of values. *)
Fixpoint extend (values : list V) : M state unit :=
  match values with
  | [] => ret tt
  | v :: rest => append_tail v;;; extend rest
  end.

(** [__init__]. *)
Definition __init__ (values : list V) : M state unit :=
  set_length 0;;; set_head None;;; set_tail None;;; extend values.

(** The constructor call [SinglyLinked(v1, ..., vn)] in a store [h]. *)
Definition construct (h : gmap loc Node) (values : list V) : outcome state unit :=
  __init__ values (mkState (mkList 0 None None) h).

(** [__iter__]: the nodes the generator yields, from [node] on.  The loop
    [while node is not None] is bounded by [fuel]. *)
Fixpoint iter_from (fuel : nat) (node : option loc) : M state (list loc) :=
  match fuel with
  | O => undef
  | S fuel' =>
      match node with
      | None => ret []
      | Some l =>
          nxt <- getattr next_node node;;
          rest <- iter_from fuel' nxt;;
          ret (l :: rest)
      end
  end.

Definition __iter__ (fuel : nat) : M state (list loc) :=
  h <- get_head;; iter_from fuel h.

(** [iter_values]: the values of the nodes of [__iter__]. *)
Fixpoint values_of (nodes : list loc) : M state (list V) :=
  match nodes with
  | [] => ret []
  | l :: rest =>
      v <- getattr value (Some l);;
      vs <- values_of rest;;
      ret (v :: vs)
  end.

Definition iter_values (fuel : nat) : M state (list V) :=
  nodes <- __iter__ fuel;; values_of nodes.

(** [__len__]. *)
Definition __len__ : M state Z := get_length.

(** The built-in [len(self)]: it calls [__len__] and raises [ValueError]
    when the result is negative. *)
Definition len : M state Z :=
  n <- __len__;;
  if bool_decide (n < 0)%Z then raise ValueError else ret n.

(** [get_next]. *)
Definition get_next (known_node : option loc) : M state (option loc) :=
  getattr next_node known_node.

(** The loop [for i, node in enumerate(self): if i == index: <found>]:
    [Some node] when the body is reached, [None] when the iteration is
    exhausted (the place of the loop's [else] or of the code after it). *)
Fixpoint enumerate_find (fuel : nat) (node : option loc) (i index : Z)
    : M state (option loc) :=
  match fuel with
  | O => undef
  | S fuel' =>
      match node with
      | None => ret None
      | Some l =>
          if bool_decide (i = index) then ret (Some l)
          else nxt <- getattr next_node node;;
               enumerate_find fuel' nxt (i + 1) index
      end
  end.

(** [__getitem__]. *)
Definition __getitem__ (fuel : nat) (index : index) : M state loc :=
  match index with
  | Slice => raise IndexError
  | Int i =>
      t <- get_tail;;
      match t, bool_decide (i = -1)%Z with
      | Some tl, true => ret tl
      | _, _ =>
          if bool_decide (i < -1)%Z then raise IndexError
          else
            h <- get_head;;
            r <- enumerate_find fuel h 0 i;;
            match r with
            | Some node => ret node
            | None => raise IndexError
            end
      end
  end.

(** [__setitem__]. *)
Definition __setitem__ (fuel : nat) (index : index) (v : V) : M state unit :=
  match index with
  | Slice => raise IndexError
  | Int i =>
      t <- get_tail;;
      match t, bool_decide (i = -1)%Z with
      | Some tl, true => set_value v (Some tl)
      | _, _ =>
          if bool_decide (i < -1)%Z then raise IndexError
          else
            h <- get_head;;
            r <- enumerate_find fuel h 0 i;;
            match r with
            | Some node => set_value v (Some node)
            | None => raise IndexError
            end
      end
  end.

(** [insert_after].  For a node the body of the [try] runs to its end.  For
    an index (or a slice) the read [node_or_index.next_node] raises
    [AttributeError] before anything is done, and the handler runs: the right
    hand side [Node(value, self[index].next_node)] is evaluated first, then
    the target [self[index]]. *)
Definition insert_after (fuel : nat) (node_or_index : target) (v : V)
    : M state unit :=
  match node_or_index with
  | ByNode node =>
      nxt <- getattr next_node (Some node);;
      new_node <- new_Node v nxt;;
      set_next_node (Some new_node) (Some node)
  | ByIndex index =>
      node <- __getitem__ fuel index;;
      nxt <- getattr next_node (Some node);;
      new_node <- new_Node v nxt;;
      node' <- __getitem__ fuel index;;
      set_next_node (Some new_node) (Some node')
  end;;;
  n <- get_length;;
  set_length (n + 1).

(** The loop of [_remove_by_node]:
    [for node in self: if node.next_node is node_to_remove: ... break],
    giving the node at which it breaks, or [None] for the [else] branch. *)
Fixpoint find_pred (fuel : nat) (node : option loc) (node_to_remove : loc)
    : M state (option loc) :=
  match fuel with
  | O => undef
  | S fuel' =>
      match node with
      | None => ret None
      | Some l =>
          nxt <- getattr next_node node;;
          if bool_decide (nxt = Some node_to_remove) then ret (Some l)
          else find_pred fuel' nxt node_to_remove
      end
  end.

(** [_remove_by_node]. *)
Definition _remove_by_node (fuel : nat) (node_to_remove : loc) : M state unit :=
  h <- get_head;;
  node <- (if bool_decide (h = Some node_to_remove) then
             nxt <- getattr next_node h;;
             set_head nxt;;;
             ret nxt
           else
             r <- find_pred fuel h node_to_remove;;
             match r with
             | Some p =>
                 nxt <- getattr next_node (Some node_to_remove);;
                 set_next_node nxt (Some p);;;
                 ret (Some p)
             | None => raise ValueError
             end);;
  t <- get_tail;;
  if bool_decide (t = Some node_to_remove) then set_tail node else ret tt.

(** [_remove_by_index].  [len(self)] is the built-in, which refuses a
    negative [_length].  A slice is equal neither to [-1] nor to [0], and
    ordering it against the integer [highest_index] is a [TypeError] (in
    Python 3; Python 2 orders it above every integer and raises the
    [IndexError] of the last branch): an exception either way, before
    anything is changed. *)
Definition _remove_by_index (fuel : nat) (index : index) : M state unit :=
  match index with
  | Slice => raise TypeError
  | Int i =>
      n <- len;;
      let highest_index := (n - 1)%Z in
      let index := if bool_decide (i = -1)%Z then highest_index else i in
      node <- (if bool_decide (index = 0)%Z then
                 h <- get_head;;
                 nxt <- getattr next_node h;;
                 set_head nxt;;;
                 ret nxt
               else if bool_decide (index ≤ highest_index)%Z then
                 node <- __getitem__ fuel (Int (index - 1));;
                 nxt <- get_next (Some node);;
                 nxt2 <- getattr next_node nxt;;
                 set_next_node nxt2 (Some node);;;
                 ret (Some node)
               else raise IndexError);;
      if bool_decide (index = highest_index) then set_tail node else ret tt
  end.

(** [remove]. *)
Definition remove (fuel : nat) (node_or_index : target) : M state unit :=
  match node_or_index with
  | ByNode node => _remove_by_node fuel node
  | ByIndex index => _remove_by_index fuel index
  end;;;
  n <- get_length;;
  set_length (n - 1).

(** [SinglyLinked] defines no [__eq__] (nor [__ne__], nor [__cmp__]):
    [a == b] on two of its instances is the default comparison inherited
    from [object], true exactly when [a] and [b] are the same object.  [self]
    and [other] are the references of the two list objects. *)
Definition __eq__ (self other : loc) : bool := bool_decide (self = other).

(** The right operand of a node comparison: a node, or any other object. *)
Inductive operand := OpNode (m : loc) | OpObj (x : V).

(** [Node.__eq__]: [value_or_node.value] is tried first and the bare operand
    is used when that read raises [AttributeError]. *)
Definition Node__eq__ (self : loc) (value_or_node : operand) : M state bool :=
  v <- getattr value (Some self);;
  match value_or_node with
  | OpNode m => w <- getattr value (Some m);; ret (bool_decide (v = w))
  | OpObj x =>
      match attr_value x with
      | Some w => ret (bool_decide (v = w))
      | None => ret (bool_decide (v = x))
      end
  end.

(** [Node.__lt__]. *)
Definition Node__lt__ (self : loc) (value_or_node : operand) : M state bool :=
  v <- getattr value (Some self);;
  match value_or_node with
  | OpNode m => w <- getattr value (Some m);; ret (lt v w)
  | OpObj x =>
      match attr_value x with
      | Some w => ret (lt v w)
      | None => ret (lt v x)
      end
  end.

(** The operations of the container, as data. *)
Inductive op :=
  | AppendTail (v : V)
  | AppendHead (v : V)
  | Extend (vs : list V)
  | InsertAfter (t : target) (v : V)
  | Remove (t : target)
  | GetItem (i : index)
  | SetItem (i : index) (v : V).

Definition exec (fuel : nat) (o : op) : M state unit :=
  match o with
  | AppendTail v => append_tail v
  | AppendHead v => append_head v
  | Extend vs => extend vs
  | InsertAfter t v => insert_after fuel t v
  | Remove t => remove fuel t
  | GetItem i => __getitem__ fuel i;;; ret tt
  | SetItem i v => __setitem__ fuel i v
  end.

(** The operations that are given an index, a slice or a node reference. *)
Definition takes_target (o : op) : Prop :=
  match o with
  | AppendTail _ | AppendHead _ | Extend _ => False
  | _ => True
  end.

(** *** The representation invariant

    [sseg h ls nxt]: in the store [h] the cells of [ls] are linked to one
    another by [next_node], the last one having [nxt] as its [next_node]. *)
Fixpoint sseg (h : gmap loc Node) (ls : list (loc * V)) (nxt : option loc)
    : Prop :=
  match ls with
  | [] => True
  | c :: rest =>
      h !! c.1 = Some (mkNode c.2 (first_loc rest nxt)) ∧ sseg h rest nxt
  end.

(** [slist s ls]: the list object of [s] is a well-formed singly-linked list
    whose cells are [ls]: [head] is the first node, [tail] the last one and
    [_length] their number. *)
Definition slist (s : state) (ls : list (loc * V)) : Prop :=
  NoDup ls.*1
  ∧ head (self s) = first_loc ls None
  ∧ tail (self s) = last_loc ls None
  ∧ _length (self s) = Z.of_nat (length ls)
  ∧ sseg (heap s) ls None.

(** [schain s ls]: the nodes met from [head] are the cells [ls]; nothing is
    said of [tail] and [_length]. *)
Definition schain (s : state) (ls : list (loc * V)) : Prop :=
  NoDup ls.*1
  ∧ head (self s) = first_loc ls None
  ∧ sseg (heap s) ls None.

(** *** Textual representation

    [repr] is the built-in [repr] on the values. *)
Variable repr : V → string.

(** [Node.__repr__]; [Node.__str__] returns the same string. *)
Definition Node__repr__ (self : loc) : M state string :=
  v <- getattr value (Some self);;
  ret ("<Node(" +:+ repr v +:+ ")>").

Definition Node__str__ (self : loc) : M state string := Node__repr__ self.

(** [map(repr, self)]: [repr] of a node is [Node.__repr__]. *)
Fixpoint map_repr (nodes : list loc) : M state (list string) :=
  match nodes with
  | [] => ret []
  | l :: rest =>
      r <- Node__repr__ l;;
      rs <- map_repr rest;;
      ret (r :: rs)
  end.

(** [__repr__] and [__str__]. *)
Definition __repr__ (fuel : nat) : M state string :=
  nodes <- __iter__ fuel;;
  string_values <- map_repr nodes;;
  ret ("<SingleLinkedNaive(" +:+ String.concat ", " string_values +:+ ")>").

Definition __str__ (fuel : nat) : M state string := __repr__ fuel.

End single.
End Single.

(** ** pylinked.py *)
Module Double.
Section double.
Context {V : Type} `{EqDecision V}.
Variable lt : V → V → bool.
Variable attr_value : V → option V.

(** [class Node]: [value], [next_node] and [last_node]. *)
Record Node := mkNode {
  value : V;
  next_node : option loc;
  last_node : option loc
}.

(** The attributes of a [Double] instance. *)
Record Double := mkList {
  _length : Z;
  head : option loc;
  tail : option loc
}.

Record state := mkState { self : Double; heap : gmap loc Node }.

Definition set_length (z : Z) : M state unit :=
  modify (λ s, mkState (mkList z (head (self s)) (tail (self s))) (heap s)).
Definition set_head (o : option loc) : M state unit :=
  modify (λ s, mkState (mkList (_length (self s)) o (tail (self s))) (heap s)).
Definition set_tail (o : option loc) : M state unit :=
  modify (λ s, mkState (mkList (_length (self s)) (head (self s)) o) (heap s)).
Definition get_length : M state Z := gets (λ s, _length (self s)).
Definition get_head : M state (option loc) := gets (λ s, head (self s)).
Definition get_tail : M state (option loc) := gets (λ s, tail (self s)).

(** [Node(value, last_link, next_link)]. *)
Definition new_Node (v : V) (last_link next_link : option loc) : M state loc :=
  λ s, let l := fresh (dom (heap s)) in
       Ok l (mkState (self s) (<[l := mkNode v next_link last_link]> (heap s))).

Definition getattr {A} (f : Node → A) (o : option loc) : M state A :=
  λ s, match o with
       | None => Raise AttributeError s
       | Some l => match heap s !! l with
                   | Some n => Ok (f n) s
                   | None => Undef
                   end
       end.

Definition setattr (upd : Node → Node) (o : option loc) : M state unit :=
  λ s, match o with
       | None => Raise AttributeError s
       | Some l => match heap s !! l with
                   | Some n => Ok tt (mkState (self s) (<[l := upd n]> (heap s)))
                   | None => Undef
                   end
       end.

Definition set_next_node (x : option loc) : option loc → M state unit :=
  setattr (λ n, mkNode (value n) x (last_node n)).
Definition set_last_node (x : option loc) : option loc → M state unit :=
  setattr (λ n, mkNode (value n) (next_node n) x).
Definition set_value (v : V) : option loc → M state unit :=
  setattr (λ n, mkNode v (next_node n) (last_node n)).

(** [append_tail].  In the tuple assignment the right hand side
    [(new_node, self.tail)] is evaluated first, then the targets are
    assigned from left to right. *)
Definition append_tail (new_value : V) : M state unit :=
  new_node <- new_Node new_value None None;;
  h <- get_head;;
  match h with
  | None => set_head (Some new_node);;; set_tail (Some new_node)
  | Some _ =>
      t <- get_tail;;
      set_next_node (Some new_node) t;;;
      set_last_node t (Some new_node);;;
      set_tail (Some new_node)
  end;;;
  n <- get_length;;
  set_length (n + 1).

(** [append_head]. *)
Definition append_head (new_value : V) : M state unit :=
  new_node <- new_Node new_value None None;;
  h <- get_head;;
  match h with
  | None => set_head (Some new_node);;; set_tail (Some new_node)
  | Some _ =>
      set_last_node (Some new_node) h;;;
      set_next_node h (Some new_node);;;
      set_head (Some new_node)
  end;;;
  n <- get_length;;
  set_length (n + 1).

(** [extend]. *)
Fixpoint extend (values : list V) : M state unit :=
  match values with
  | [] => ret tt
  | v :: rest => append_tail v;;; extend rest
  end.

(** [__init__]. *)
Definition __init__ (values : list V) : M state unit :=
  set_length 0;;; set_head None;;; set_tail None;;; extend values.

(** The constructor call [Double(v1, ..., vn)] in a store [h]. *)
Definition construct (h : gmap loc Node) (values : list V) : outcome state unit :=
  __init__ values (mkState (mkList 0 None None) h).

(** The loop of [__getitem__] and [__setitem__], as in [single.py]. *)
Fixpoint enumerate_find (fuel : nat) (node : option loc) (i index : Z)
    : M state (option loc) :=
  match fuel with
  | O => undef
  | S fuel' =>
      match node with
      | None => ret None
      | Some l =>
          if bool_decide (i = index) then ret (Some l)
          else nxt <- getattr next_node node;;
               enumerate_find fuel' nxt (i + 1) index
      end
  end.

(** [__getitem__]. *)
Definition __getitem__ (fuel : nat) (index : index) : M state loc :=
  match index with
  | Slice => raise IndexError
  | Int i =>
      t <- get_tail;;
      match t, bool_decide (i = -1)%Z with
      | Some tl, true => ret tl
      | _, _ =>
          if bool_decide (i < -1)%Z then raise IndexError
          else
            h <- get_head;;
            r <- enumerate_find fuel h 0 i;;
            match r with
            | Some node => ret node
            | None => raise IndexError
            end
      end
  end.

(** [__setitem__]. *)
Definition __setitem__ (fuel : nat) (index : index) (v : V) : M state unit :=
  match index with
  | Slice => raise IndexError
  | Int i =>
      t <- get_tail;;
      match t, bool_decide (i = -1)%Z with
      | Some tl, true => set_value v (Some tl)
      | _, _ =>
          if bool_decide (i < -1)%Z then raise IndexError
          else
            h <- get_head;;
            r <- enumerate_find fuel h 0 i;;
            match r with
            | Some node => set_value v (Some node)
            | None => raise IndexError
            end
      end
  end.

(** [x if isinstance(x, Node) else self[x]]. *)
Definition resolve (fuel : nat) (t : target) : M state loc :=
  match t with
  | ByNode node => ret node
  | ByIndex index => __getitem__ fuel index
  end.

(** [insert_after]. *)
Definition insert_after (fuel : nat) (after : target) (v : V) : M state unit :=
  node <- resolve fuel after;;
  nxt <- getattr next_node (Some node);;
  new_node <- new_Node v (Some node) nxt;;
  t <- get_tail;;
  (if bool_decide (Some node = t) then set_tail (Some new_node)
   else nxt' <- getattr next_node (Some node);;
        set_last_node (Some new_node) nxt');;;
  set_next_node (Some new_node) (Some node);;;
  n <- get_length;;
  set_length (n + 1).

(** [insert_before]. *)
Definition insert_before (fuel : nat) (before : target) (v : V) : M state unit :=
  node <- resolve fuel before;;
  prv <- getattr last_node (Some node);;
  new_node <- new_Node v prv (Some node);;
  h <- get_head;;
  (if bool_decide (Some node = h) then set_head (Some new_node)
   else prv' <- getattr last_node (Some node);;
        set_next_node (Some new_node) prv');;;
  set_last_node (Some new_node) (Some node);;;
  n <- get_length;;
  set_length (n + 1).

(** [remove].  In [a.b.c = d.e] the right hand side is read first, then
    [a.b], then the attribute is set. *)
Definition remove (fuel : nat) (to_remove : target) : M state unit :=
  node <- resolve fuel to_remove;;
  h <- get_head;;
  (if bool_decide (Some node ≠ h) then
     nxt <- getattr next_node (Some node);;
     prv <- getattr last_node (Some node);;
     set_next_node nxt prv
   else
     nxt <- getattr next_node (Some node);;
     set_head nxt);;;
  t <- get_tail;;
  (if bool_decide (Some node ≠ t) then
     prv <- getattr last_node (Some node);;
     nxt <- getattr next_node (Some node);;
     set_last_node prv nxt
   else
     prv <- getattr last_node (Some node);;
     set_tail prv);;;
  n <- get_length;;
  set_length (n - 1).

(** [get_next] and [get_previous]. *)
Definition get_next (known_node : option loc) : M state (option loc) :=
  getattr next_node known_node.
Definition get_previous (known_node : option loc) : M state (option loc) :=
  getattr last_node known_node.

(** [__iter__]. *)
Fixpoint iter_from (fuel : nat) (node : option loc) : M state (list loc) :=
  match fuel with
  | O => undef
  | S fuel' =>
      match node with
      | None => ret []
      | Some l =>
          nxt <- getattr next_node node;;
          rest <- iter_from fuel' nxt;;
          ret (l :: rest)
      end
  end.

Definition __iter__ (fuel : nat) : M state (list loc) :=
  h <- get_head;; iter_from fuel h.

Fixpoint values_of (nodes : list loc) : M state (list V) :=
  match nodes with
  | [] => ret []
  | l :: rest =>
      v <- getattr value (Some l);;
      vs <- values_of rest;;
      ret (v :: vs)
  end.

(** [iter_values]. *)
Definition iter_values (fuel : nat) : M state (list V) :=
  nodes <- __iter__ fuel;; values_of nodes.

(** [iter_reverse]: from [tail] along [last_node]. *)
Fixpoint iter_back (fuel : nat) (node : option loc) : M state (list loc) :=
  match fuel with
  | O => undef
  | S fuel' =>
      match node with
      | None => ret []
      | Some l =>
          prv <- getattr last_node node;;
          rest <- iter_back fuel' prv;;
          ret (l :: rest)
      end
  end.

Definition iter_reverse (fuel : nat) : M state (list loc) :=
  t <- get_tail;; iter_back fuel t.

(** [__len__]. *)
Definition __len__ : M state Z := get_length.

(** The right operand of [==] on a list: an object with the attributes of a
    list ([head], [tail], [get_next]), or an object with no [head]
    attribute (a number, a string, [None], ...). *)
Inductive other_operand := IsList (o : Double) | NoHead.

(** The [while True] loop of [__eq__]; [ne] is the values' [!=]. *)
Context {ne : ValueNe V}.

Fixpoint eq_loop (fuel : nat) (other : Double) (node other_node : option loc)
    : M state bool :=
  match fuel with
  | O => undef
  | S fuel' =>
      v <- getattr value node;;
      w <- getattr value other_node;;
      if ne v w then ret false
      else
        t <- get_tail;;
        if bool_decide (node = t) && bool_decide (other_node = tail other)
        then ret true
        else
          node' <- get_next node;;
          other_node' <- get_next other_node;;
          match node', other_node' with
          | Some _, Some _ => eq_loop fuel' other node' other_node'
          | _, _ => ret false
          end
  end.

(** [__eq__]. *)
Definition __eq__ (fuel : nat) (other : other_operand) : M state bool :=
  match other with
  | NoHead => ret false
  | IsList o =>
      h <- get_head;;
      eq_loop fuel o h (head o)
  end.

(** The right operand of a node comparison: a node, or any other object. *)
Inductive operand := OpNode (m : loc) | OpObj (x : V).

(** [Node.__eq__]. *)
Definition Node__eq__ (self : loc) (value_or_node : operand) : M state bool :=
  v <- getattr value (Some self);;
  match value_or_node with
  | OpNode m => w <- getattr value (Some m);; ret (bool_decide (v = w))
  | OpObj x =>
      match attr_value x with
      | Some w => ret (bool_decide (v = w))
      | None => ret (bool_decide (v = x))
      end
  end.

(** [Node.__lt__]. *)
Definition Node__lt__ (self : loc) (value_or_node : operand) : M state bool :=
  v <- getattr value (Some self);;
  match value_or_node with
  | OpNode m => w <- getattr value (Some m);; ret (lt v w)
  | OpObj x =>
      match attr_value x with
      | Some w => ret (lt v w)
      | None => ret (lt v x)
      end
  end.

(** The operations of the container, as data. *)
Inductive op :=
  | AppendTail (v : V)
  | AppendHead (v : V)
  | Extend (vs : list V)
  | InsertAfter (t : target) (v : V)
  | InsertBefore (t : target) (v : V)
  | Remove (t : target)
  | GetItem (i : index)
  | SetItem (i : index) (v : V).

Definition exec (fuel : nat) (o : op) : M state unit :=
  match o with
  | AppendTail v => append_tail v
  | AppendHead v => append_head v
  | Extend vs => extend vs
  | InsertAfter t v => insert_after fuel t v
  | InsertBefore t v => insert_before fuel t v
  | Remove t => remove fuel t
  | GetItem i => __getitem__ fuel i;;; ret tt
  | SetItem i v => __setitem__ fuel i v
  end.

(** *** The representation invariant

    A chain is described by the list [ls] of its cells, each a node
    reference with the value it holds, in traversal order.  [dseg h prev ls
    nxt] says that in the store [h] the cells of [ls] are linked to one
    another in both directions, the first one having [prev] as its
    [last_node] and the last one [nxt] as its [next_node]. *)
Fixpoint dseg (h : gmap loc Node) (prev : option loc) (ls : list (loc * V))
    (nxt : option loc) : Prop :=
  match ls with
  | [] => True
  | c :: rest =>
      h !! c.1 = Some (mkNode c.2 (first_loc rest nxt) prev)
      ∧ dseg h (Some c.1) rest nxt
  end.

(** [dlist s ls]: the list object of [s] is a well-formed doubly-linked list
    whose cells are [ls]. *)
Definition dlist (s : state) (ls : list (loc * V)) : Prop :=
  NoDup ls.*1
  ∧ head (self s) = first_loc ls None
  ∧ tail (self s) = last_loc ls None
  ∧ _length (self s) = Z.of_nat (length ls)
  ∧ dseg (heap s) None ls None.

(** [in_chain h o l]: the node [l] is met when following [next_node] from
    [o]; with [o] the head, [l] is a node of the list. *)
Inductive in_chain (h : gmap loc Node) : option loc → loc → Prop :=
  | in_chain_here l : in_chain h (Some l) l
  | in_chain_next a n l :
      h !! a = Some n → in_chain h (next_node n) l → in_chain h (Some a) l.

(** An operation has valid arguments when every node reference it is given
    is a node of the list. *)
(** Two value sequences that [==] takes for equal: they have the same
    length and no two values at the same position are [!=]. *)
Fixpoint values_eq (vs ws : list V) : bool :=
  match vs, ws with
  | [], [] => true
  | v :: vs', w :: ws' => negb (ne v w) && values_eq vs' ws'
  | _, _ => false
  end.

Definition valid_target (s : state) (t : target) : Prop :=
  match t with
  | ByNode l => in_chain (heap s) (head (self s)) l
  | ByIndex _ => True
  end.

Definition valid_op (s : state) (o : op) : Prop :=
  match o with
  | InsertAfter t _ | InsertBefore t _ | Remove t => valid_target s t
  | _ => True
  end.

(** The states a program reaches from a constructor call by operations with
    valid arguments, whether they return or raise. *)
Inductive reachable : state → Prop :=
  | reachable_construct h values s :
      final (construct h values) = Some s → reachable s
  | reachable_exec s fuel o s' :
      reachable s → valid_op s o → final (exec fuel o s) = Some s' →
      reachable s'.

(** *** Textual representation

    [repr] is the built-in [repr] on the values. *)
Variable repr : V → string.

(** [Node.__repr__]. *)
Definition Node__repr__ (self : loc) : M state string :=
  v <- getattr value (Some self);;
  ret ("Node(" +:+ repr v +:+ ")").

(** [map(repr, self)]: [repr] of a node is [Node.__repr__]. *)
Fixpoint map_repr (nodes : list loc) : M state (list string) :=
  match nodes with
  | [] => ret []
  | l :: rest =>
      r <- Node__repr__ l;;
      rs <- map_repr rest;;
      ret (r :: rs)
  end.

(** [__repr__] and [__str__]. *)
Definition __repr__ (fuel : nat) : M state string :=
  nodes <- __iter__ fuel;;
  string_values <- map_repr nodes;;
  ret ("Double(" +:+ String.concat ", " string_values +:+ ")").

Definition __str__ (fuel : nat) : M state string := __repr__ fuel.

End double.
End Double.

(** ** Example programs and states *)
Module Examples.

(** A program's own store, before anything is allocated. *)
Definition single_start : Single.state (V:=Z) :=
  Single.mkState (Single.mkList 0 None None) ∅.
Definition double_start : Double.state (V:=Z) :=
  Double.mkState (Double.mkList 0 None None) ∅.

(** [l = SinglyLinked(1); l.insert_after(l.tail, 2)], then [l[-1].value],
    then [l.append_tail(3)] and [list(l.iter_values())]. *)
Definition insert_after_tail_then_read : M Single.state (Z * list Z) :=
  Single.__init__ [1%Z];;;
  t <- Single.get_tail;;
  match t with
  | None => undef
  | Some tl =>
      Single.insert_after 8 (ByNode tl) 2%Z;;;
      last <- Single.__getitem__ 8 (Int (-1));;
      v <- Single.getattr Single.value (Some last);;
      Single.append_tail 3%Z;;;
      vs <- Single.iter_values 8;;
      ret (v, vs)
  end.

(** The same program on a [Double]. *)
Definition double_insert_after_tail_then_read : M Double.state (Z * list Z) :=
  Double.__init__ [1%Z];;;
  t <- Double.get_tail;;
  match t with
  | None => undef
  | Some tl =>
      Double.insert_after 8 (ByNode tl) 2%Z;;;
      last <- Double.__getitem__ 8 (Int (-1));;
      v <- Double.getattr Double.value (Some last);;
      Double.append_tail 3%Z;;;
      vs <- Double.iter_values 8;;
      ret (v, vs)
  end.

(** [l = SinglyLinked(1); l.insert_after(0, 2); l.append_tail(3)], then
    [len(l)] and the number of nodes [iter(l)] yields. *)
Definition insert_after_then_count : M Single.state (Z * nat) :=
  Single.__init__ [1%Z];;;
  Single.insert_after 8 (ByIndex (Int 0)) 2%Z;;;
  Single.append_tail 3%Z;;;
  n <- Single.__len__;;
  nodes <- Single.__iter__ 8;;
  ret (n, length nodes).

(** [l = SinglyLinked(1); l.insert_after(0, 2)], then the values, then
    [l[-1] = 9] and the values again. *)
Definition insert_after_then_set_last : M Single.state (list Z * list Z) :=
  Single.__init__ [1%Z];;;
  Single.insert_after 8 (ByIndex (Int 0)) 2%Z;;;
  before <- Single.iter_values 8;;
  Single.__setitem__ 8 (Int (-1)) 9%Z;;;
  after <- Single.iter_values 8;;
  ret (before, after).

(** The same program on a [Double]. *)
Definition double_insert_after_then_set_last
    : M Double.state (list Z * list Z) :=
  Double.__init__ [1%Z];;;
  Double.insert_after 8 (ByIndex (Int 0)) 2%Z;;;
  before <- Double.iter_values 8;;
  Double.__setitem__ 8 (Int (-1)) 9%Z;;;
  after <- Double.iter_values 8;;
  ret (before, after).

(** [l = SinglyLinked(1); l.insert_after(0, 2); l.append_tail(3)], then
    [l[len(l) - 1] = 9]. *)
Definition insert_after_then_set_at_len : M Single.state unit :=
  Single.__init__ [1%Z];;;
  Single.insert_after 8 (ByIndex (Int 0)) 2%Z;;;
  Single.append_tail 3%Z;;;
  n <- Single.len;;
  Single.__setitem__ 8 (Int (n - 1)) 9%Z.

(** [d = Double(1, 4)] and a node [Node(9, d.head, None)] made by the
    caller, which is not a node of [d]. *)
Definition double_with_stranger : Double.state (V:=Z) :=
  match Double.construct ∅ [1%Z; 4%Z] with
  | Ok _ s =>
      Double.mkState (Double.self s)
        (<[3%positive := Double.mkNode 9%Z None (Double.head (Double.self s))]>
           (Double.heap s))
  | _ => double_start
  end.

(** [d = Double(5, 6, 7); d.insert_before(1, 9); d.remove(-1);
    d.append_head(0)]. *)
Definition double_after_edits : Double.state (V:=Z) :=
  match (Double.__init__ [5%Z; 6%Z; 7%Z];;;
         Double.insert_before 8 (ByIndex (Int 1)) 9%Z;;;
         Double.remove 8 (ByIndex (Int (-1)));;;
         Double.append_head 0%Z) double_start with
  | Ok _ s => s
  | _ => double_start
  end.

(** [SinglyLinked(1)]. *)
Definition single_one : Single.state (V:=Z) :=
  match Single.construct ∅ [1%Z] with
  | Ok _ s => s
  | _ => single_start
  end.

(** [a = SinglyLinked(1, 2); b = SinglyLinked(1, 2)]: the states seen from
    [a] and from [b], whose nodes live in the same store.  The two list
    objects are distinct: say [a] is the object [1] and [b] the object
    [2]. *)
Definition two_singles : Single.state (V:=Z) * Single.state (V:=Z) :=
  match Single.construct ∅ [1%Z; 2%Z] with
  | Ok _ sa =>
      match Single.construct (Single.heap sa) [1%Z; 2%Z] with
      | Ok _ sb => (Single.mkState (Single.self sa) (Single.heap sb), sb)
      | _ => (single_start, single_start)
      end
  | _ => (single_start, single_start)
  end.

(** [a = Double(1, 2); b = Double(1, 2)]: the state seen from [a], and the
    attributes of [b], whose nodes live in the same store. *)
Definition two_doubles : Double.state (V:=Z) * Double.Double :=
  match Double.construct ∅ [1%Z; 2%Z] with
  | Ok _ sa =>
      match Double.construct (Double.heap sa) [1%Z; 2%Z] with
      | Ok _ sb =>
          (Double.mkState (Double.self sa) (Double.heap sb), Double.self sb)
      | _ => (double_start, Double.mkList 0 None None)
      end
  | _ => (double_start, Double.mkList 0 None None)
  end.

(** [Double(1, 2, 3)]; its nodes are the references [1], [2] and [3]. *)
Definition double_123 : Double.state (V:=Z) :=
  match Double.construct ∅ [1%Z; 2%Z; 3%Z] with
  | Ok _ s => s
  | _ => double_start
  end.

(** [SinglyLinked(1, 2, 3)]. *)
Definition single_123 : Single.state (V:=Z) :=
  match Single.construct ∅ [1%Z; 2%Z; 3%Z] with
  | Ok _ s => s
  | _ => single_start
  end.

(** The cells of [Double(1, 2, 3)] and of [SinglyLinked(1, 2, 3)] built in
    an empty store. *)
Definition cells_123 : list (loc * Z) :=
  [(1%positive, 1%Z); (2%positive, 2%Z); (3%positive, 3%Z)].

(** Python objects for the node comparisons: integers, and instances of
    some class other than [Node] that carry a [value] attribute. *)
Inductive pyobj := PyInt (z : Z) | PyBox (value : Z).

Global Instance pyobj_eq_dec : EqDecision pyobj.
Proof. solve_decision. Defined.

Definition pyobj_value (x : pyobj) : option pyobj :=
  match x with
  | PyInt _ => None
  | PyBox z => Some (PyInt z)
  end.

(** [<] on the integers; the examples compare nothing else. *)
Definition pyobj_lt (x y : pyobj) : bool :=
  match x, y with
  | PyInt a, PyInt b => bool_decide (a < b)%Z
  | _, _ => false
  end.

(** A store with the nodes [Node(PyInt 1)] and [Node(PyInt 2)], for each
    module. *)
Definition single_nodes : Single.state (V:=pyobj) :=
  Single.mkState (Single.mkList 0 None None)
    (<[1%positive := Single.mkNode (PyInt 1) None]>
       (<[2%positive := Single.mkNode (PyInt 2) None]> ∅)).
Definition double_nodes : Double.state (V:=pyobj) :=
  Double.mkState (Double.mkList 0 None None)
    (<[1%positive := Double.mkNode (PyInt 1) None None]>
       (<[2%positive := Double.mkNode (PyInt 2) None None]> ∅)).

End Examples.

(** * Facts about computations *)
Section monad_facts.
Context {S : Type}.

Lemma pure_atomic {A} (m : M S A) : pure m → atomic m.
Proof. intros Hm s. specialize (Hm s). by destruct (m s). Qed.

Lemma noraise_atomic {A} (m : M S A) : noraise m → atomic m.
Proof. intros Hm s. specialize (Hm s). by destruct (m s). Qed.

Lemma pure_ret {A} (a : A) : pure (S:=S) (ret a).
Proof. by intros s. Qed.

Lemma pure_raise {A} e : pure (S:=S) (A:=A) (raise e).
Proof. by intros s. Qed.

Lemma pure_gets {A} (f : S → A) : pure (gets f).
Proof. by intros s. Qed.

Lemma noraise_ret {A} (a : A) : noraise (S:=S) (ret a).
Proof. by intros s. Qed.

Lemma noraise_undef {A} : noraise (S:=S) (A:=A) undef.
Proof. by intros s. Qed.

Lemma noraise_gets {A} (f : S → A) : noraise (gets f).
Proof. by intros s. Qed.

Lemma noraise_modify (f : S → S) : noraise (modify f).
Proof. by intros s. Qed.

Lemma pure_bind {A B} (m : M S A) (k : A → M S B) :
  pure m → (∀ a, pure (k a)) → pure (bind m k).
Proof.
  intros Hm Hk s. unfold bind. specialize (Hm s).
  destruct (m s) as [a s1|e s1|]; subst; try done. apply Hk.
Qed.

Lemma noraise_bind {A B} (m : M S A) (k : A → M S B) :
  noraise m → (∀ a, noraise (k a)) → noraise (bind m k).
Proof.
  intros Hm Hk s. unfold bind. specialize (Hm s).
  destruct (m s) as [a s1|e s1|]; try done. apply Hk.
Qed.

Lemma atomic_bind_pure {A B} (m : M S A) (k : A → M S B) :
  pure m → (∀ a, atomic (k a)) → atomic (bind m k).
Proof.
  intros Hm Hk s. unfold bind. specialize (Hm s).
  destruct (m s) as [a s1|e s1|]; subst; try done. apply Hk.
Qed.

Lemma atomic_bind_noraise {A B} (m : M S A) (k : A → M S B) :
  atomic m → (∀ a, noraise (k a)) → atomic (bind m k).
Proof.
  intros Hm Hk s. unfold bind. specialize (Hm s).
  destruct (m s) as [a s1|e s1|]; try done.
  specialize (Hk a s1). by destruct (k a s1).
Qed.

Lemma raises_only_bind {A B} P (m : M S A) (k : A → M S B) :
  raises_only P m → (∀ a, raises_only P (k a)) → raises_only P (bind m k).
Proof.
  intros Hm Hk s. unfold bind. specialize (Hm s).
  destruct (m s) as [a s1|e s1|]; try done. apply Hk.
Qed.

Lemma noraise_raises_only {A} P (m : M S A) : noraise m → raises_only P m.
Proof. intros Hm s. specialize (Hm s). by destruct (m s). Qed.

End monad_facts.

(** * Facts about cells *)
Section cells_facts.
Context {V : Type}.
Implicit Types (ls xs ys : list (loc * V)) (l : loc) (p q : option loc).

Lemma first_loc_app xs ys q :
  first_loc (xs ++ ys) q = first_loc xs (first_loc ys q).
Proof. by destruct xs. Qed.

Lemma last_loc_app xs ys p :
  last_loc (xs ++ ys) p = last_loc ys (last_loc xs p).
Proof.
  unfold last_loc. destruct ys as [|y ys _] using rev_ind.
  - by rewrite app_nil_r.
  - by rewrite app_assoc, !last_snoc.
Qed.

Lemma last_loc_cons c xs p : last_loc (c :: xs) p = last_loc xs (Some c.1).
Proof. apply (last_loc_app [c] xs p). Qed.

Lemma last_loc_snoc xs c p : last_loc (xs ++ [c]) p = Some c.1.
Proof. unfold last_loc. by rewrite last_snoc. Qed.

Lemma last_loc_elem ls p l :
  last_loc ls p = Some l → l ∈ ls.*1 ∨ (ls = [] ∧ p = Some l).
Proof.
  destruct ls as [|c ls _] using rev_ind; [by right|].
  rewrite last_loc_snoc. intros [= <-]. left.
  rewrite fmap_app. set_solver.
Qed.

Lemma first_loc_Some ls l : is_Some (first_loc ls (Some l)).
Proof. destruct ls; simpl; eauto. Qed.

Lemma first_loc_elem ls p l :
  first_loc ls p = Some l → l ∈ ls.*1 ∨ (ls = [] ∧ p = Some l).
Proof. destruct ls as [|c ls]; [by right|]. intros [= <-]. left. set_solver. Qed.

Lemma last_lookup_cell ls : last ls = ls !! (length ls - 1).
Proof.
  destruct ls as [|c ls _] using rev_ind; [done|].
  rewrite last_snoc, length_app. simpl.
  rewrite lookup_app_r by lia.
  by replace (length ls + 1 - 1 - length ls) with 0 by lia.
Qed.

Lemma cell_at_last ls : cell_at ls (-1) = last ls.
Proof.
  unfold cell_at, position. rewrite decide_True by done.
  case_decide as Hn; simpl.
  - by destruct ls.
  - by rewrite last_lookup_cell.
Qed.

Lemma cell_at_nonneg ls i :
  i ≠ (-1)%Z →
  cell_at ls i = if decide (0 ≤ i)%Z then ls !! Z.to_nat i else None.
Proof.
  intros Hi. unfold cell_at, position. rewrite decide_False by done.
  repeat case_decide; simpl; try done; try lia.
  symmetry. apply lookup_ge_None_2. lia.
Qed.

Lemma cell_at_lookup ls i c :
  cell_at ls i = Some c →
  ∃ k, position (length ls) i = Some k ∧ ls !! k = Some c.
Proof.
  unfold cell_at. destruct (position (length ls) i) as [k|]; [|done].
  simpl. eauto.
Qed.

Lemma cell_split ls k c :
  ls !! k = Some c → ls = take k ls ++ c :: drop (S k) ls.
Proof. intros Hk. by rewrite take_drop_middle. Qed.

Lemma position_lt n i k : position n i = Some k → k < n.
Proof.
  unfold position. repeat case_decide; intros [= <-]; lia.
Qed.

Lemma cell_at_position ls i k :
  position (length ls) i = Some k → cell_at ls i = ls !! k.
Proof. unfold cell_at. by intros ->. Qed.

Lemma first_loc_lookup ls : first_loc ls None = fst <$> ls !! 0.
Proof. by destruct ls. Qed.

Lemma first_loc_drop ls k : first_loc (drop k ls) None = fst <$> ls !! k.
Proof. by rewrite first_loc_lookup, lookup_drop, Nat.add_0_r. Qed.

Lemma last_loc_take ls k :
  k < length ls → last_loc (take (S k) ls) None = fst <$> ls !! k.
Proof.
  intros Hk. unfold last_loc.
  rewrite last_lookup_cell, length_take_le by lia. simpl.
  rewrite Nat.sub_0_r, lookup_take_lt by lia. by destruct (ls !! k).
Qed.

Lemma take_S_middle xs c ys :
  take (S (length xs)) (xs ++ c :: ys) = xs ++ [c].
Proof.
  rewrite (cons_middle c), app_assoc.
  replace (S (length xs)) with (length (xs ++ [c]))
    by (rewrite length_app; simpl; lia).
  by rewrite take_app_length.
Qed.

Lemma drop_S_middle xs c ys :
  drop (S (length xs)) (xs ++ c :: ys) = ys.
Proof.
  rewrite (cons_middle c), app_assoc.
  replace (S (length xs)) with (length (xs ++ [c]))
    by (rewrite length_app; simpl; lia).
  by rewrite drop_app_length.
Qed.

Lemma cell_decompose ls k c :
  ls !! k = Some c → ∃ xs ys, ls = xs ++ c :: ys ∧ length xs = k.
Proof.
  intros Hc. exists (take k ls), (drop (S k) ls).
  split; [by apply cell_split|].
  rewrite length_take. apply lookup_lt_Some in Hc. lia.
Qed.

End cells_facts.

(** * Tactics

    [nodup_facts H] breaks a [NoDup] (or membership) hypothesis on the
    references of a split list of cells into its atomic facts;
    [solve_nodup] proves such a goal from them; [run] steps through a
    method body, resolving each read of the store with the lookups at
    hand. *)
Ltac nodup_facts H :=
  rewrite ?fmap_app, ?fmap_cons in H; simpl in H;
  rewrite ?NoDup_app, ?NoDup_cons, ?NoDup_app in H.

Ltac run :=
  repeat (simpl;
    first [ rewrite lookup_insert_eq
          | rewrite lookup_insert_ne by set_solver
          | match goal with
            | H : ?h !! ?l = Some _ |- context [?h !! ?l] => rewrite H
            end ]);
  simpl.

Ltac solve_nodup :=
  rewrite ?fmap_app, ?fmap_cons; simpl;
  rewrite ?NoDup_app, ?NoDup_cons, ?NoDup_app, ?NoDup_nil;
  set_solver.

(** * Properties of the singly-linked list *)
Module SingleFacts.
Import Single.
Section facts.
Context {V : Type}.
Implicit Types (h : gmap loc (Node (V:=V))) (ls xs ys : list (loc * V)).
Implicit Types (s : state (V:=V)) (l : loc) (p q : option loc).
Implicit Types (v : V) (vs : list V).

Lemma sseg_app h xs ys q :
  sseg h (xs ++ ys) q ↔ sseg h xs (first_loc ys q) ∧ sseg h ys q.
Proof.
  induction xs as [|c xs IH]; simpl; [tauto|].
  rewrite IH, first_loc_app. tauto.
Qed.

Lemma sseg_frame h l n ls q :
  l ∉ ls.*1 → sseg (<[l:=n]> h) ls q ↔ sseg h ls q.
Proof.
  induction ls as [|c ls IH]; intros Hl; simpl; [done|].
  rewrite fmap_cons, not_elem_of_cons in Hl. destruct Hl as [Hne Hl].
  rewrite lookup_insert_ne by done. by rewrite IH.
Qed.

Lemma sseg_is_Some h ls q l : sseg h ls q → l ∈ ls.*1 → is_Some (h !! l).
Proof.
  induction ls as [|c ls IH]; simpl.
  - by intros _ ?%elem_of_nil.
  - intros [Hc Hr] [->|Hin]%elem_of_cons; eauto.
Qed.

Lemma sseg_fresh h ls q : sseg h ls q → fresh (dom h) ∉ ls.*1.
Proof.
  intros Hs Hin. apply (sseg_is_Some _ _ _ _ Hs) in Hin.
  apply elem_of_dom in Hin. by apply is_fresh in Hin.
Qed.

Lemma sseg_lookup h xs c ys q :
  sseg h (xs ++ c :: ys) q → h !! c.1 = Some (mkNode c.2 (first_loc ys q)).
Proof. rewrite sseg_app. simpl. tauto. Qed.

Lemma single_append_tail_spec s ls v :
  slist s ls →
  ∃ s', append_tail v s = Ok tt s'
        ∧ slist s' (ls ++ [(fresh (dom (heap s)), v)]).
Proof.
  destruct s as [[len hd tl] h]. unfold slist. simpl.
  intros (Hnd & -> & -> & -> & Hs).
  pose proof (sseg_fresh _ _ _ Hs) as Hfr.
  set (new := fresh (dom h)) in *.
  unfold append_tail, bind, new_Node, get_head, gets. simpl. fold new.
  destruct ls as [|c ls _] using rev_ind.
  - simpl. eexists; split; [done|]. simpl.
    rewrite lookup_insert_eq. repeat split; try done. apply NoDup_singleton.
  - rewrite first_loc_app. simpl.
    destruct (first_loc_Some ls c.1) as [hd Hhd]. rewrite Hhd. simpl.
    pose proof (sseg_lookup _ _ _ _ _ Hs) as Hc. simpl in Hc.
    rewrite last_loc_snoc. nodup_facts Hfr. nodup_facts Hnd. run.
    eexists; split; [done|]. simpl.
    rewrite last_loc_snoc, !first_loc_app, !length_app. simpl.
    split_and!; [solve_nodup|done|done|lia|].
    apply sseg_app in Hs as [Hs _]. simpl in Hs.
    rewrite !sseg_app. simpl.
    rewrite lookup_insert_eq, lookup_insert_ne, lookup_insert_eq by set_solver.
    rewrite !sseg_frame by set_solver. done.
Qed.

Lemma single_extend_spec s ls vs :
  slist s ls →
  ∃ s' ls', extend vs s = Ok tt s' ∧ slist s' (ls ++ ls') ∧ ls'.*2 = vs.
Proof.
  revert s ls. induction vs as [|v vs IH]; intros s ls Hd; simpl.
  - exists s, []. by rewrite app_nil_r.
  - destruct (single_append_tail_spec s ls v Hd) as (s1 & E1 & Hd1).
    destruct (IH s1 _ Hd1) as (s2 & ls2 & E2 & Hd2 & Hv).
    exists s2, ((fresh (dom (heap s)), v) :: ls2).
    unfold bind. rewrite E1, E2. rewrite <- app_assoc in Hd2.
    split_and!; [done|done|]. rewrite fmap_cons. simpl. by rewrite Hv.
Qed.

Lemma single_construct_spec h vs :
  ∃ s ls, construct h vs = Ok tt s ∧ slist s ls ∧ ls.*2 = vs.
Proof.
  unfold construct, __init__, bind. simpl.
  apply (single_extend_spec _ [] vs). unfold slist. simpl.
  split_and!; try done. apply NoDup_nil_2.
Qed.

Lemma iter_from_sseg fuel s ls :
  sseg (heap s) ls None → length ls < fuel →
  iter_from fuel (first_loc ls None) s = Ok ls.*1 s.
Proof.
  revert fuel. induction ls as [|c ls IH]; intros [|fuel] Hs Hf;
    simpl in *; try lia; [done|].
  destruct Hs as [Hc Hs]. unfold bind, getattr. rewrite Hc. simpl.
  rewrite (IH fuel) by (done || lia). done.
Qed.

Lemma values_of_sseg s ls q :
  sseg (heap s) ls q → values_of ls.*1 s = Ok ls.*2 s.
Proof.
  induction ls as [|c ls IH]; intros Hs; [done|].
  destruct Hs as [Hc Hs]. rewrite !fmap_cons. cbn [values_of].
  unfold bind, getattr. rewrite Hc. by rewrite IH.
Qed.

Lemma enumerate_find_sseg fuel s ls i index :
  sseg (heap s) ls None → length ls < fuel →
  enumerate_find fuel (first_loc ls None) i index s =
  Ok (if decide (i ≤ index)%Z then fst <$> ls !! Z.to_nat (index - i)
      else None) s.
Proof.
  revert fuel i. induction ls as [|c ls IH]; intros fuel i Hs Hf.
  - destruct fuel; [simpl in Hf; lia|]. simpl. unfold ret.
    by case_decide.
  - destruct fuel as [|fuel]; [simpl in Hf; lia|].
    simpl in Hs. destruct Hs as [Hc Hs]. simpl.
    case_bool_decide as Hi.
    + subst. rewrite decide_True by lia. by rewrite Z.sub_diag.
    + unfold bind, getattr. rewrite Hc. simpl.
      rewrite (IH fuel) by (done || simpl in Hf; lia).
      f_equal. repeat case_decide; try lia; [|done].
      replace (Z.to_nat (index - i)) with (S (Z.to_nat (index - (i + 1))))
        by lia.
      done.
Qed.

Lemma single_getitem_unfold fuel s i :
  __getitem__ fuel (Int i) s =
  match tail (self s), bool_decide (i = -1)%Z with
  | Some tl, true => Ok tl s
  | _, _ =>
      if bool_decide (i < -1)%Z then Raise IndexError s
      else match enumerate_find fuel (head (self s)) 0 i s with
           | Ok (Some node) s' => Ok node s'
           | Ok None s' => Raise IndexError s'
           | Raise e s' => Raise e s'
           | Undef => Undef
           end
  end.
Proof.
  unfold __getitem__, bind, get_tail, get_head, gets. simpl.
  destruct (tail (self s)), (bool_decide (i = -1)%Z); try done;
    case_bool_decide; try done;
    destruct (enumerate_find fuel (head (self s)) 0 i s) as [[?|] ?|?|]; done.
Qed.

Lemma single_getitem_spec fuel s ls i :
  slist s ls → length ls < fuel →
  __getitem__ fuel (Int i) s =
    match cell_at ls i with
    | Some c => Ok c.1 s
    | None => Raise IndexError s
    end.
Proof.
  intros (Hnd & Hh & Ht & Hl & Hs) Hf. rewrite single_getitem_unfold, Hh, Ht.
  rewrite (enumerate_find_sseg fuel s ls 0 i Hs Hf), Z.sub_0_r.
  destruct (decide (i = -1)%Z) as [->|Hi].
  - rewrite cell_at_last, bool_decide_true by done. unfold last_loc.
    destruct (last ls) as [c|] eqn:El; [done|].
    by apply last_None in El as ->.
  - rewrite cell_at_nonneg, (bool_decide_false (i = -1)%Z) by done.
    assert (∀ X : outcome (state (V:=V)) loc,
      match last_loc ls None with Some _ | _ => X end = X) as ->.
    { by destruct (last_loc ls None). }
    case_bool_decide as Hneg.
    { by rewrite decide_False by lia. }
    rewrite !decide_True by lia. by destruct (ls !! Z.to_nat i).
Qed.

Lemma single_setitem_getitem fuel i v s :
  __setitem__ fuel i v s =
  (node <- __getitem__ fuel i;; set_value v (Some node)) s.
Proof.
  destruct i as [i|]; [|done].
  unfold __setitem__, __getitem__, bind, get_tail, get_head, gets. simpl.
  destruct (tail (self s)), (bool_decide (i = -1)%Z); try done;
    case_bool_decide; try done;
    destruct (enumerate_find fuel (head (self s)) 0 i s) as [[?|] ?|?|]; done.
Qed.

Lemma single_set_value_spec s xs c ys v :
  slist s (xs ++ c :: ys) →
  ∃ s', set_value v (Some c.1) s = Ok tt s'
        ∧ self s' = self s
        ∧ heap s' = <[c.1 := mkNode v (first_loc ys None)]> (heap s)
        ∧ slist s' (xs ++ (c.1, v) :: ys).
Proof.
  destruct s as [[len hd tl] h]. unfold slist. simpl.
  intros (Hnd & -> & -> & -> & Hs).
  pose proof (sseg_lookup _ _ _ _ _ Hs) as Hc.
  unfold set_value, setattr. simpl. rewrite Hc. simpl.
  eexists; split; [done|]. simpl. split; [done|]. split; [done|].
  rewrite !last_loc_app, !last_loc_cons, !first_loc_app, !length_app. simpl.
  split_and!; try done.
  - by rewrite !fmap_app in *.
  - nodup_facts Hnd. apply sseg_app in Hs as [Hxs Hys]. simpl in Hys.
    rewrite sseg_app. simpl. rewrite lookup_insert_eq.
    rewrite !sseg_frame by set_solver. tauto.
Qed.

(** *** Failure leaves the list as it was *)

Lemma pure_getattr {A} (f : Node (V:=V) → A) p : pure (getattr f p).
Proof.
  intros s. unfold getattr. destruct p as [l|]; [|done].
  by destruct (heap s !! l).
Qed.

Lemma noraise_getattr {A} (f : Node (V:=V) → A) l : noraise (getattr f (Some l)).
Proof. intros s. unfold getattr. by destruct (heap s !! l). Qed.

Lemma noraise_setattr (upd : Node (V:=V) → Node) l :
  noraise (setattr upd (Some l)).
Proof. intros s. unfold setattr. by destruct (heap s !! l). Qed.

Lemma noraise_new_Node (v : V) p : noraise (new_Node v p).
Proof. by intros s. Qed.

Lemma pure_enumerate_find fuel p i index :
  pure (S:=state (V:=V)) (enumerate_find fuel p i index).
Proof.
  revert p i. induction fuel as [|fuel IH]; intros p i; simpl; [done|].
  destruct p as [l|]; [|apply pure_ret].
  case_bool_decide; [apply pure_ret|].
  apply pure_bind; [apply pure_getattr|]. intros nxt. apply IH.
Qed.

Lemma pure_find_pred fuel p l :
  pure (S:=state (V:=V)) (find_pred fuel p l).
Proof.
  revert p. induction fuel as [|fuel IH]; intros p; simpl; [done|].
  destruct p as [a|]; [|apply pure_ret].
  apply pure_bind; [apply pure_getattr|]. intros nxt.
  case_bool_decide; [apply pure_ret|apply IH].
Qed.

Lemma pure_getitem fuel i : pure (S:=state (V:=V)) (__getitem__ fuel i).
Proof.
  intros s. destruct i as [i|]; [|done]. rewrite single_getitem_unfold.
  pose proof (pure_enumerate_find fuel (head (self s)) 0 i s) as Hp.
  destruct (tail (self s)), (bool_decide (i = -1)%Z); try done;
    case_bool_decide; try done;
    destruct (enumerate_find fuel (head (self s)) 0 i s) as [[?|] ?|?|]; done.
Qed.

Lemma atomic_setitem fuel i v : atomic (__setitem__ fuel i v).
Proof.
  intros s. rewrite single_setitem_getitem. revert s.
  apply atomic_bind_noraise; [apply pure_atomic, pure_getitem|].
  intros node. apply noraise_setattr.
Qed.

(** A lookup that succeeds finds the same node once a new node, not yet
    linked to anything, has been created. *)
Lemma enumerate_find_alloc fuel p i index s r s' n :
  enumerate_find fuel p i index s = Ok r s' →
  enumerate_find fuel p i index
    (mkState (self s) (<[fresh (dom (heap s)) := n]> (heap s)))
  = Ok r (mkState (self s) (<[fresh (dom (heap s)) := n]> (heap s))).
Proof.
  revert p i. induction fuel as [|fuel IH]; intros p i; simpl; [done|].
  destruct p as [l|]; [|by intros [= <- <-]].
  case_bool_decide; [by intros [= <- <-]|].
  unfold bind, getattr. simpl.
  destruct (heap s !! l) as [nd|] eqn:El; [|done].
  rewrite lookup_insert_ne, El; [apply IH|].
  intros <-. apply (is_fresh (dom (heap s))). apply elem_of_dom. eauto.
Qed.

Lemma getitem_alloc fuel i s node s' n :
  __getitem__ fuel i s = Ok node s' →
  __getitem__ fuel i
    (mkState (self s) (<[fresh (dom (heap s)) := n]> (heap s)))
  = Ok node (mkState (self s) (<[fresh (dom (heap s)) := n]> (heap s))).
Proof.
  destruct i as [i|]; [|done]. rewrite !single_getitem_unfold. simpl.
  destruct (tail (self s)), (bool_decide (i = -1)%Z);
    try (by intros [= <- <-]); case_bool_decide; try done;
    (destruct (enumerate_find fuel (head (self s)) 0 i s)
       as [[r|] s1|?|] eqn:E; try done;
     rewrite (enumerate_find_alloc _ _ _ _ _ _ _ n E); by intros [= <- <-]).
Qed.

Lemma atomic_insert_after fuel t v : atomic (insert_after fuel t v).
Proof.
  unfold insert_after. apply atomic_bind_noraise; last first.
  { intros _. apply noraise_bind; [apply noraise_gets|]. intros n.
    apply noraise_modify. }
  destruct t as [node|i].
  - apply noraise_atomic.
    apply noraise_bind; [apply noraise_getattr|]. intros nxt.
    apply noraise_bind; [apply noraise_new_Node|]. intros new.
    apply noraise_setattr.
  - intros s. unfold bind at 1.
    pose proof (pure_getitem fuel i s) as Hp.
    destruct (__getitem__ fuel i s) as [node s0|e s0|] eqn:E; [subst s0| |]; try done.
    unfold bind, getattr, new_Node.
    destruct (heap s !! node) as [nd|]; [|done]. simpl.
    rewrite (getitem_alloc _ _ _ _ _ _ E).
    unfold set_next_node, setattr. by repeat case_match.
Qed.

Lemma atomic_remove_by_node fuel l :
  atomic (S:=state (V:=V)) (_remove_by_node fuel l).
Proof.
  unfold _remove_by_node.
  apply atomic_bind_pure; [apply pure_gets|]. intros h.
  apply atomic_bind_noraise; last first.
  { intros node. apply noraise_bind; [apply noraise_gets|]. intros t.
    case_bool_decide; [apply noraise_modify|apply noraise_ret]. }
  case_bool_decide.
  - apply atomic_bind_pure; [apply pure_getattr|]. intros nxt.
    apply noraise_atomic, noraise_bind; [apply noraise_modify|].
    intros _. apply noraise_ret.
  - apply atomic_bind_pure; [apply pure_find_pred|]. intros [p|].
    + apply atomic_bind_pure; [apply pure_getattr|]. intros nxt.
      apply noraise_atomic, noraise_bind; [apply noraise_setattr|].
      intros _. apply noraise_ret.
    + apply pure_atomic, pure_raise.
Qed.

Lemma pure_len : pure (S:=state (V:=V)) len.
Proof.
  apply pure_bind; [apply pure_gets|]. intros n.
  case_bool_decide; [apply pure_raise|apply pure_ret].
Qed.

Lemma len_nonneg s : (0 ≤ _length (self s))%Z → len s = Ok (_length (self s)) s.
Proof.
  intros Hn. unfold len, bind, __len__, get_length, gets.
  by rewrite bool_decide_false by lia.
Qed.

Lemma atomic_remove_by_index fuel i :
  atomic (S:=state (V:=V)) (_remove_by_index fuel i).
Proof.
  destruct i as [i|]; [|apply pure_atomic, pure_raise].
  unfold _remove_by_index.
  apply atomic_bind_pure; [apply pure_len|]. intros n. cbv zeta.
  generalize (if bool_decide (i = -1)%Z then (n - 1)%Z else i).
  intros index.
  apply atomic_bind_noraise; last first.
  { intros node. case_bool_decide; [apply noraise_modify|apply noraise_ret]. }
  destruct (bool_decide (index = 0)%Z);
    [|destruct (bool_decide (index ≤ n - 1)%Z)].
  - apply atomic_bind_pure; [apply pure_gets|]. intros h.
    apply atomic_bind_pure; [apply pure_getattr|]. intros nxt.
    apply noraise_atomic, noraise_bind; [apply noraise_modify|].
    intros _. apply noraise_ret.
  - apply atomic_bind_pure; [apply pure_getitem|]. intros node.
    apply atomic_bind_pure; [apply pure_getattr|]. intros nxt.
    apply atomic_bind_pure; [apply pure_getattr|]. intros nxt2.
    apply noraise_atomic, noraise_bind; [apply noraise_setattr|].
    intros _. apply noraise_ret.
  - apply pure_atomic, pure_raise.
Qed.

Lemma atomic_remove fuel t : atomic (S:=state (V:=V)) (remove fuel t).
Proof.
  unfold remove. apply atomic_bind_noraise; last first.
  { intros _. apply noraise_bind; [apply noraise_gets|]. intros n.
    apply noraise_modify. }
  destruct t; [apply atomic_remove_by_node|apply atomic_remove_by_index].
Qed.

Lemma single_setitem_spec fuel s ls i k v :
  slist s ls → position (length ls) i = Some k → length ls < fuel →
  ∃ c n s', ls !! k = Some c ∧ heap s !! c.1 = Some n
            ∧ __setitem__ fuel (Int i) v s = Ok tt s'
            ∧ self s' = self s
            ∧ heap s' = <[c.1 := mkNode v (next_node n)]> (heap s)
            ∧ slist s' (<[k := (c.1, v)]> ls).
Proof.
  intros Hd Hk Hf. pose proof (position_lt _ _ _ Hk) as Hlt.
  destruct (lookup_lt_is_Some_2 ls k Hlt) as [c Hc].
  pose proof (cell_split _ _ _ Hc) as Hsplit.
  rewrite single_setitem_getitem. unfold bind.
  rewrite (single_getitem_spec fuel s ls i Hd Hf), (cell_at_position _ _ _ Hk), Hc.
  rewrite Hsplit in Hd.
  destruct (single_set_value_spec s _ c _ v Hd) as (s' & E & Hself & Hheap & Hd').
  destruct Hd as (_ & _ & _ & _ & Hs).
  pose proof (sseg_lookup _ _ _ _ _ Hs) as Hn.
  eexists c, _, s'. split_and!; try done.
  by rewrite insert_take_drop.
Qed.

(** Whatever the state, an assignment that returns has changed the value of
    one node and nothing else. *)
Lemma single_setitem_frame fuel i v s s' :
  __setitem__ fuel i v s = Ok tt s' →
  self s' = self s
  ∧ ∃ l n, heap s !! l = Some n
           ∧ heap s' = <[l := mkNode v (next_node n)]> (heap s).
Proof.
  rewrite single_setitem_getitem. unfold bind.
  pose proof (pure_getitem fuel i s) as Hp.
  destruct (__getitem__ fuel i s) as [node s0|e s0|]; try done. subst s0.
  unfold set_value, setattr.
  destruct (heap s !! node) as [n|] eqn:E; [|done]. intros [= <-]. eauto.
Qed.

(** [insert_after] never assigns [tail]. *)
Lemma insert_after_keeps_tail fuel t v s s' :
  insert_after fuel t v s = Ok tt s' → tail (self s') = tail (self s).
Proof.
  unfold insert_after, bind, get_length, set_length, gets, modify.
  destruct t as [node|i].
  - unfold getattr, new_Node, set_next_node, setattr.
    destruct (heap s !! node) as [n|] eqn:En; [|done]. simpl.
    rewrite lookup_insert_ne, En; [by intros [= <-]|].
    intros <-. apply (is_fresh (dom (heap s))). apply elem_of_dom. eauto.
  - pose proof (pure_getitem fuel i s) as Hp.
    destruct (__getitem__ fuel i s) as [node s0|e s0|] eqn:E; try done.
    subst s0. unfold getattr, new_Node.
    destruct (heap s !! node) as [n|]; [|done]. simpl.
    rewrite (getitem_alloc _ _ _ _ _ _ E).
    unfold set_next_node, setattr. simpl.
    destruct (_ !! node); [|done]. simpl. by intros [= <-].
Qed.

Lemma atomic_exec fuel (a : op (V:=V)) :
  takes_target a → atomic (exec fuel a).
Proof.
  destruct a as [v|v|vs|t v|t|i|i v]; simpl; try done; intros _.
  - apply atomic_insert_after.
  - apply atomic_remove.
  - apply atomic_bind_noraise; [apply pure_atomic, pure_getitem|].
    intros _. apply noraise_ret.
  - apply atomic_setitem.
Qed.

Lemma single_iter_values_spec fuel s ls :
  slist s ls → length ls < fuel → iter_values fuel s = Ok ls.*2 s.
Proof.
  intros (_ & Hh & _ & _ & Hs) Hf.
  unfold iter_values, __iter__, bind, get_head, gets.
  rewrite Hh, (iter_from_sseg _ _ _ Hs Hf). by eapply values_of_sseg.
Qed.

(** *** Insertion *)

Lemma single_append_head_spec s ls v :
  slist s ls →
  ∃ s', append_head v s = Ok tt s'
        ∧ slist s' ((fresh (dom (heap s)), v) :: ls).
Proof.
  destruct s as [[len hd tl] h]. unfold slist. simpl.
  intros (Hnd & -> & -> & -> & Hs).
  pose proof (sseg_fresh _ _ _ Hs) as Hfr.
  set (new := fresh (dom h)) in *.
  unfold append_head, bind, new_Node, get_head, gets. simpl. fold new.
  destruct ls as [|c ls].
  - simpl. eexists; split; [done|]. simpl.
    rewrite lookup_insert_eq. repeat split; try done. apply NoDup_singleton.
  - simpl. simpl in Hs. destruct Hs as [Hc Hs].
    nodup_facts Hfr. nodup_facts Hnd. run.
    eexists; split; [done|]. simpl. rewrite !last_loc_cons. simpl.
    split_and!; [solve_nodup|done|done|lia| | |].
    + by rewrite lookup_insert_eq.
    + by rewrite !lookup_insert_ne by set_solver.
    + rewrite !sseg_frame by set_solver. done.
Qed.

Lemma single_insert_after_node_chain fuel s xs c ys v :
  schain s (xs ++ c :: ys) →
  ∃ s', insert_after fuel (ByNode c.1) v s = Ok tt s'
        ∧ schain s' (xs ++ c :: (fresh (dom (heap s)), v) :: ys)
        ∧ tail (self s') = tail (self s)
        ∧ _length (self s') = (_length (self s) + 1)%Z.
Proof.
  destruct s as [[len hd tl] h]. unfold schain. simpl.
  intros (Hnd & -> & Hs).
  pose proof (sseg_fresh _ _ _ Hs) as Hfr.
  pose proof (sseg_lookup _ _ _ _ _ Hs) as Hc.
  set (new := fresh (dom h)) in *.
  nodup_facts Hfr. nodup_facts Hnd.
  unfold insert_after, bind, new_Node, get_length, gets, getattr. simpl.
  rewrite Hc. simpl. fold new. run.
  eexists; split; [done|]. simpl.
  rewrite !first_loc_app. simpl.
  split_and!; [solve_nodup|done| |done|done].
  apply sseg_app in Hs as [Hxs [_ Hys]].
  rewrite sseg_app. simpl.
  rewrite lookup_insert_eq, lookup_insert_ne, lookup_insert_eq by set_solver.
  rewrite !sseg_frame by set_solver. done.
Qed.

(** By index the target is looked up twice, before and after the new node
    is created; both lookups find the same node. *)
Lemma single_insert_after_resolve fuel i v s node :
  __getitem__ fuel i s = Ok node s →
  insert_after fuel (ByIndex i) v s = insert_after fuel (ByNode node) v s.
Proof.
  intros E. unfold insert_after, bind at 1 2. rewrite E.
  unfold bind, getattr, new_Node.
  destruct (heap s !! node) as [n|]; [|done]. simpl.
  by rewrite (getitem_alloc _ _ _ _ _ _ E).
Qed.

(** *** Removal *)

Lemma find_pred_found fuel s xs pc c ys :
  NoDup (xs ++ pc :: c :: ys).*1 →
  sseg (heap s) (xs ++ pc :: c :: ys) None → length xs < fuel →
  find_pred fuel (first_loc (xs ++ pc :: c :: ys) None) c.1 s = Ok (Some pc.1) s.
Proof.
  revert fuel. induction xs as [|x xs IH]; intros [|fuel] Hnd Hs Hf;
    simpl in Hf; try lia.
  - simpl in *. destruct Hs as [Hp _]. unfold bind, getattr. rewrite Hp. simpl.
    by rewrite bool_decide_true.
  - simpl in Hs. destruct Hs as [Hx Hs]. simpl.
    unfold bind, getattr. rewrite Hx. simpl.
    simpl in Hnd. apply NoDup_cons in Hnd as [_ Hnd].
    change (NoDup (xs ++ pc :: c :: ys).*1) in Hnd.
    rewrite bool_decide_false; last first.
    { rewrite first_loc_app. simpl. intros Heq.
      nodup_facts Hnd. nodup_facts Hnd.
      apply first_loc_elem in Heq as [?|[_ [= ?]]]; set_solver. }
    apply IH; [done|done|lia].
Qed.

Lemma find_pred_absent fuel s ls l :
  sseg (heap s) ls None → l ∉ ls.*1 → length ls < fuel →
  find_pred fuel (first_loc ls None) l s = Ok None s.
Proof.
  revert fuel. induction ls as [|c ls IH]; intros [|fuel] Hs Hl Hf;
    simpl in Hf; try lia; [done|].
  simpl in Hs. destruct Hs as [Hc Hs]. simpl.
  unfold bind, getattr. rewrite Hc. simpl.
  rewrite fmap_cons, not_elem_of_cons in Hl. destruct Hl as [Hne Hl].
  rewrite bool_decide_false; last first.
  { intros Heq. apply first_loc_elem in Heq as [?|[_ ?]]; done. }
  apply IH; [done|done|lia].
Qed.

Lemma single_remove_node_spec fuel s xs c ys :
  slist s (xs ++ c :: ys) → length xs < fuel →
  ∃ s', remove fuel (ByNode c.1) s = Ok tt s' ∧ slist s' (xs ++ ys).
Proof.
  destruct s as [[len hd tl] h]. unfold slist. simpl.
  intros (Hnd & -> & -> & -> & Hs) Hf.
  pose proof (sseg_lookup _ _ _ _ _ Hs) as Hc.
  unfold remove, _remove_by_node, bind at 1 2 3.
  unfold get_head at 1, gets at 1. simpl.
  destruct xs as [|pc xs _] using rev_ind.
  - simpl in *. destruct Hs as [_ Hys]. nodup_facts Hnd.
    rewrite bool_decide_true by done.
    unfold bind, getattr, get_tail, get_length, gets. simpl. rewrite Hc. simpl.
    rewrite last_loc_cons.
    destruct ys as [|n ys].
    + unfold last_loc. simpl. rewrite bool_decide_true by done. simpl.
      eexists; split; [done|]. simpl.
      split_and!; try done; try lia. apply NoDup_nil_2.
    + rewrite bool_decide_false; last first.
      { rewrite last_loc_cons. intros Heq.
        apply last_loc_elem in Heq as [?|[_ [= ?]]]; set_solver. }
      simpl. eexists; split; [done|]. simpl.
      simpl in Hys.
      split_and!;
        first [done|lia|tauto|by rewrite ?last_loc_cons|solve_nodup].
  - rewrite <- app_assoc in Hs, Hnd |- *. simpl in Hs, Hnd |- *.
    rewrite length_app in Hf. simpl in Hf.
    pose proof (sseg_lookup _ _ _ _ _ Hs) as Hp. simpl in Hp.
    rewrite bool_decide_false; last first.
    { nodup_facts Hnd. rewrite first_loc_app. simpl. intros Heq.
      apply first_loc_elem in Heq as [?|[_ [= ?]]]; set_solver. }
    unfold bind.
    rewrite (find_pred_found fuel (mkState _ h) xs pc c ys Hnd Hs) by lia.
    unfold bind, getattr, get_tail, get_length, gets, set_next_node, setattr.
    simpl. rewrite Hc. simpl. rewrite Hp. simpl.
    rewrite !last_loc_app, !last_loc_cons, !length_app. simpl.
    nodup_facts Hnd.
    apply sseg_app in Hs as [Hxs (_ & _ & Hys)].
    destruct ys as [|n ys].
    + unfold last_loc at 1. simpl. rewrite bool_decide_true by done. simpl.
      eexists; split; [done|]. simpl.
      rewrite ?app_nil_r, ?length_app, ?last_loc_snoc, ?first_loc_app. simpl.
      split_and!; [solve_nodup|done|done|lia|].
      rewrite sseg_app. simpl. rewrite lookup_insert_eq.
      rewrite !sseg_frame by set_solver. done.
    + rewrite bool_decide_false; last first.
      { rewrite last_loc_cons. intros Heq. nodup_facts Hnd.
        apply last_loc_elem in Heq as [?|[_ [= ?]]]; set_solver. }
      simpl. eexists; split; [done|]. simpl.
      rewrite <- ?app_assoc. simpl.
      rewrite ?length_app, ?last_loc_app, ?last_loc_cons, ?first_loc_app.
      simpl. nodup_facts Hnd. simpl in Hys.
      split_and!; [solve_nodup|done|done|lia|].
      rewrite sseg_app. simpl. rewrite lookup_insert_eq.
      rewrite lookup_insert_ne by set_solver.
      rewrite !sseg_frame by set_solver. tauto.
Qed.

Lemma single_remove_node_absent fuel s ls l :
  slist s ls → l ∉ ls.*1 → length ls < fuel →
  remove fuel (ByNode l) s = Raise ValueError s.
Proof.
  intros (Hnd & Hh & Ht & Hl & Hs) Hnot Hf.
  unfold remove, _remove_by_node, bind at 1 2 3.
  unfold get_head at 1, gets at 1. rewrite Hh.
  rewrite bool_decide_false; last first.
  { intros Heq. apply first_loc_elem in Heq as [?|[_ ?]]; done. }
  unfold bind. rewrite <- Hh at 1. rewrite Hh.
  by rewrite (find_pred_absent fuel s ls l Hs Hnot Hf).
Qed.

Lemma single_remove_index_head fuel s c ys i :
  slist s (c :: ys) →
  (if bool_decide (i = -1)%Z then Z.of_nat (length (c :: ys)) - 1 else i)%Z
  = 0%Z →
  ∃ s', remove fuel (ByIndex (Int i)) s = Ok tt s' ∧ slist s' ys.
Proof.
  destruct s as [[len hd tl] h]. unfold slist. simpl.
  intros (Hnd & -> & -> & -> & Hc & Hys) Hi.
  unfold remove, _remove_by_index, bind at 1 2.
  rewrite len_nonneg by (simpl; lia). cbv zeta. cbn [_length self].
  cbn [length] in *. rewrite Hi. rewrite bool_decide_true by done.
  unfold bind, get_head, get_length, gets, getattr. simpl. rewrite Hc. simpl.
  nodup_facts Hnd. rewrite last_loc_cons.
  destruct ys as [|n ys].
  - simpl. eexists; split; [done|]. simpl.
    split_and!; try done. apply NoDup_nil_2.
  - rewrite bool_decide_false by (simpl; lia). simpl.
    eexists; split; [done|]. simpl. simpl in Hys.
    split_and!; first [done|lia|tauto|by rewrite ?last_loc_cons|solve_nodup].
Qed.

Lemma single_remove_index_mid fuel s xs pc c ys i :
  slist s (xs ++ pc :: c :: ys) →
  (if bool_decide (i = -1)%Z
   then Z.of_nat (length (xs ++ pc :: c :: ys)) - 1 else i)%Z
  = Z.of_nat (S (length xs)) →
  length (xs ++ pc :: c :: ys) < fuel →
  ∃ s', remove fuel (ByIndex (Int i)) s = Ok tt s'
        ∧ slist s' (xs ++ pc :: ys).
Proof.
  intros Hd Hi Hf.
  assert (__getitem__ fuel (Int (Z.of_nat (S (length xs)) - 1)) s
          = Ok pc.1 s) as Hget.
  { rewrite (single_getitem_spec fuel s _ _ Hd Hf).
    rewrite cell_at_nonneg, decide_True by lia.
    replace (Z.to_nat (Z.of_nat (S (length xs)) - 1)) with (length xs) by lia.
    by rewrite list_lookup_middle. }
  destruct s as [[len hd tl] h]. unfold slist in Hd. simpl in Hd.
  destruct Hd as (Hnd & -> & -> & -> & Hs).
  pose proof (sseg_lookup _ _ _ _ _ Hs) as Hp. simpl in Hp.
  rewrite (cons_middle pc), app_assoc in Hs.
  pose proof (sseg_lookup _ _ _ _ _ Hs) as Hc.
  rewrite <- app_assoc in Hs. simpl in Hs.
  unfold remove, _remove_by_index, bind at 1 2.
  rewrite len_nonneg by (simpl; lia). cbv zeta. cbn [_length self].
  rewrite Hi.
  rewrite bool_decide_false by lia.
  rewrite bool_decide_true by (rewrite length_app; simpl; lia).
  unfold bind. rewrite Hget.
  unfold bind, get_next, getattr, get_length, gets, set_next_node, setattr.
  simpl. rewrite Hp. simpl. rewrite Hc. simpl. rewrite Hp. simpl.
  rewrite ?last_loc_app, ?last_loc_cons, ?first_loc_app, ?length_app. simpl.
  nodup_facts Hnd. nodup_facts Hnd.
  apply sseg_app in Hs as [Hxs (_ & _ & Hys)].
  destruct ys as [|n ys].
  - rewrite bool_decide_true by (simpl; lia). simpl.
    eexists; split; [done|]. unfold slist. simpl.
    rewrite ?length_app, ?last_loc_app, ?last_loc_cons, ?first_loc_app. simpl.
    split_and!; [solve_nodup|done|done|lia|].
    rewrite sseg_app. simpl. rewrite lookup_insert_eq.
    rewrite !sseg_frame by set_solver. done.
  - rewrite bool_decide_false by (simpl; lia). simpl.
    eexists; split; [done|]. unfold slist. simpl.
    rewrite ?length_app, ?last_loc_app, ?last_loc_cons, ?first_loc_app. simpl.
    nodup_facts Hnd. simpl in Hys.
    split_and!; [solve_nodup|done|done|lia|].
    rewrite sseg_app. simpl. rewrite lookup_insert_eq.
    rewrite lookup_insert_ne by set_solver.
    rewrite !sseg_frame by set_solver. tauto.
Qed.

Lemma position_index n i k :
  position n i = Some k →
  (if bool_decide (i = -1)%Z then Z.of_nat n - 1 else i)%Z = Z.of_nat k.
Proof.
  unfold position. case_bool_decide; repeat case_decide; intros [= <-]; lia.
Qed.

Lemma single_remove_index_spec fuel s ls i k :
  slist s ls → position (length ls) i = Some k → length ls < fuel →
  ∃ s', remove fuel (ByIndex (Int i)) s = Ok tt s' ∧ slist s' (delete k ls).
Proof.
  intros Hd Hk Hf. pose proof (position_lt _ _ _ Hk) as Hlt.
  pose proof (position_index _ _ _ Hk) as Hi.
  destruct k as [|k].
  - destruct ls as [|c ys]; [simpl in Hlt; lia|].
    by apply (single_remove_index_head fuel s c ys i).
  - destruct (lookup_lt_is_Some_2 ls k) as [pc Hpc]; [lia|].
    destruct (lookup_lt_is_Some_2 ls (S k) Hlt) as [c Hc].
    assert (∃ xs ys, ls = xs ++ pc :: c :: ys ∧ length xs = k)
      as (xs & ys & -> & <-).
    { exists (take k ls), (drop (S (S k)) ls). split.
      - rewrite <- (drop_S _ _ _ Hc). by apply cell_split.
      - rewrite length_take. lia. }
    destruct (single_remove_index_mid fuel s xs pc c ys i Hd Hi Hf)
      as (s' & E & Hd').
    exists s'. split; [done|].
    rewrite (cons_middle pc), app_assoc.
    replace (S (length xs)) with (length (xs ++ [pc]))
      by (rewrite length_app; simpl; lia).
    rewrite delete_middle. by rewrite <- app_assoc.
Qed.

(** The indexes that designate no position: [IndexError], except index [0]
    on the empty list, where the read of [self.head.next_node] raises
    [AttributeError]. *)
Lemma single_remove_index_error fuel s ls i :
  slist s ls → position (length ls) i = None →
  remove fuel (ByIndex (Int i)) s
  = Raise (if decide (i = 0)%Z then AttributeError else IndexError) s.
Proof.
  destruct s as [[len hd tl] h]. unfold slist. simpl.
  intros (Hnd & -> & -> & -> & Hs) Hk.
  unfold remove, _remove_by_index, bind at 1 2.
  rewrite len_nonneg by (simpl; lia). cbv zeta. cbn [_length self].
  unfold position in Hk.
  destruct (decide (i = -1)%Z) as [->|Hi1].
  - case_decide as Hn; [|done]. destruct ls; [|done]. simpl.
    done.
  - case_decide as Hr; [done|].
    rewrite (bool_decide_false (i = -1)%Z) by done.
    destruct (decide (i = 0)%Z) as [->|Hi0].
    + destruct ls; [|simpl in Hr; lia]. simpl. done.
    + rewrite bool_decide_false by done.
      case_bool_decide as Hle.
      * assert (i < -1)%Z as Hneg by lia.
        unfold bind. rewrite single_getitem_unfold. simpl.
        rewrite (bool_decide_false (i - 1 = -1)%Z) by lia.
        rewrite (bool_decide_true (i - 1 < -1)%Z) by lia.
        by destruct (last_loc ls None).
      * done.
Qed.

(** *** Insertion into a well-formed list *)

(** After any node but the tail the list stays well-formed; after the tail
    the chain is right but [tail] is left on the old tail. *)
Lemma single_insert_after_node_spec fuel s xs c ys v :
  slist s (xs ++ c :: ys) →
  ∃ s', insert_after fuel (ByNode c.1) v s = Ok tt s'
        ∧ schain s' (xs ++ c :: (fresh (dom (heap s)), v) :: ys)
        ∧ _length (self s') = Z.of_nat (S (length (xs ++ c :: ys)))
        ∧ tail (self s') = tail (self s)
        ∧ (ys ≠ [] → slist s' (xs ++ c :: (fresh (dom (heap s)), v) :: ys)).
Proof.
  intros (Hnd & Hh & Ht & Hl & Hs).
  destruct (single_insert_after_node_chain fuel s xs c ys v)
    as (s' & E & Hc & Ht' & Hl'); [by split_and!|].
  exists s'. split_and!; try done.
  - rewrite Hl', Hl. lia.
  - intros Hne. destruct Hc as (Hnd' & Hh' & Hs').
    split_and!; try done.
    + rewrite Ht', Ht, !last_loc_app, !last_loc_cons.
      destruct ys as [|n ys]; [done|]. by rewrite !last_loc_cons.
    + rewrite Hl', Hl, !length_app. simpl. lia.
Qed.

Lemma single_insert_after_index_spec fuel s ls i k v :
  slist s ls → position (length ls) i = Some k → length ls < fuel →
  ∃ s', insert_after fuel (ByIndex (Int i)) v s = Ok tt s'
        ∧ schain s' (take (S k) ls ++ (fresh (dom (heap s)), v)
                       :: drop (S k) ls)
        ∧ _length (self s') = Z.of_nat (S (length ls))
        ∧ tail (self s') = tail (self s)
        ∧ (S k < length ls →
           slist s' (take (S k) ls ++ (fresh (dom (heap s)), v)
                       :: drop (S k) ls)).
Proof.
  intros Hd Hk Hf. pose proof (position_lt _ _ _ Hk) as Hlt.
  destruct (lookup_lt_is_Some_2 ls k Hlt) as [c Hc].
  assert (∃ xs ys, ls = xs ++ c :: ys ∧ length xs = k) as (xs & ys & -> & <-).
  { exists (take k ls), (drop (S k) ls). split; [by apply cell_split|].
    rewrite length_take. lia. }
  rewrite (single_insert_after_resolve fuel (Int i) v s c.1); last first.
  { rewrite (single_getitem_spec fuel s _ i Hd Hf),
      (cell_at_position _ _ _ Hk). by rewrite list_lookup_middle. }
  destruct (single_insert_after_node_spec fuel s xs c ys v Hd)
    as (s' & E & Hch & Hl & Ht & Hsl).
  assert (take (S (length xs)) (xs ++ c :: ys) = xs ++ [c]) as ->.
  { rewrite (cons_middle c), app_assoc.
    replace (S (length xs)) with (length (xs ++ [c]))
      by (rewrite length_app; simpl; lia).
    by rewrite take_app_length. }
  assert (drop (S (length xs)) (xs ++ c :: ys) = ys) as ->.
  { rewrite (cons_middle c), app_assoc.
    replace (S (length xs)) with (length (xs ++ [c]))
      by (rewrite length_app; simpl; lia).
    by rewrite drop_app_length. }
  rewrite <- app_assoc. simpl.
  exists s'. split_and!; try done.
  intros Hlen. apply Hsl. intros ->. rewrite length_app in Hlen. simpl in Hlen.
  lia.
Qed.

(** *** Neighbours and textual representation *)

Lemma single_get_next_spec s ls k c :
  slist s ls → ls !! k = Some c →
  get_next (Some c.1) s = Ok (fst <$> ls !! S k) s.
Proof.
  intros (_ & _ & _ & _ & Hs) Hc.
  rewrite (cell_split _ _ _ Hc) in Hs.
  pose proof (sseg_lookup _ _ _ _ _ Hs) as Hn.
  unfold get_next, getattr. rewrite Hn. simpl. by rewrite first_loc_drop.
Qed.

Lemma single_map_repr_spec (repr : V → string) s ls q :
  sseg (heap s) ls q →
  map_repr repr ls.*1 s
  = Ok ((λ v, "<Node(" +:+ repr v +:+ ")>") <$> ls.*2) s.
Proof.
  induction ls as [|c ls IH]; intros Hs; [done|].
  destruct Hs as [Hc Hs]. rewrite !fmap_cons. cbn [map_repr].
  unfold bind, Node__repr__, bind, getattr. rewrite Hc. simpl.
  by rewrite IH.
Qed.

Lemma single_repr_spec (repr : V → string) fuel s ls :
  slist s ls → length ls < fuel →
  __repr__ repr fuel s
  = Ok ("<SingleLinkedNaive("
        +:+ String.concat ", "
              ((λ v, "<Node(" +:+ repr v +:+ ")>") <$> ls.*2)
        +:+ ")>") s.
Proof.
  intros (_ & Hh & _ & _ & Hs) Hf.
  unfold __repr__, __iter__, bind, get_head, gets.
  rewrite Hh, (iter_from_sseg _ _ _ Hs Hf).
  by rewrite (single_map_repr_spec repr s ls None Hs).
Qed.

Lemma single_cell_value s ls k c :
  slist s ls → ls !! k = Some c →
  getattr value (Some c.1) s = Ok c.2 s.
Proof.
  intros (_ & _ & _ & _ & Hs) Hc.
  rewrite (cell_split _ _ _ Hc) in Hs.
  pose proof (sseg_lookup _ _ _ _ _ Hs) as Hn.
  unfold getattr. by rewrite Hn.
Qed.

Lemma single_getitem_at fuel s ls i k :
  slist s ls → position (length ls) i = Some k → length ls < fuel →
  ∃ c, ls !! k = Some c
       ∧ __getitem__ fuel (Int i) s = Ok c.1 s
       ∧ getattr value (Some c.1) s = Ok c.2 s.
Proof.
  intros Hd Hk Hf.
  destruct (lookup_lt_is_Some_2 ls k) as [c Hc]; [by eapply position_lt|].
  exists c. split_and!; [done|..].
  - rewrite (single_getitem_spec _ _ ls) by done.
    by rewrite (cell_at_position _ _ _ Hk), Hc.
  - by eapply single_cell_value.
Qed.

Lemma single_insert_after_at fuel s ls k c t v :
  slist s ls → designates ls k c t → length ls < fuel →
  ∃ s', insert_after fuel t v s = Ok tt s'
        ∧ schain s' (take (S k) ls ++ (fresh (dom (heap s)), v)
                       :: drop (S k) ls)
        ∧ _length (self s') = Z.of_nat (S (length ls))
        ∧ tail (self s') = tail (self s)
        ∧ (S k < length ls →
           slist s' (take (S k) ls ++ (fresh (dom (heap s)), v)
                       :: drop (S k) ls)).
Proof.
  intros Hd [Hc [->|(i & -> & Hk)]] Hf;
    [|by apply single_insert_after_index_spec].
  destruct (cell_decompose _ _ _ Hc) as (xs & ys & -> & <-).
  destruct (single_insert_after_node_spec fuel s xs c ys v Hd)
    as (s' & E & Hch & Hl & Ht & Hsl).
  rewrite take_S_middle, drop_S_middle, <- app_assoc. simpl.
  exists s'. split_and!; try done.
  intros Hlen. apply Hsl. intros ->. rewrite length_app in Hlen. simpl in Hlen.
  lia.
Qed.

Lemma single_remove_at fuel s ls k c t :
  slist s ls → designates ls k c t → length ls < fuel →
  ∃ s', remove fuel t s = Ok tt s' ∧ slist s' (delete k ls).
Proof.
  intros Hd [Hc [->|(i & -> & Hk)]] Hf;
    [|by apply single_remove_index_spec].
  destruct (cell_decompose _ _ _ Hc) as (xs & ys & -> & <-).
  rewrite delete_middle. apply single_remove_node_spec; [done|].
  rewrite length_app in Hf. lia.
Qed.

Lemma single_iter_spec fuel s ls :
  slist s ls → length ls < fuel → __iter__ fuel s = Ok ls.*1 s.
Proof.
  intros (_ & Hh & _ & _ & Hs) Hf.
  unfold __iter__, bind, get_head, gets. rewrite Hh.
  by apply iter_from_sseg.
Qed.

End facts.
End SingleFacts.

(** * Properties of the doubly-linked list *)
Module DoubleFacts.
Import Double.
Section facts.
Context {V : Type} `{EqDecision V}.
Implicit Types (h : gmap loc (Node (V:=V))) (ls xs ys : list (loc * V)).
Implicit Types (s : state (V:=V)) (l : loc) (o p q : option loc).

Lemma dseg_app h p xs ys q :
  dseg h p (xs ++ ys) q ↔
  dseg h p xs (first_loc ys q) ∧ dseg h (last_loc xs p) ys q.
Proof.
  revert p. induction xs as [|c xs IH]; intros p; simpl.
  - unfold last_loc; simpl. tauto.
  - rewrite IH, first_loc_app, last_loc_cons. tauto.
Qed.

Lemma dseg_frame h l n p ls q :
  l ∉ ls.*1 → dseg (<[l:=n]> h) p ls q ↔ dseg h p ls q.
Proof.
  revert p. induction ls as [|c ls IH]; intros p Hl; simpl; [done|].
  rewrite fmap_cons, not_elem_of_cons in Hl. destruct Hl as [Hne Hl].
  rewrite lookup_insert_ne by done. by rewrite IH.
Qed.

Lemma dseg_is_Some h p ls q l :
  dseg h p ls q → l ∈ ls.*1 → is_Some (h !! l).
Proof.
  revert p. induction ls as [|c ls IH]; intros p; simpl.
  - by intros _ ?%elem_of_nil.
  - intros [Hc Hr] [->|Hin]%elem_of_cons; eauto.
Qed.

Lemma dseg_fresh h p ls q : dseg h p ls q → fresh (dom h) ∉ ls.*1.
Proof.
  intros Hs Hin. apply (dseg_is_Some _ _ _ _ _ Hs) in Hin.
  apply elem_of_dom in Hin. by apply is_fresh in Hin.
Qed.

Lemma dseg_lookup h p xs c ys q :
  dseg h p (xs ++ c :: ys) q →
  h !! c.1 = Some (mkNode c.2 (first_loc ys q) (last_loc xs p)).
Proof. rewrite dseg_app. simpl. tauto. Qed.

Lemma enumerate_find_dseg fuel s ls p i index :
  dseg (heap s) p ls None → length ls < fuel →
  enumerate_find fuel (first_loc ls None) i index s =
  Ok (if decide (i ≤ index)%Z then fst <$> ls !! Z.to_nat (index - i)
      else None) s.
Proof.
  revert fuel p i. induction ls as [|c ls IH]; intros fuel p i Hs Hf.
  - destruct fuel; [simpl in Hf; lia|]. simpl. unfold ret.
    by case_decide.
  - destruct fuel as [|fuel]; [simpl in Hf; lia|].
    simpl in Hs. destruct Hs as [Hc Hs]. simpl.
    case_bool_decide as Hi.
    + subst. rewrite decide_True by lia. by rewrite Z.sub_diag.
    + unfold bind, getattr. rewrite Hc. simpl.
      rewrite (IH fuel (Some c.1)) by (done || simpl in Hf; lia).
      f_equal. repeat case_decide; try lia; [|done].
      replace (Z.to_nat (index - i)) with (S (Z.to_nat (index - (i + 1))))
        by lia.
      done.
Qed.

Lemma double_append_tail_spec s ls v :
  dlist s ls →
  ∃ s', append_tail v s = Ok tt s'
        ∧ dlist s' (ls ++ [(fresh (dom (heap s)), v)]).
Proof.
  destruct s as [[len hd tl] h]. unfold dlist. simpl.
  intros (Hnd & -> & -> & -> & Hs).
  pose proof (dseg_fresh _ _ _ _ Hs) as Hfr.
  set (new := fresh (dom h)) in *.
  unfold append_tail, bind, new_Node, get_head, gets. simpl. fold new.
  destruct ls as [|c ls _] using rev_ind.
  - simpl. eexists; split; [done|]. simpl.
    rewrite lookup_insert_eq. repeat split; try done. apply NoDup_singleton.
  - rewrite first_loc_app. simpl.
    destruct (first_loc_Some ls c.1) as [hd Hhd]. rewrite Hhd. simpl.
    pose proof (dseg_lookup _ _ _ _ _ _ Hs) as Hc. simpl in Hc.
    rewrite last_loc_snoc. simpl.
    nodup_facts Hfr.
    rewrite lookup_insert_ne by set_solver. rewrite Hc. simpl.
    rewrite lookup_insert_ne, lookup_insert_eq by set_solver. simpl.
    eexists; split; [done|]. simpl.
    rewrite last_loc_snoc, !first_loc_app, !length_app. simpl.
    split_and!; [|done|done|lia|].
    + rewrite fmap_app. apply NoDup_app. split_and!; [done| |apply NoDup_singleton].
      simpl. set_solver.
    + apply dseg_app in Hs as [Hs _]. simpl in Hs.
      rewrite !dseg_app. simpl. rewrite last_loc_snoc.
      rewrite lookup_insert_ne, !lookup_insert_eq by set_solver.
      nodup_facts Hnd.
      rewrite !dseg_frame by set_solver. done.
Qed.

Lemma append_head_spec s ls v :
  dlist s ls →
  ∃ s', append_head v s = Ok tt s'
        ∧ dlist s' ((fresh (dom (heap s)), v) :: ls).
Proof.
  destruct s as [[len hd tl] h]. unfold dlist. simpl.
  intros (Hnd & -> & -> & -> & Hs).
  pose proof (dseg_fresh _ _ _ _ Hs) as Hfr.
  set (new := fresh (dom h)) in *.
  unfold append_head, bind, new_Node, get_head, gets. simpl. fold new.
  destruct ls as [|c ls].
  - simpl. eexists; split; [done|]. simpl.
    rewrite lookup_insert_eq. repeat split; try done. apply NoDup_singleton.
  - simpl. simpl in Hs. destruct Hs as [Hc Hs].
    nodup_facts Hfr. nodup_facts Hnd.
    rewrite lookup_insert_ne by set_solver. rewrite Hc. simpl.
    rewrite lookup_insert_ne, lookup_insert_eq by set_solver. simpl.
    eexists; split; [done|]. simpl.
    rewrite !last_loc_cons. simpl.
    split_and!; [|done|done|lia| | |].
    + apply NoDup_cons. split; [set_solver|]. by apply NoDup_cons.
    + by rewrite lookup_insert_eq.
    + by rewrite lookup_insert_ne, lookup_insert_eq by set_solver.
    + rewrite !dseg_frame by set_solver. done.
Qed.

Lemma insert_after_node_spec fuel s xs c ys v :
  dlist s (xs ++ c :: ys) →
  ∃ s', insert_after fuel (ByNode c.1) v s = Ok tt s'
        ∧ dlist s' (xs ++ c :: (fresh (dom (heap s)), v) :: ys).
Proof.
  destruct s as [[len hd tl] h]. unfold dlist. simpl.
  intros (Hnd & -> & -> & -> & Hs).
  pose proof (dseg_fresh _ _ _ _ Hs) as Hfr.
  pose proof (dseg_lookup _ _ _ _ _ _ Hs) as Hc.
  set (new := fresh (dom h)) in *.
  nodup_facts Hfr. nodup_facts Hnd.
  unfold insert_after, bind, new_Node, get_tail, gets, getattr. simpl.
  rewrite Hc. simpl. fold new.
  rewrite !last_loc_app, !last_loc_cons, !first_loc_app, !length_app. simpl.
  apply dseg_app in Hs as [Hxs Hys]. simpl in Hys. destruct Hys as [_ Hys].
  destruct ys as [|n ys].
  - unfold last_loc at 1. simpl. rewrite bool_decide_true by done. simpl.
    rewrite lookup_insert_ne by set_solver. rewrite Hc. simpl.
    eexists; split; [done|]. simpl.
    split_and!; [|done|done|lia|].
    + solve_nodup.
    + rewrite dseg_app. simpl.
      rewrite lookup_insert_eq, lookup_insert_ne, lookup_insert_eq by set_solver.
      rewrite !dseg_frame by set_solver. done.
  - simpl in Hys. destruct Hys as [Hn Hys]. nodup_facts Hnd. nodup_facts Hfr.
    rewrite bool_decide_false; last first.
    { intros Heq. symmetry in Heq. apply last_loc_elem in Heq as [?|[? _]]; [|done].
      set_solver. }
    simpl. rewrite lookup_insert_ne by set_solver. rewrite Hc. simpl.
    rewrite lookup_insert_ne by set_solver. rewrite Hn. simpl.
    rewrite lookup_insert_ne, lookup_insert_ne by set_solver. rewrite Hc. simpl.
    eexists; split; [done|]. simpl.
    rewrite !last_loc_cons.
    split_and!; [|done|done|lia|].
    + solve_nodup.
    + rewrite dseg_app. simpl.
      rewrite lookup_insert_eq.
      rewrite lookup_insert_ne, lookup_insert_ne, lookup_insert_eq by set_solver.
      rewrite lookup_insert_ne, lookup_insert_eq by set_solver.
      rewrite !dseg_frame by set_solver. done.
Qed.

Lemma insert_before_node_spec fuel s xs c ys v :
  dlist s (xs ++ c :: ys) →
  ∃ s', insert_before fuel (ByNode c.1) v s = Ok tt s'
        ∧ dlist s' (xs ++ (fresh (dom (heap s)), v) :: c :: ys).
Proof.
  destruct s as [[len hd tl] h]. unfold dlist. simpl.
  intros (Hnd & -> & -> & -> & Hs).
  pose proof (dseg_fresh _ _ _ _ Hs) as Hfr.
  pose proof (dseg_lookup _ _ _ _ _ _ Hs) as Hc.
  set (new := fresh (dom h)) in *.
  unfold insert_before, bind, new_Node, get_head, gets, getattr. simpl.
  rewrite Hc. simpl. fold new.
  rewrite !last_loc_app, !last_loc_cons, !first_loc_app, !length_app. simpl.
  destruct xs as [|p xs _] using rev_ind.
  - simpl in *. destruct Hs as [_ Hys]. nodup_facts Hnd. nodup_facts Hfr.
    rewrite bool_decide_true by done. simpl.
    rewrite lookup_insert_ne by set_solver. rewrite Hc. simpl.
    eexists; split; [done|]. simpl.
    split_and!; [|done|done|lia| | |].
    + solve_nodup.
    + by rewrite lookup_insert_ne, lookup_insert_eq by set_solver.
    + by rewrite lookup_insert_eq.
    + rewrite !dseg_frame by set_solver. done.
  - rewrite <- app_assoc in Hs, Hnd, Hfr. simpl in Hs, Hnd, Hfr.
    pose proof (dseg_lookup _ _ _ _ _ _ Hs) as Hp. simpl in Hp.
    nodup_facts Hnd. nodup_facts Hfr.
    rewrite last_loc_snoc in *.
    rewrite bool_decide_false; last first.
    { intros Heq. symmetry in Heq. rewrite first_loc_app in Heq. simpl in Heq.
      apply first_loc_elem in Heq as [?|[_ ?]]; set_solver. }
    simpl. rewrite lookup_insert_ne by set_solver. rewrite Hc. simpl.
    rewrite lookup_insert_ne by set_solver. rewrite Hp. simpl.
    rewrite lookup_insert_ne, lookup_insert_ne by set_solver. rewrite Hc. simpl.
    eexists; split; [done|]. simpl.
    rewrite !length_app. simpl.
    split_and!; [|by rewrite !first_loc_app|done|lia|].
    + rewrite <- app_assoc. simpl. solve_nodup.
    + rewrite <- app_assoc. simpl.
      apply dseg_app in Hs as [Hxs Hys]. simpl in Hys.
      rewrite dseg_app. simpl.
      rewrite lookup_insert_eq.
      rewrite lookup_insert_ne, lookup_insert_eq by set_solver.
      rewrite lookup_insert_ne, lookup_insert_ne, lookup_insert_eq by set_solver.
      rewrite !dseg_frame by set_solver. tauto.
Qed.

Lemma remove_node_spec fuel s xs c ys :
  dlist s (xs ++ c :: ys) →
  ∃ s', remove fuel (ByNode c.1) s = Ok tt s' ∧ dlist s' (xs ++ ys).
Proof.
  destruct s as [[len hd tl] h]. unfold dlist. simpl.
  intros (Hnd & -> & -> & -> & Hs).
  pose proof (dseg_lookup _ _ _ _ _ _ Hs) as Hc.
  unfold remove, bind, get_head, get_tail, gets, getattr. simpl.
  rewrite !last_loc_app, !last_loc_cons, !first_loc_app, !length_app. simpl.
  destruct xs as [|p xs _] using rev_ind.
  - simpl in *. destruct Hs as [_ Hys]. nodup_facts Hnd.
    rewrite bool_decide_false by (intros Hne; by apply Hne). run.
    destruct ys as [|n ys].
    + unfold last_loc at 1. simpl.
      rewrite bool_decide_false by (intros Hne; by apply Hne). run.
      eexists; split; [done|]. simpl.
      split_and!; try done; try lia; apply NoDup_nil_2.
    + simpl in Hys. destruct Hys as [Hn Hys]. nodup_facts Hnd.
      rewrite bool_decide_true; last first.
      { intros Heq. symmetry in Heq. rewrite last_loc_cons in Heq.
        apply last_loc_elem in Heq as [?|[_ [= ?]]]; set_solver. }
      run. eexists; split; [done|]. simpl.
      split_and!; [solve_nodup|done| |lia| |].
      * by rewrite !last_loc_cons.
      * by rewrite lookup_insert_eq.
      * rewrite !dseg_frame by set_solver. done.
  - rewrite <- app_assoc in Hs, Hnd. simpl in Hs, Hnd.
    pose proof (dseg_lookup _ _ _ _ _ _ Hs) as Hp. simpl in Hp.
    nodup_facts Hnd. rewrite last_loc_snoc in *.
    rewrite bool_decide_true; last first.
    { intros Heq. symmetry in Heq. rewrite first_loc_app in Heq. simpl in Heq.
      apply first_loc_elem in Heq as [?|[_ ?]]; set_solver. }
    run.
    apply dseg_app in Hs as [Hxs Hys]. simpl in Hys.
    destruct Hys as (_ & _ & Hys).
    destruct ys as [|n ys].
    + unfold last_loc at 1. simpl.
      rewrite bool_decide_false by (intros Hne; by apply Hne). run.
      eexists; split; [done|]. simpl. rewrite app_nil_r, !length_app. simpl.
      split_and!; [solve_nodup|by rewrite !first_loc_app|done|lia|].
      rewrite dseg_app. simpl. rewrite lookup_insert_eq.
        rewrite !dseg_frame by set_solver. done.
    + simpl in Hys. destruct Hys as [Hn Hys]. nodup_facts Hnd.
      rewrite bool_decide_true; last first.
      { intros Heq. symmetry in Heq. rewrite last_loc_cons in Heq.
        apply last_loc_elem in Heq as [?|[_ [= ?]]]; set_solver. }
      run. eexists; split; [done|]. simpl. rewrite !length_app. simpl.
      rewrite <- app_assoc. simpl.
      split_and!; [solve_nodup|by rewrite !first_loc_app| |lia|].
      * by rewrite ?last_loc_app, ?last_loc_cons.
      * rewrite dseg_app. simpl.
        rewrite lookup_insert_ne, !lookup_insert_eq by set_solver.
        rewrite !dseg_frame by set_solver. done.
Qed.

Lemma double_set_value_spec s xs c ys v :
  dlist s (xs ++ c :: ys) →
  ∃ s', set_value v (Some c.1) s = Ok tt s'
        ∧ self s' = self s
        ∧ heap s' = <[c.1 := mkNode v (first_loc ys None) (last_loc xs None)]>
                      (heap s)
        ∧ dlist s' (xs ++ (c.1, v) :: ys).
Proof.
  destruct s as [[len hd tl] h]. unfold dlist. simpl.
  intros (Hnd & -> & -> & -> & Hs).
  pose proof (dseg_lookup _ _ _ _ _ _ Hs) as Hc.
  unfold set_value, setattr. simpl. rewrite Hc. simpl.
  eexists; split; [done|]. simpl. split; [done|]. split; [done|].
  rewrite !last_loc_app, !last_loc_cons, !first_loc_app, !length_app. simpl.
  split_and!; try done.
  - by rewrite !fmap_app in *.
  - nodup_facts Hnd. apply dseg_app in Hs as [Hxs Hys]. simpl in Hys.
    rewrite dseg_app. simpl. rewrite lookup_insert_eq.
    rewrite !dseg_frame by set_solver. tauto.
Qed.

(** Inserting after the tail makes the new node the last one and the
    tail. *)
Lemma insert_after_tail_spec fuel s xs c v :
  dlist s (xs ++ [c]) →
  ∃ s', insert_after fuel (ByNode c.1) v s = Ok tt s'
        ∧ dlist s' (xs ++ [c; (fresh (dom (heap s)), v)])
        ∧ tail (self s') = Some (fresh (dom (heap s))).
Proof.
  intros Hd.
  destruct (insert_after_node_spec fuel s xs c [] v Hd) as (s' & E & Hd').
  exists s'. split_and!; [done|done|].
  destruct Hd' as (_ & _ & -> & _).
  by rewrite last_loc_app, !last_loc_cons.
Qed.

(** *** Traversals of a well-formed list *)

Lemma enumerate_find_sound fuel s ls p i index :
  dseg (heap s) p ls None →
  enumerate_find fuel (first_loc ls None) i index s = Undef
  ∨ enumerate_find fuel (first_loc ls None) i index s =
    Ok (if decide (i ≤ index)%Z then fst <$> ls !! Z.to_nat (index - i)
        else None) s.
Proof.
  destruct (decide (length ls < fuel)) as [Hf|Hf].
  { right. by eapply enumerate_find_dseg. }
  revert ls p i Hf. induction fuel as [|fuel IH]; intros ls p i Hf Hs.
  { by left. }
  destruct ls as [|c ls]; simpl in *; [lia|]. destruct Hs as [Hc Hs].
  case_bool_decide as Hi.
  - right. subst. rewrite decide_True by lia. by rewrite Z.sub_diag.
  - unfold bind, getattr. rewrite Hc. simpl.
    destruct (IH ls (Some c.1) (i + 1)%Z) as [->| ->]; [lia|done|by left|].
    right. f_equal. repeat case_decide; try lia; [|done].
    replace (Z.to_nat (index - i)) with (S (Z.to_nat (index - (i + 1))))
      by lia.
    done.
Qed.

(** The lookup of [__getitem__] and [__setitem__] once the tail shortcut and
    the negative indices are out of the way. *)
Lemma double_getitem_unfold fuel s i :
  __getitem__ fuel (Int i) s =
  match tail (self s), bool_decide (i = -1)%Z with
  | Some tl, true => Ok tl s
  | _, _ =>
      if bool_decide (i < -1)%Z then Raise IndexError s
      else match enumerate_find fuel (head (self s)) 0 i s with
           | Ok (Some node) s' => Ok node s'
           | Ok None s' => Raise IndexError s'
           | Raise e s' => Raise e s'
           | Undef => Undef
           end
  end.
Proof.
  unfold __getitem__, bind, get_tail, get_head, gets. simpl.
  destruct (tail (self s)), (bool_decide (i = -1)%Z); try done;
    case_bool_decide; try done;
    destruct (enumerate_find fuel (head (self s)) 0 i s) as [[?|] ?|?|]; done.
Qed.

Lemma getitem_sound fuel s ls i :
  dlist s ls →
  __getitem__ fuel (Int i) s = Undef
  ∨ __getitem__ fuel (Int i) s =
    match cell_at ls i with
    | Some c => Ok c.1 s
    | None => Raise IndexError s
    end.
Proof.
  intros (Hnd & Hh & Ht & Hl & Hs). rewrite double_getitem_unfold, Hh, Ht.
  pose proof (enumerate_find_sound fuel s ls None 0 i Hs) as E.
  rewrite Z.sub_0_r in E.
  destruct (decide (i = -1)%Z) as [->|Hi].
  - rewrite cell_at_last, bool_decide_true by done. unfold last_loc.
    destruct (last ls) as [c|] eqn:El; [by right|].
    apply last_None in El as ->. simpl in *.
    destruct E as [->| ->]; [by left|by right].
  - rewrite cell_at_nonneg, (bool_decide_false (i = -1)%Z) by done.
    assert (∀ X : outcome (state (V:=V)) loc,
      match last_loc ls None with Some _ | _ => X end = X) as ->.
    { by destruct (last_loc ls None). }
    case_bool_decide as Hneg.
    { right. by rewrite decide_False by lia. }
    rewrite decide_True in * by lia.
    destruct E as [->| ->]; [by left|right].
    rewrite decide_True by lia. by destruct (ls !! Z.to_nat i).
Qed.

Lemma double_getitem_spec fuel s ls i :
  dlist s ls → length ls < fuel →
  __getitem__ fuel (Int i) s =
    match cell_at ls i with
    | Some c => Ok c.1 s
    | None => Raise IndexError s
    end.
Proof.
  intros Hd Hf. destruct (getitem_sound fuel s ls i Hd) as [E|E]; [|done].
  exfalso. revert E. destruct Hd as (Hnd & Hh & Ht & Hl & Hs).
  rewrite double_getitem_unfold, Hh.
  rewrite (enumerate_find_dseg fuel s ls None 0 i Hs Hf).
  by repeat case_match.
Qed.

Lemma in_chain_elem h ls p l :
  dseg h p ls None → in_chain h (first_loc ls None) l → l ∈ ls.*1.
Proof.
  intros Hs Hin. remember (first_loc ls None) as o eqn:Ho.
  revert ls p Hs Ho.
  induction Hin as [l|a n l Ha Hin IH]; intros [|c ls] p Hs Ho;
    simpl in *; try done; injection Ho as ->.
  - set_solver.
  - destruct Hs as [Hc Hs]. rewrite Hc in Ha. injection Ha as <-. simpl in *.
    apply elem_of_cons. right. by eapply IH.
Qed.

Lemma elem_in_chain h ls p l :
  dseg h p ls None → l ∈ ls.*1 → in_chain h (first_loc ls None) l.
Proof.
  revert p. induction ls as [|c ls IH]; intros p Hs Hin; simpl in *.
  - by apply elem_of_nil in Hin.
  - destruct Hs as [Hc Hs].
    destruct (decide (l = c.1)) as [->|Hne]; [constructor|].
    apply elem_of_cons in Hin as [?|Hin]; [done|].
    eapply in_chain_next; [done|]. simpl. by eapply IH.
Qed.

(** [resolve] on a well-formed list: the node of a cell of the list, or
    [IndexError] with the state untouched. *)
Lemma resolve_sound fuel s ls t :
  dlist s ls → valid_target s t →
  resolve fuel t s = Undef
  ∨ (resolve fuel t s = Raise IndexError s ∧ ∃ i, t = ByIndex i)
  ∨ (∃ xs c ys, ls = xs ++ c :: ys ∧ resolve fuel t s = Ok c.1 s).
Proof.
  intros Hd Hv. destruct t as [l|[i|]].
  - right; right. destruct Hd as (_ & Hh & _ & _ & Hs). simpl in *.
    rewrite Hh in Hv.
    apply (in_chain_elem _ _ _ _ Hs) in Hv.
    apply list_elem_of_fmap in Hv as (c & -> & Hc).
    apply list_elem_of_split in Hc as (xs & ys & ->). by exists xs, c, ys.
  - change (resolve fuel (ByIndex (Int i)) s) with (__getitem__ fuel (Int i) s).
    destruct (getitem_sound fuel s ls i Hd) as [->| ->]; [by left|right].
    destruct (cell_at ls i) as [c|] eqn:Ec; [right|left; eauto].
    apply cell_at_lookup in Ec as (k & _ & Hk).
    exists (take k ls), c, (drop (S k) ls). split; [|done].
    by apply cell_split.
  - right; left. eauto.
Qed.

Lemma insert_after_resolve fuel t v s l :
  resolve fuel t s = Ok l s →
  insert_after fuel t v s = insert_after fuel (ByNode l) v s.
Proof. intros E. unfold insert_after, bind. simpl. by rewrite E. Qed.

Lemma insert_before_resolve fuel t v s l :
  resolve fuel t s = Ok l s →
  insert_before fuel t v s = insert_before fuel (ByNode l) v s.
Proof. intros E. unfold insert_before, bind. simpl. by rewrite E. Qed.

Lemma remove_resolve fuel t s l :
  resolve fuel t s = Ok l s → remove fuel t s = remove fuel (ByNode l) s.
Proof. intros E. unfold remove, bind. simpl. by rewrite E. Qed.

Lemma double_setitem_getitem fuel i v s :
  __setitem__ fuel i v s =
  (node <- __getitem__ fuel i;; set_value v (Some node)) s.
Proof.
  destruct i as [i|]; [|done].
  unfold __setitem__, __getitem__, bind, get_tail, get_head, gets. simpl.
  destruct (tail (self s)), (bool_decide (i = -1)%Z); try done;
    case_bool_decide; try done;
    destruct (enumerate_find fuel (head (self s)) 0 i s) as [[?|] ?|?|]; done.
Qed.

Lemma double_extend_spec s ls vs :
  dlist s ls →
  ∃ s' ls', extend vs s = Ok tt s' ∧ dlist s' (ls ++ ls') ∧ ls'.*2 = vs.
Proof.
  revert s ls. induction vs as [|v vs IH]; intros s ls Hd; simpl.
  - exists s, []. by rewrite app_nil_r.
  - destruct (double_append_tail_spec s ls v Hd) as (s1 & E1 & Hd1).
    destruct (IH s1 _ Hd1) as (s2 & ls2 & E2 & Hd2 & Hv).
    exists s2, ((fresh (dom (heap s)), v) :: ls2).
    unfold bind. rewrite E1, E2. rewrite <- app_assoc in Hd2.
    split_and!; [done|done|]. rewrite fmap_cons. simpl. by rewrite Hv.
Qed.

Lemma double_construct_spec h vs :
  ∃ s ls, construct h vs = Ok tt s ∧ dlist s ls ∧ ls.*2 = vs.
Proof.
  unfold construct, __init__, bind. simpl.
  apply (double_extend_spec _ [] vs). unfold dlist. simpl.
  split_and!; try done. apply NoDup_nil_2.
Qed.

(** Every operation with valid arguments, run on a well-formed list, either
    returns with a well-formed list or raises with the state untouched. *)
Lemma exec_cases fuel (a : op) s ls :
  dlist s ls → valid_op s a →
  exec fuel a s = Undef
  ∨ (∃ e, exec fuel a s = Raise e s)
  ∨ (∃ s' ls', exec fuel a s = Ok tt s' ∧ dlist s' ls').
Proof.
  intros Hd Hv. destruct a as [v|v|vs|t v|t v|t|i|i v]; simpl in *.
  - right; right. destruct (double_append_tail_spec s ls v Hd) as (s' & ? & ?); eauto.
  - right; right. destruct (append_head_spec s ls v Hd) as (s' & ? & ?); eauto.
  - right; right. destruct (double_extend_spec s ls vs Hd) as (s' & ? & ? & ? & _); eauto.
  - destruct (resolve_sound fuel s ls t Hd Hv)
      as [E|[[E _]|(xs & c & ys & -> & E)]].
    + left. unfold insert_after, bind. by rewrite E.
    + right; left. exists IndexError. unfold insert_after, bind. by rewrite E.
    + right; right. rewrite (insert_after_resolve _ _ _ _ _ E).
      destruct (insert_after_node_spec fuel s xs c ys v Hd) as (s' & ? & ?); eauto.
  - destruct (resolve_sound fuel s ls t Hd Hv)
      as [E|[[E _]|(xs & c & ys & -> & E)]].
    + left. unfold insert_before, bind. by rewrite E.
    + right; left. exists IndexError. unfold insert_before, bind. by rewrite E.
    + right; right. rewrite (insert_before_resolve _ _ _ _ _ E).
      destruct (insert_before_node_spec fuel s xs c ys v Hd) as (s' & ? & ?); eauto.
  - destruct (resolve_sound fuel s ls t Hd Hv)
      as [E|[[E _]|(xs & c & ys & -> & E)]].
    + left. unfold remove, bind. by rewrite E.
    + right; left. exists IndexError. unfold remove, bind. by rewrite E.
    + right; right. rewrite (remove_resolve _ _ _ _ E).
      destruct (remove_node_spec fuel s xs c ys Hd) as (s' & ? & ?); eauto.
  - destruct (resolve_sound fuel s ls (ByIndex i) Hd I)
      as [E|[[E _]|(xs & c & ys & -> & E)]]; simpl in E; unfold bind; rewrite E;
      eauto 6.
  - rewrite double_setitem_getitem.
    destruct (resolve_sound fuel s ls (ByIndex i) Hd I)
      as [E|[[E _]|(xs & c & ys & -> & E)]]; simpl in E; unfold bind; rewrite E;
      eauto.
    right; right.
    destruct (double_set_value_spec s xs c ys v Hd) as (s' & ? & _ & _ & ?); eauto.
Qed.

(** With fuel above the length of the list, every operation with valid
    arguments gives its result: it returns or raises. *)
Lemma resolve_defined fuel s ls t :
  dlist s ls → valid_target s t → length ls < fuel →
  resolve fuel t s ≠ Undef.
Proof.
  intros Hd Hv Hf. destruct t as [l|[i|]]; try done.
  change (resolve fuel (ByIndex (Int i)) s) with (__getitem__ fuel (Int i) s).
  rewrite (double_getitem_spec fuel s ls i Hd Hf). by destruct (cell_at ls i).
Qed.

Lemma exec_defined fuel (a : op) s ls :
  dlist s ls → valid_op s a → length ls < fuel → exec fuel a s ≠ Undef.
Proof.
  intros Hd Hv Hf E.
  assert (∀ t, valid_target s t → resolve fuel t s ≠ Undef) as Hres.
  { intros t Ht. by eapply resolve_defined. }
  destruct a as [v|v|vs|t v|t v|t|i|i v]; simpl in *.
  - destruct (double_append_tail_spec s ls v Hd) as (s' & E' & _). congruence.
  - destruct (append_head_spec s ls v Hd) as (s' & E' & _). congruence.
  - destruct (double_extend_spec s ls vs Hd) as (s' & ? & E' & _). congruence.
  - destruct (resolve_sound fuel s ls t Hd Hv)
      as [E'|[[E' _]|(xs & c & ys & -> & E')]]; [by apply (Hres t)| |].
    + unfold insert_after, bind in E. by rewrite E' in E.
    + rewrite (insert_after_resolve _ _ _ _ _ E') in E.
      destruct (insert_after_node_spec fuel s xs c ys v Hd) as (s' & ? & _).
      congruence.
  - destruct (resolve_sound fuel s ls t Hd Hv)
      as [E'|[[E' _]|(xs & c & ys & -> & E')]]; [by apply (Hres t)| |].
    + unfold insert_before, bind in E. by rewrite E' in E.
    + rewrite (insert_before_resolve _ _ _ _ _ E') in E.
      destruct (insert_before_node_spec fuel s xs c ys v Hd) as (s' & ? & _).
      congruence.
  - destruct (resolve_sound fuel s ls t Hd Hv)
      as [E'|[[E' _]|(xs & c & ys & -> & E')]]; [by apply (Hres t)| |].
    + unfold remove, bind in E. by rewrite E' in E.
    + rewrite (remove_resolve _ _ _ _ E') in E.
      destruct (remove_node_spec fuel s xs c ys Hd) as (s' & ? & _).
      congruence.
  - destruct (resolve_sound fuel s ls (ByIndex i) Hd I)
      as [E'|[[E' _]|(xs & c & ys & -> & E')]];
      [by apply (Hres (ByIndex i))|..]; simpl in E';
      unfold bind in E; by rewrite E' in E.
  - rewrite double_setitem_getitem in E.
    destruct (resolve_sound fuel s ls (ByIndex i) Hd I)
      as [E'|[[E' _]|(xs & c & ys & -> & E')]];
      [by apply (Hres (ByIndex i))|..]; simpl in E';
      unfold bind in E; rewrite E' in E; [done|].
    destruct (double_set_value_spec s xs c ys v Hd) as (s' & ? & _).
    congruence.
Qed.

(** The representation invariant holds in every reachable state. *)
Lemma reachable_dlist s : reachable s → ∃ ls, dlist s ls.
Proof.
  induction 1 as [h vs s Hc|s fuel a s' _ [ls Hd] Hv Hf].
  - destruct (double_construct_spec h vs) as (s0 & ls & E & Hd & _).
    rewrite E in Hc. injection Hc as <-. eauto.
  - destruct (exec_cases fuel a s ls Hd Hv) as [E|[[e E]|(s1 & ls1 & E & Hd1)]];
      rewrite E in Hf; simpl in Hf; simplify_eq; eauto.
Qed.

(** *** Iteration *)

Lemma iter_from_dseg fuel s ls p :
  dseg (heap s) p ls None → length ls < fuel →
  iter_from fuel (first_loc ls None) s = Ok ls.*1 s.
Proof.
  revert fuel p. induction ls as [|c ls IH]; intros [|fuel] p Hs Hf;
    simpl in *; try lia; [done|].
  destruct Hs as [Hc Hs]. unfold bind, getattr. rewrite Hc. simpl.
  rewrite (IH fuel (Some c.1)) by (done || lia). done.
Qed.

Lemma values_of_dseg s ls p q :
  dseg (heap s) p ls q → values_of ls.*1 s = Ok ls.*2 s.
Proof.
  revert p. induction ls as [|c ls IH]; intros p Hs; [done|].
  destruct Hs as [Hc Hs]. rewrite !fmap_cons. cbn [values_of].
  unfold bind, getattr. rewrite Hc. by rewrite (IH (Some c.1)).
Qed.

Lemma iter_back_dseg fuel s ls q :
  dseg (heap s) None ls q → length ls < fuel →
  iter_back fuel (last_loc ls None) s = Ok (reverse ls.*1) s.
Proof.
  revert fuel q. induction ls as [|c ls IH] using rev_ind; intros [|fuel] q Hs Hf;
    rewrite ?length_app in Hf; simpl in *; try lia; [done|].
  apply dseg_app in Hs as [Hs [Hc _]]. simpl in *.
  rewrite last_loc_snoc. simpl.
  unfold bind, getattr. rewrite Hc. simpl.
  rewrite (IH fuel (Some c.1)) by (done || lia).
  by rewrite fmap_app, reverse_app.
Qed.

Lemma dseg_adjacent h p ls q k a b :
  dseg h p ls q → ls.*1 !! k = Some a → ls.*1 !! S k = Some b →
  ∃ na nb, h !! a = Some na ∧ h !! b = Some nb
           ∧ next_node na = Some b ∧ last_node nb = Some a.
Proof.
  intros Hs Ha Hb.
  rewrite list_lookup_fmap in Ha, Hb.
  destruct (ls !! k) as [ca|] eqn:Eca; [|done].
  destruct (ls !! S k) as [cb|] eqn:Ecb; [|done].
  simpl in *. injection Ha as <-. injection Hb as <-.
  rewrite (cell_split _ _ _ Eca) in Hs.
  assert (drop (S k) ls = cb :: drop (S (S k)) ls) as Hd.
  { by apply drop_S. }
  rewrite Hd in Hs.
  pose proof (dseg_lookup _ _ _ _ _ _ Hs) as Ea.
  rewrite (cons_middle ca), app_assoc in Hs.
  pose proof (dseg_lookup _ _ _ _ _ _ Hs) as Eb.
  rewrite last_loc_snoc in Eb.
  eexists _, _. split_and!; [exact Ea|exact Eb|done|done].
Qed.

Lemma double_iter_values_spec fuel s ls :
  dlist s ls → length ls < fuel → iter_values fuel s = Ok ls.*2 s.
Proof.
  intros (_ & Hh & _ & _ & Hs) Hf.
  unfold iter_values, __iter__, bind, get_head, gets.
  rewrite Hh, (iter_from_dseg _ _ _ _ Hs Hf). by eapply values_of_dseg.
Qed.

Lemma iter_reverse_spec fuel s ls :
  dlist s ls → length ls < fuel →
  iter_reverse fuel s = Ok (reverse ls.*1) s.
Proof.
  intros (_ & _ & Ht & _ & Hs) Hf.
  unfold iter_reverse, bind, get_tail, gets. rewrite Ht.
  by eapply iter_back_dseg.
Qed.

Lemma dseg_cell h p ls q c :
  dseg h p ls q → c ∈ ls → ∃ n, h !! c.1 = Some n ∧ value n = c.2.
Proof.
  intros Hs (xs & ys & ->)%list_elem_of_split.
  pose proof (dseg_lookup _ _ _ _ _ _ Hs). eauto.
Qed.

Lemma values_of_cells s (cs : list (loc * V)) :
  (∀ c, c ∈ cs → ∃ n, heap s !! c.1 = Some n ∧ value n = c.2) →
  values_of cs.*1 s = Ok cs.*2 s.
Proof.
  induction cs as [|c cs IH]; intros Hc; [done|].
  rewrite !fmap_cons. cbn [values_of]. unfold bind, getattr.
  destruct (Hc c) as (n & -> & <-); [set_solver|].
  rewrite IH; [done|]. intros c' Hc'. apply Hc. set_solver.
Qed.

Lemma iter_reverse_values fuel s ls :
  dlist s ls → length ls < fuel →
  ∃ nodes, iter_reverse fuel s = Ok nodes s
           ∧ values_of nodes s = Ok (reverse ls.*2) s.
Proof.
  intros Hd Hf. exists (reverse ls.*1).
  split; [by apply iter_reverse_spec|].
  rewrite <- !fmap_reverse. apply values_of_cells.
  intros c Hc. rewrite elem_of_reverse in Hc.
  destruct Hd as (_ & _ & _ & _ & Hs).
  exact (dseg_cell _ _ _ _ _ Hs Hc).
Qed.

Lemma double_setitem_spec fuel s ls i k v :
  dlist s ls → position (length ls) i = Some k → length ls < fuel →
  ∃ c n s', ls !! k = Some c ∧ heap s !! c.1 = Some n
            ∧ __setitem__ fuel (Int i) v s = Ok tt s'
            ∧ self s' = self s
            ∧ heap s' = <[c.1 := mkNode v (next_node n) (last_node n)]> (heap s)
            ∧ dlist s' (<[k := (c.1, v)]> ls).
Proof.
  intros Hd Hk Hf. pose proof (position_lt _ _ _ Hk) as Hlt.
  destruct (lookup_lt_is_Some_2 ls k Hlt) as [c Hc].
  pose proof (cell_split _ _ _ Hc) as Hsplit.
  rewrite double_setitem_getitem. unfold bind.
  rewrite (double_getitem_spec fuel s ls i Hd Hf), (cell_at_position _ _ _ Hk), Hc.
  rewrite Hsplit in Hd.
  destruct (double_set_value_spec s _ c _ v Hd) as (s' & E & Hself & Hheap & Hd').
  destruct Hd as (_ & _ & _ & _ & Hs).
  pose proof (dseg_lookup _ _ _ _ _ _ Hs) as Hn.
  eexists c, _, s'. split_and!; try done.
  by rewrite insert_take_drop.
Qed.

(** In every reachable state [_length] is the number of nodes the forward
    traversal meets. *)
Lemma reachable_length s :
  reachable s →
  ∃ nodes, (∀ fuel, length nodes < fuel → __iter__ fuel s = Ok nodes s)
           ∧ _length (self s) = Z.of_nat (length nodes).
Proof.
  intros (ls & _ & Hh & _ & Hl & Hs)%reachable_dlist.
  exists ls.*1. rewrite length_fmap. split; [|done].
  intros fuel Hf. unfold __iter__, bind, get_head, gets. rewrite Hh.
  by eapply iter_from_dseg.
Qed.

Lemma double_pure_getattr {A} (f : Node (V:=V) → A) p : pure (getattr f p).
Proof.
  intros s. unfold getattr. destruct p as [l|]; [|done].
  by destruct (heap s !! l).
Qed.

Lemma double_pure_enumerate_find fuel p i index :
  pure (S:=state (V:=V)) (enumerate_find fuel p i index).
Proof.
  revert p i. induction fuel as [|fuel IH]; intros p i; simpl; [done|].
  destruct p as [l|]; [|apply pure_ret].
  case_bool_decide; [apply pure_ret|].
  apply pure_bind; [apply double_pure_getattr|]. intros nxt. apply IH.
Qed.

Lemma double_pure_getitem fuel i :
  pure (S:=state (V:=V)) (__getitem__ fuel i).
Proof.
  intros s. destruct i as [i|]; [|done]. rewrite double_getitem_unfold.
  pose proof (double_pure_enumerate_find fuel (head (self s)) 0 i s) as Hp.
  destruct (tail (self s)), (bool_decide (i = -1)%Z); try done;
    case_bool_decide; try done;
    destruct (enumerate_find fuel (head (self s)) 0 i s) as [[?|] ?|?|]; done.
Qed.

(** Whatever the state, an assignment that returns has changed the value of
    one node and nothing else. *)
Lemma double_setitem_frame fuel i v s s' :
  __setitem__ fuel i v s = Ok tt s' →
  self s' = self s
  ∧ ∃ l n, heap s !! l = Some n
           ∧ heap s' = <[l := mkNode v (next_node n) (last_node n)]> (heap s).
Proof.
  rewrite double_setitem_getitem. unfold bind.
  pose proof (double_pure_getitem fuel i s) as Hp.
  destruct (__getitem__ fuel i s) as [node s0|e s0|]; try done. subst s0.
  unfold set_value, setattr.
  destruct (heap s !! node) as [n|] eqn:E; [|done]. intros [= <-]. eauto.
Qed.

(** *** Removal by node reference *)

Lemma raises_only_getattr {A} (f : Node (V:=V) → A) p :
  raises_only (λ e, e = AttributeError) (getattr f p).
Proof.
  intros s. unfold getattr. destruct p as [l|]; [|done].
  by destruct (heap s !! l).
Qed.

Lemma raises_only_setattr (upd : Node (V:=V) → Node) p :
  raises_only (λ e, e = AttributeError) (setattr upd p).
Proof.
  intros s. unfold setattr. destruct p as [l|]; [|done].
  by destruct (heap s !! l).
Qed.

Lemma remove_node_raises_only fuel l :
  raises_only (S:=state (V:=V)) (λ e, e = AttributeError)
    (remove fuel (ByNode l)).
Proof.
  unfold remove.
  repeat first
    [ apply raises_only_getattr
    | apply raises_only_setattr
    | apply noraise_raises_only;
      first [apply noraise_ret|apply noraise_gets|apply noraise_modify]
    | apply raises_only_bind; [|intros ?]
    | case_bool_decide ].
Qed.

Lemma remove_node_linked fuel s l n a b na nb :
  heap s !! l = Some n → last_node n = Some a → next_node n = Some b →
  heap s !! a = Some na → heap s !! b = Some nb →
  ∃ s', remove fuel (ByNode l) s = Ok tt s'
        ∧ _length (self s') = (_length (self s) - 1)%Z
        ∧ (if decide (Some l = head (self s))
           then head (self s') = Some b
           else head (self s') = head (self s)
                ∧ ∃ na', heap s' !! a = Some na' ∧ next_node na' = Some b)
        ∧ (if decide (Some l = tail (self s))
           then tail (self s') = Some a
           else tail (self s') = tail (self s)
                ∧ ∃ nb', heap s' !! b = Some nb' ∧ last_node nb' = Some a).
Proof.
  destruct s as [[len hd tl] h], n as [v nx pv]. simpl.
  intros Hl -> -> Ha Hb.
  unfold remove, bind, get_head, get_tail, get_length, gets, getattr,
    set_next_node, set_last_node, setattr, set_head, set_tail, set_length,
    modify, resolve, ret. simpl.
  repeat (first [ rewrite Hl | rewrite Ha | rewrite Hb
                | rewrite lookup_insert
                | case_bool_decide | case_decide ];
          simplify_eq/=);
    eexists; (split; [done|]); simpl;
    repeat (first [ rewrite lookup_insert | case_decide ]; simplify_eq/=);
    eauto 10.
Qed.

(** *** Equality *)

Lemma eq_loop_values {ne : ValueNe V} fuel s (d : Double)
    pre c xs pre' c' xs' :
  NoDup (pre ++ c :: xs).*1 → NoDup (pre' ++ c' :: xs').*1 →
  tail (self s) = last_loc (pre ++ c :: xs) None →
  tail d = last_loc (pre' ++ c' :: xs') None →
  dseg (heap s) (last_loc pre None) (c :: xs) None →
  dseg (heap s) (last_loc pre' None) (c' :: xs') None →
  length xs < fuel →
  eq_loop (ne:=ne) fuel d (Some c.1) (Some c'.1) s =
  Ok (values_eq (ne:=ne) (c :: xs).*2 (c' :: xs').*2) s.
Proof.
  revert fuel pre c pre' c' xs'.
  induction xs as [|n xs IH]; intros [|fuel] pre c pre' c' xs' Hnd Hnd' Ht Ht'
    [Hc Hs] [Hc' Hs'] Hf; simpl in Hf; try lia.
  - simpl. unfold bind, get_next, getattr, get_tail, gets.
    rewrite Hc, Hc'. simpl.
    destruct (ne c.2 c'.2) eqn:Hv; [done|]. simpl.
    rewrite Ht, last_loc_app, last_loc_cons. unfold last_loc at 1. simpl.
    rewrite bool_decide_true by done. simpl.
    rewrite Ht', last_loc_app, last_loc_cons.
    destruct xs' as [|n' xs'].
    + unfold last_loc at 1. simpl. by rewrite bool_decide_true by done.
    + nodup_facts Hnd'.
      rewrite bool_decide_false; last first.
      { intros Heq. symmetry in Heq. rewrite last_loc_cons in Heq.
        apply last_loc_elem in Heq as [?|[_ [= ?]]]; set_solver. }
      simpl. by rewrite Hc, Hc'.
  - simpl. unfold bind, get_next, getattr, get_tail, gets.
    rewrite Hc, Hc'. simpl.
    destruct (ne c.2 c'.2) eqn:Hv; [done|]. simpl.
    nodup_facts Hnd.
    rewrite bool_decide_false; last first.
    { rewrite Ht, last_loc_app, !last_loc_cons.
      intros Heq. symmetry in Heq.
      apply last_loc_elem in Heq as [?|[_ [= ?]]]; set_solver. }
    simpl. rewrite Hc, Hc'. simpl.
    destruct xs' as [|n' xs']; [done|]. simpl.
    rewrite (IH fuel (pre ++ [c]) n (pre' ++ [c']) n' xs');
      rewrite <- ?app_assoc, ?last_loc_snoc; simpl; try done; try lia.
    solve_nodup.
Qed.

(** [a == b] on two non-empty well-formed lists, whatever the values'
    [!=] is. *)
Lemma eq_values {ne : ValueNe V} fuel s (d : Double) ls ls' :
  dlist s ls → dlist (mkState d (heap s)) ls' →
  ls ≠ [] → ls' ≠ [] → length ls ≤ fuel →
  __eq__ (ne:=ne) fuel (IsList d) s
  = Ok (values_eq (ne:=ne) ls.*2 ls'.*2) s.
Proof.
  intros (Hnd & Hh & Ht & _ & Hs) (Hnd' & Hh' & Ht' & _ & Hs') Hne Hne' Hf.
  destruct ls as [|c xs]; [done|]. destruct ls' as [|c' xs']; [done|].
  simpl in *. unfold __eq__, bind, get_head, gets. rewrite Hh, Hh'.
  apply (eq_loop_values fuel s d [] c xs [] c' xs'); done || lia.
Qed.

(** For values compared by a decidable equality, [values_eq] is the
    equality of the sequences. *)
Lemma values_eq_decide (vs ws : list V) :
  values_eq (ne:=ne_of_eq_dec) vs ws = bool_decide (vs = ws).
Proof.
  revert ws. induction vs as [|v vs IH]; intros [|w ws]; cbn [values_eq];
    try by rewrite bool_decide_false.
  - by rewrite bool_decide_true.
  - rewrite IH. unfold ne_of_eq_dec.
    destruct (decide (v = w)) as [->|Hvw].
    + rewrite (bool_decide_false (w ≠ w)) by (intros Hne; by apply Hne).
      simpl. apply bool_decide_ext. split; [by intros ->|by intros [= ->]].
    + rewrite (bool_decide_true (v ≠ w)) by done. simpl.
      symmetry. apply bool_decide_false. by intros [= -> ->].
Qed.

Lemma eq_spec fuel s (d : Double) ls ls' :
  dlist s ls → dlist (mkState d (heap s)) ls' →
  ls ≠ [] → ls' ≠ [] → length ls ≤ fuel →
  __eq__ fuel (IsList d) s = Ok (bool_decide (ls.*2 = ls'.*2)) s.
Proof.
  intros Hd Hd' Hne Hne' Hf.
  rewrite (eq_values fuel s d ls ls') by done. by rewrite values_eq_decide.
Qed.

Lemma values_eq_refl {ne : ValueNe V} (vs : list V) :
  values_eq (ne:=ne) vs vs = forallb (λ v, negb (ne v v)) vs.
Proof. induction vs as [|v vs IH]; [done|]. simpl. by rewrite IH. Qed.

Lemma values_eq_sym {ne : ValueNe V} (vs ws : list V) :
  (∀ v w, ne v w = ne w v) →
  values_eq (ne:=ne) vs ws = values_eq (ne:=ne) ws vs.
Proof.
  intros Hsym. revert ws.
  induction vs as [|v vs IH]; intros [|w ws]; simpl; try done.
  by rewrite IH, (Hsym v w).
Qed.

(** *** Operations by index *)

Lemma double_resolve_index fuel s ls i k c :
  dlist s ls → position (length ls) i = Some k → ls !! k = Some c →
  length ls < fuel →
  resolve fuel (ByIndex (Int i)) s = Ok c.1 s.
Proof.
  intros Hd Hk Hc Hf.
  change (resolve fuel (ByIndex (Int i)) s) with (__getitem__ fuel (Int i) s).
  by rewrite (double_getitem_spec fuel s ls i Hd Hf),
    (cell_at_position _ _ _ Hk), Hc.
Qed.

Lemma double_resolve_error fuel s ls i :
  dlist s ls → position (length ls) i = None → length ls < fuel →
  resolve fuel (ByIndex (Int i)) s = Raise IndexError s.
Proof.
  intros Hd Hk Hf.
  change (resolve fuel (ByIndex (Int i)) s) with (__getitem__ fuel (Int i) s).
  rewrite (double_getitem_spec fuel s ls i Hd Hf). unfold cell_at.
  by rewrite Hk.
Qed.

Lemma double_insert_after_at fuel s ls k c t v :
  dlist s ls → ls !! k = Some c → resolve fuel t s = Ok c.1 s →
  ∃ s', insert_after fuel t v s = Ok tt s'
        ∧ dlist s' (take (S k) ls ++ (fresh (dom (heap s)), v)
                      :: drop (S k) ls).
Proof.
  intros Hd Hc E. rewrite (insert_after_resolve _ _ _ _ _ E).
  destruct (cell_decompose _ _ _ Hc) as (xs & ys & -> & <-).
  rewrite take_S_middle, drop_S_middle, <- app_assoc. simpl.
  by apply insert_after_node_spec.
Qed.

Lemma double_insert_before_at fuel s ls k c t v :
  dlist s ls → ls !! k = Some c → resolve fuel t s = Ok c.1 s →
  ∃ s', insert_before fuel t v s = Ok tt s'
        ∧ dlist s' (take k ls ++ (fresh (dom (heap s)), v) :: drop k ls).
Proof.
  intros Hd Hc E. rewrite (insert_before_resolve _ _ _ _ _ E).
  destruct (cell_decompose _ _ _ Hc) as (xs & ys & -> & <-).
  rewrite take_app_length, drop_app_length.
  by apply insert_before_node_spec.
Qed.

Lemma double_remove_at fuel s ls k c t :
  dlist s ls → ls !! k = Some c → resolve fuel t s = Ok c.1 s →
  ∃ s', remove fuel t s = Ok tt s' ∧ dlist s' (delete k ls).
Proof.
  intros Hd Hc E. rewrite (remove_resolve _ _ _ _ E).
  destruct (cell_decompose _ _ _ Hc) as (xs & ys & -> & <-).
  rewrite delete_middle. by apply remove_node_spec.
Qed.

(** On a well-formed list, with fuel above its length, an operation with
    valid arguments returns with a well-formed list, or raises [IndexError]
    and leaves the state untouched. *)
Lemma exec_outcome fuel (a : op) s ls :
  dlist s ls → valid_op s a → length ls < fuel →
  (∃ s' ls', exec fuel a s = Ok tt s' ∧ dlist s' ls')
  ∨ exec fuel a s = Raise IndexError s.
Proof.
  intros Hd Hv Hf.
  assert (∀ t, valid_target s t →
            (resolve fuel t s = Raise IndexError s)
            ∨ ∃ xs c ys, ls = xs ++ c :: ys ∧ resolve fuel t s = Ok c.1 s)
    as Hres.
  { intros t Ht.
    destruct (resolve_sound fuel s ls t Hd Ht) as [E|[[E _]|E]]; eauto.
    by apply (resolve_defined fuel s ls t Hd Ht Hf) in E. }
  destruct a as [v|v|vs|t v|t v|t|i|i v]; simpl in *.
  - left. destruct (double_append_tail_spec s ls v Hd) as (s' & ? & ?); eauto.
  - left. destruct (append_head_spec s ls v Hd) as (s' & ? & ?); eauto.
  - left. destruct (double_extend_spec s ls vs Hd) as (s' & ? & ? & ? & _).
    eauto.
  - destruct (Hres t Hv) as [E|(xs & c & ys & -> & E)].
    + right. unfold insert_after, bind. by rewrite E.
    + left. rewrite (insert_after_resolve _ _ _ _ _ E).
      destruct (insert_after_node_spec fuel s xs c ys v Hd) as (s' & ? & ?).
      eauto.
  - destruct (Hres t Hv) as [E|(xs & c & ys & -> & E)].
    + right. unfold insert_before, bind. by rewrite E.
    + left. rewrite (insert_before_resolve _ _ _ _ _ E).
      destruct (insert_before_node_spec fuel s xs c ys v Hd) as (s' & ? & ?).
      eauto.
  - destruct (Hres t Hv) as [E|(xs & c & ys & -> & E)].
    + right. unfold remove, bind. by rewrite E.
    + left. rewrite (remove_resolve _ _ _ _ E).
      destruct (remove_node_spec fuel s xs c ys Hd) as (s' & ? & ?). eauto.
  - destruct (Hres (ByIndex i) I) as [E|(xs & c & ys & -> & E)];
      simpl in E; unfold bind; rewrite E; eauto.
  - rewrite double_setitem_getitem.
    destruct (Hres (ByIndex i) I) as [E|(xs & c & ys & -> & E)];
      simpl in E; unfold bind; rewrite E; [by right|left].
    destruct (double_set_value_spec s xs c ys v Hd) as (s' & ? & _ & _ & ?).
    eauto.
Qed.

(** *** Neighbours *)

Lemma double_get_next_spec s ls k c :
  dlist s ls → ls !! k = Some c →
  get_next (Some c.1) s = Ok (fst <$> ls !! S k) s.
Proof.
  intros (_ & _ & _ & _ & Hs) Hc.
  rewrite (cell_split _ _ _ Hc) in Hs.
  pose proof (dseg_lookup _ _ _ _ _ _ Hs) as Hn.
  unfold get_next, getattr. rewrite Hn. simpl. by rewrite first_loc_drop.
Qed.

Lemma double_get_previous_spec s ls k c :
  dlist s ls → ls !! k = Some c →
  get_previous (Some c.1) s
  = Ok (match k with 0 => None | S j => fst <$> ls !! j end) s.
Proof.
  intros (_ & _ & _ & _ & Hs) Hc.
  pose proof (lookup_lt_Some _ _ _ Hc) as Hlt.
  rewrite (cell_split _ _ _ Hc) in Hs.
  pose proof (dseg_lookup _ _ _ _ _ _ Hs) as Hn.
  unfold get_previous, getattr. rewrite Hn. simpl.
  destruct k as [|j]; [done|]. rewrite last_loc_take by lia. done.
Qed.

(** *** More on equality *)

Lemma eq_empty_self fuel s (d : Double) :
  head (self s) = None →
  __eq__ (S fuel) (IsList d) s = Raise AttributeError s.
Proof.
  intros Hh. unfold __eq__, bind, get_head, gets. rewrite Hh. done.
Qed.

Lemma eq_empty_other fuel s (d : Double) ls :
  dlist s ls → ls ≠ [] → head d = None →
  __eq__ (S fuel) (IsList d) s = Raise AttributeError s.
Proof.
  intros (_ & Hh & _ & _ & Hs) Hne Hd.
  destruct ls as [|c ls]; [done|]. destruct Hs as [Hc _].
  unfold __eq__, bind, get_head, gets. rewrite Hh, Hd. simpl.
  unfold bind, getattr. by rewrite Hc.
Qed.

(** *** Textual representation *)

Lemma double_map_repr_spec (repr : V → string) s ls p q :
  dseg (heap s) p ls q →
  map_repr repr ls.*1 s
  = Ok ((λ v, "Node(" +:+ repr v +:+ ")") <$> ls.*2) s.
Proof.
  revert p. induction ls as [|c ls IH]; intros p Hs; [done|].
  destruct Hs as [Hc Hs]. rewrite !fmap_cons. cbn [map_repr].
  unfold bind, Node__repr__, bind, getattr. rewrite Hc. simpl.
  by rewrite (IH (Some c.1)).
Qed.

Lemma double_repr_spec (repr : V → string) fuel s ls :
  dlist s ls → length ls < fuel →
  __repr__ repr fuel s
  = Ok ("Double("
        +:+ String.concat ", " ((λ v, "Node(" +:+ repr v +:+ ")") <$> ls.*2)
        +:+ ")") s.
Proof.
  intros (_ & Hh & _ & _ & Hs) Hf.
  unfold __repr__, __iter__, bind, get_head, gets.
  rewrite Hh, (iter_from_dseg _ _ _ _ Hs Hf).
  by rewrite (double_map_repr_spec repr s ls None None Hs).
Qed.

Lemma double_getitem_at fuel s ls i k :
  dlist s ls → position (length ls) i = Some k → length ls < fuel →
  ∃ c, ls !! k = Some c
       ∧ __getitem__ fuel (Int i) s = Ok c.1 s
       ∧ getattr value (Some c.1) s = Ok c.2 s.
Proof.
  intros Hd Hk Hf.
  destruct (lookup_lt_is_Some_2 ls k) as [c Hc]; [by eapply position_lt|].
  exists c. split_and!; [done|..].
  - rewrite (double_getitem_spec _ _ ls) by done.
    by rewrite (cell_at_position _ _ _ Hk), Hc.
  - destruct Hd as (_ & _ & _ & _ & Hseg).
    destruct (dseg_cell _ _ _ _ c Hseg) as (n & Hn & Hv).
    { by eapply list_elem_of_lookup_2. }
    unfold getattr. by rewrite Hn, Hv.
Qed.

(** *** What a raise leaves behind *)

Lemma dseg_mono h h' p ls q : h ⊆ h' → dseg h p ls q → dseg h' p ls q.
Proof.
  intros Hsub. revert p.
  induction ls as [|c ls IH]; intros p; simpl; [done|].
  intros [Hc Hs]. split; [by eapply lookup_weaken|by apply IH].
Qed.

Lemma dlist_mono s s' ls :
  self s' = self s → heap s ⊆ heap s' → dlist s ls → dlist s' ls.
Proof.
  intros Hself Hsub (Hnd & Hh & Ht & Hl & Hs). unfold dlist. rewrite Hself.
  split_and!; try done. by eapply dseg_mono.
Qed.

Lemma heap_alloc_subseteq (h : gmap loc (Node (V:=V))) n :
  h ⊆ <[fresh (dom h) := n]> h.
Proof. apply insert_subseteq, not_elem_of_dom, is_fresh. Qed.

Lemma double_getitem_raise fuel i s e s' :
  __getitem__ fuel i s = Raise e s' → s' = s.
Proof.
  intros E. pose proof (double_pure_getitem fuel i s) as Hp.
  by rewrite E in Hp.
Qed.

Lemma double_setitem_raise fuel i v s e s' :
  __setitem__ fuel i v s = Raise e s' → s' = s.
Proof.
  rewrite double_setitem_getitem. unfold bind.
  pose proof (double_pure_getitem fuel i s) as Hp.
  destruct (__getitem__ fuel i s) as [node s0|e0 s0|]; try done.
  - subst s0. unfold set_value, setattr. by destruct (heap s !! node).
  - by intros [= _ <-].
Qed.

Lemma double_resolve_pure fuel t : pure (S:=state (V:=V)) (resolve fuel t).
Proof. destruct t; [apply pure_ret|apply double_pure_getitem]. Qed.

(** [insert_after] raises in [self[after]], before anything is done, or
    at the write to [node.next_node.last_node], when a new node exists
    that nothing refers to. *)
Lemma double_insert_after_raise fuel t v s e s' :
  insert_after fuel t v s = Raise e s' →
  self s' = self s ∧ heap s ⊆ heap s'.
Proof.
  unfold insert_after. unfold bind at 1.
  pose proof (double_resolve_pure fuel t s) as Hp.
  destruct (resolve fuel t s) as [node s0|e0 s0|]; try done.
  - subst s0.
    unfold bind, getattr, new_Node, get_tail, gets, set_tail, modify,
      set_last_node, set_next_node, setattr, get_length, set_length.
    simpl. repeat case_match; try done; simplify_eq; intros [= <- <-]; simpl;
      (split; [done|apply heap_alloc_subseteq]).
  - subst s0. by intros [= _ <-].
Qed.

Lemma double_insert_before_raise fuel t v s e s' :
  insert_before fuel t v s = Raise e s' →
  self s' = self s ∧ heap s ⊆ heap s'.
Proof.
  unfold insert_before. unfold bind at 1.
  pose proof (double_resolve_pure fuel t s) as Hp.
  destruct (resolve fuel t s) as [node s0|e0 s0|]; try done.
  - subst s0.
    unfold bind, getattr, new_Node, get_head, gets, set_head, modify,
      set_last_node, set_next_node, setattr, get_length, set_length.
    simpl. repeat case_match; try done; simplify_eq; intros [= <- <-]; simpl;
      (split; [done|apply heap_alloc_subseteq]).
  - subst s0. by intros [= _ <-].
Qed.

Lemma designates_resolve fuel s ls k c t :
  dlist s ls → designates ls k c t → length ls < fuel →
  resolve fuel t s = Ok c.1 s.
Proof.
  intros Hd [Hc [->|(i & -> & Hk)]] Hf; [done|].
  by eapply double_resolve_index.
Qed.

End facts.
End DoubleFacts.

(** * The claims *)
Module Claims.
Import Examples.

(** C1 (evaluated).  After [SinglyLinked(1)] and [insert_after(tail, 2)],
    [get(-1)] returns the old tail's value [1], not [2], and a following
    [append_tail(3)] overwrites the link to the inserted node: the values
    are [1, 3].  The same program on a [Double] gives [2] and [1, 2, 3]. *)
Lemma C1_single_insert_after_keeps_old_tail :
  returned (insert_after_tail_then_read single_start)
  = Some (1%Z, [1%Z; 3%Z])
  ∧ returned (double_insert_after_tail_then_read double_start)
    = Some (2%Z, [1%Z; 2%Z; 3%Z]).
Proof. split; vm_compute; reflexivity. Qed.

(** C2 (counterexample).  Comparing two empty doubly-linked lists does not
    return true: the first read of [node.value] on the absent head raises
    [AttributeError].  Two distinct singly-linked lists with the same values
    [1, 2] do not compare equal. *)
Lemma C2_eq_empty_raises_and_single_identity :
  Double.__eq__ 8 (Double.IsList (Double.mkList 0 None None)) double_start
  = Raise AttributeError double_start
  ∧ returned (Single.iter_values 8 two_singles.1) = Some [1%Z; 2%Z]
  ∧ returned (Single.iter_values 8 two_singles.2) = Some [1%Z; 2%Z]
  ∧ Single.__eq__ 1%positive 2%positive = false.
Proof. split_and!; by vm_compute. Qed.

(** C2 (amended).  For two non-empty well-formed doubly-linked lists, [==]
    returns whether their value sequences, in traversal order, are the same
    (same length and pairwise equal values); the value sequence is the one
    [iter_values] produces.  Against an object with no [head] attribute [==]
    returns false and does not raise.  On singly-linked lists [==] is the
    identity of the two list objects. *)
Theorem C2_double_eq `{EqDecision V} fuel (s : Double.state (V:=V))
    (d : Double.Double) ls ls' :
  Double.dlist s ls → Double.dlist (Double.mkState d (Double.heap s)) ls' →
  ls ≠ [] → ls' ≠ [] → length ls < fuel → length ls' < fuel →
  Double.iter_values fuel s = Ok ls.*2 s
  ∧ Double.iter_values fuel (Double.mkState d (Double.heap s))
    = Ok ls'.*2 (Double.mkState d (Double.heap s))
  ∧ Double.__eq__ fuel (Double.IsList d) s = Ok (bool_decide (ls.*2 = ls'.*2)) s
  ∧ Double.__eq__ fuel Double.NoHead s = Ok false s
  ∧ (∀ a b, Single.__eq__ a b = true ↔ a = b).
Proof.
  intros Hd Hd' Hne Hne' Hf Hf'.
  split_and!; [by apply DoubleFacts.double_iter_values_spec
              |by apply DoubleFacts.double_iter_values_spec
              |apply DoubleFacts.eq_spec; done || lia|done|].
  intros a b. unfold Single.__eq__. apply bool_decide_eq_true.
Qed.

Lemma C2_double_eq_witness :
  Double.iter_values 8 two_doubles.1 = Ok [1%Z; 2%Z] two_doubles.1
  ∧ Double.iter_values 8
      (Double.mkState two_doubles.2 (Double.heap two_doubles.1))
    = Ok [1%Z; 2%Z] (Double.mkState two_doubles.2 (Double.heap two_doubles.1))
  ∧ Double.__eq__ 8 (Double.IsList two_doubles.2) two_doubles.1
    = Ok true two_doubles.1
  ∧ Double.__eq__ 8 Double.NoHead two_doubles.1 = Ok false two_doubles.1
  ∧ (∀ a b, Single.__eq__ a b = true ↔ a = b).
Proof.
  refine (C2_double_eq 8 two_doubles.1 two_doubles.2
            [(1%positive, 1%Z); (2%positive, 2%Z)]
            [(3%positive, 1%Z); (4%positive, 2%Z)] _ _ _ _ _ _);
    try done; try (simpl; lia);
    (split_and!; [apply (bool_decide_unpack _); by vm_compute|..]; try done;
     repeat split; by vm_compute).
Defined.

(** C3 (evaluated).  After [SinglyLinked(1)],
    [insert_after(0, 2)] and [append_tail(3)], [length()] is [3] while the
    traversal from [head] meets [2] nodes. *)
Lemma C3_single_length_counts_lost_node :
  returned (insert_after_then_count single_start) = Some (3%Z, 2).
Proof. vm_compute. reflexivity. Qed.

(** C4.  In every state of a doubly-linked list reached from a constructor
    call by operations with valid arguments, with [nodes] the nodes in
    traversal order (what [__iter__] yields): for adjacent nodes [a] then
    [b], [a.next_node] is [b] and [b.last_node] is [a]; the head's
    [last_node] and the tail's [next_node] are [None]; the head is the first
    and the tail the last of [nodes]. *)
Theorem C4_double_links {V} (s : Double.state (V:=V)) :
  Double.reachable s →
  ∃ nodes : list loc,
    (∀ fuel, length nodes < fuel → Double.__iter__ fuel s = Ok nodes s)
    ∧ (∀ k a b, nodes !! k = Some a → nodes !! S k = Some b →
         ∃ na nb, Double.heap s !! a = Some na ∧ Double.heap s !! b = Some nb
                  ∧ Double.next_node na = Some b
                  ∧ Double.last_node nb = Some a)
    ∧ (∀ hd, Double.head (Double.self s) = Some hd →
         ∃ n, Double.heap s !! hd = Some n ∧ Double.last_node n = None)
    ∧ (∀ tl, Double.tail (Double.self s) = Some tl →
         ∃ n, Double.heap s !! tl = Some n ∧ Double.next_node n = None)
    ∧ Double.head (Double.self s) = nodes !! 0
    ∧ Double.tail (Double.self s) = last nodes.
Proof.
  intros Hr. destruct (DoubleFacts.reachable_dlist s Hr) as [ls Hd].
  pose proof Hd as (Hnd & Hh & Ht & Hl & Hs).
  exists ls.*1. split_and!.
  - intros fuel Hf. rewrite length_fmap in Hf.
    unfold Double.__iter__, bind, Double.get_head, gets. rewrite Hh.
    by eapply DoubleFacts.iter_from_dseg.
  - intros k a b. by eapply DoubleFacts.dseg_adjacent.
  - intros hd Hhd. rewrite Hh in Hhd. destruct ls as [|c ls]; [done|].
    simpl in *. injection Hhd as <-. destruct Hs as [Hc _]. eauto.
  - intros tl Htl. rewrite Ht in Htl.
    destruct ls as [|c ls _] using rev_ind; [done|].
    rewrite last_loc_snoc in Htl. injection Htl as <-.
    pose proof (DoubleFacts.dseg_lookup _ _ _ _ _ _ Hs) as Hc. eauto.
  - rewrite Hh. by destruct ls.
  - rewrite Ht. unfold last_loc. rewrite fmap_last. by destruct (last ls).
Qed.

Lemma C4_double_links_witness :
  ∃ nodes : list loc,
    (∀ fuel, length nodes < fuel →
       Double.__iter__ fuel double_after_edits = Ok nodes double_after_edits)
    ∧ (∀ k a b, nodes !! k = Some a → nodes !! S k = Some b →
         ∃ na nb, Double.heap double_after_edits !! a = Some na
                  ∧ Double.heap double_after_edits !! b = Some nb
                  ∧ Double.next_node na = Some b
                  ∧ Double.last_node nb = Some a)
    ∧ (∀ hd, Double.head (Double.self double_after_edits) = Some hd →
         ∃ n, Double.heap double_after_edits !! hd = Some n
              ∧ Double.last_node n = None)
    ∧ (∀ tl, Double.tail (Double.self double_after_edits) = Some tl →
         ∃ n, Double.heap double_after_edits !! tl = Some n
              ∧ Double.next_node n = None)
    ∧ Double.head (Double.self double_after_edits) = nodes !! 0
    ∧ Double.tail (Double.self double_after_edits) = last nodes.
Proof.
  apply (C4_double_links double_after_edits).
  eapply (Double.reachable_exec _ 8 (Double.AppendHead 0%Z));
    [eapply (Double.reachable_exec _ 8 (Double.Remove (ByIndex (Int (-1)))));
      [eapply (Double.reachable_exec _ 8
                 (Double.InsertBefore (ByIndex (Int 1)) 9%Z));
        [eapply (Double.reachable_construct ∅ [5%Z; 6%Z; 7%Z]);
         vm_compute; reflexivity
        |exact I|vm_compute; reflexivity]
      |exact I|vm_compute; reflexivity]
    |exact I|vm_compute; reflexivity].
Defined.

(** C5 (evaluated).  [remove(0)] on an empty singly-linked list raises
    [AttributeError], not [IndexError], whatever the store holds and whatever
    the fuel; on an empty doubly-linked list it raises [IndexError]. *)
Lemma C5_single_remove_0_on_empty {V} fuel
    (hs : gmap loc (Single.Node (V:=V))) (hd : gmap loc (Double.Node (V:=V))) :
  Single.remove fuel (ByIndex (Int 0))
    (Single.mkState (Single.mkList 0 None None) hs)
  = Raise AttributeError (Single.mkState (Single.mkList 0 None None) hs)
  ∧ Double.remove (S fuel) (ByIndex (Int 0))
      (Double.mkState (Double.mkList 0 None None) hd)
    = Raise IndexError (Double.mkState (Double.mkList 0 None None) hd).
Proof. split; reflexivity. Qed.

(** C6 (counterexample).  On [d = Double(1, 4)], [d.remove(n)] for a node
    [n = Node(9, d.head, None)] that is not in the list raises
    [AttributeError] after it has set [d.head.next_node] to [None]: the
    values were [1, 4] before the call and are [1] after the raise. *)
Lemma C6_double_remove_stranger_mutates :
  returned (Double.iter_values 8 double_with_stranger) = Some [1%Z; 4%Z]
  ∧ match Double.remove 8 (ByNode 3%positive) double_with_stranger with
    | Raise e s' =>
        e = AttributeError
        ∧ returned (Double.iter_values 8 s') = Some [1%Z]
        ∧ s' ≠ double_with_stranger
    | _ => False
    end.
Proof. split; [by vm_compute|]. vm_compute. split_and!; done. Qed.

(** C6 (amended).  When an operation raises, the list is as it was before
    the call: for an operation of the singly-linked list that is given an
    index, a slice or a node reference, from any state; for any operation
    of a well-formed doubly-linked list whose node references are nodes of
    the list; for [__getitem__] and [__setitem__] of the doubly-linked
    list, from any state; and for its [insert_after] and [insert_before]
    given any node reference or index, from any state, where the
    attributes of the list and every node of the store are unchanged (at
    most a new node exists that nothing refers to), so that a well-formed
    list is the same list after the raise.  Only [Double.remove] given a
    node that is not in the list is left out. *)
Theorem C6_failure_leaves_state :
  (∀ V fuel (a : Single.op (V:=V)) s e s',
     Single.takes_target a → Single.exec fuel a s = Raise e s' → s' = s)
  ∧ (∀ V fuel (a : Double.op (V:=V)) s ls e s',
       Double.dlist s ls → Double.valid_op s a →
       Double.exec fuel a s = Raise e s' → s' = s)
  ∧ (∀ V fuel idx (v : V) (s : Double.state (V:=V)) e s',
       Double.__getitem__ fuel idx s = Raise e s'
       ∨ Double.__setitem__ fuel idx v s = Raise e s' →
       s' = s)
  ∧ (∀ V fuel t (v : V) (s : Double.state (V:=V)) e s',
       Double.insert_after fuel t v s = Raise e s'
       ∨ Double.insert_before fuel t v s = Raise e s' →
       Double.self s' = Double.self s
       ∧ Double.heap s ⊆ Double.heap s'
       ∧ ∀ ls, Double.dlist s ls → Double.dlist s' ls).
Proof.
  split_and!.
  - intros V fuel a s e s' Ht E.
    pose proof (SingleFacts.atomic_exec fuel a Ht s) as Ha.
    by rewrite E in Ha.
  - intros V fuel a s ls e s' Hd Hv E.
    destruct (DoubleFacts.exec_cases fuel a s ls Hd Hv)
      as [E'|[[e' E']|(s1 & ls1 & E' & _)]]; congruence.
  - intros V fuel idx v s e s' [E|E].
    + by eapply DoubleFacts.double_getitem_raise.
    + by eapply DoubleFacts.double_setitem_raise.
  - intros V fuel t v s e s' E.
    assert (Double.self s' = Double.self s ∧ Double.heap s ⊆ Double.heap s')
      as [Hself Hsub].
    { destruct E as [E|E].
      - by eapply DoubleFacts.double_insert_after_raise.
      - by eapply DoubleFacts.double_insert_before_raise. }
    split_and!; [done..|]. intros ls. by apply DoubleFacts.dlist_mono.
Qed.

Lemma C6_failure_leaves_state_witness :
  state_after (Single.exec 8 (Single.Remove (ByIndex (Int 5))) single_one)
    single_start = single_one
  ∧ state_after (Double.exec 8 (Double.InsertAfter (ByIndex (Int 7)) 3%Z)
                   double_after_edits) double_start = double_after_edits
  ∧ state_after (Double.__setitem__ 8 (Int 7) 3%Z double_after_edits)
      double_start = double_after_edits
  ∧ (Double.self
       (state_after
          (Double.insert_after 8 (ByNode 3%positive) 5%Z double_with_stranger)
          double_start)
     = Double.self double_with_stranger
     ∧ Double.heap double_with_stranger
       ⊆ Double.heap
           (state_after
              (Double.insert_after 8 (ByNode 3%positive) 5%Z
                 double_with_stranger) double_start)
     ∧ ∀ ls, Double.dlist double_with_stranger ls →
         Double.dlist
           (state_after
              (Double.insert_after 8 (ByNode 3%positive) 5%Z
                 double_with_stranger) double_start) ls).
Proof.
  split; [|split; [|split]].
  - apply (proj1 C6_failure_leaves_state Z 8
             (Single.Remove (ByIndex (Int 5))) single_one IndexError _ I).
    vm_compute. reflexivity.
  - refine (proj1 (proj2 C6_failure_leaves_state) Z 8
              (Double.InsertAfter (ByIndex (Int 7)) 3%Z) double_after_edits
              [(5%positive, 0%Z); (1%positive, 5%Z); (4%positive, 9%Z);
               (2%positive, 6%Z)] IndexError _ _ I _).
    + split_and!.
      * apply (bool_decide_unpack _). vm_compute. exact I.
      * vm_compute. reflexivity.
      * vm_compute. reflexivity.
      * vm_compute. reflexivity.
      * vm_compute. repeat split; reflexivity.
    + vm_compute. reflexivity.
  - refine (proj1 (proj2 (proj2 C6_failure_leaves_state)) Z 8 (Int 7) 3%Z
              double_after_edits IndexError _ _).
    right. vm_compute. reflexivity.
  - refine (proj2 (proj2 (proj2 C6_failure_leaves_state)) Z 8
              (ByNode 3%positive) 5%Z double_with_stranger AttributeError
              _ _).
    left. vm_compute. reflexivity.
Defined.

(** C7.  Building a list from [v1..vn] and iterating its values yields
    [v1..vn] in order, for both containers; on the doubly-linked list
    [iter_reverse] yields nodes whose values are [vn..v1]. *)
Theorem C7_round_trip {V} fuel (vs : list V) hs hd :
  length vs < fuel →
  (∃ s, Single.construct hs vs = Ok tt s
        ∧ Single.iter_values fuel s = Ok vs s)
  ∧ (∃ s nodes, Double.construct hd vs = Ok tt s
                ∧ Double.iter_values fuel s = Ok vs s
                ∧ Double.iter_reverse fuel s = Ok nodes s
                ∧ Double.values_of nodes s = Ok (reverse vs) s).
Proof.
  intros Hf. split.
  - destruct (SingleFacts.single_construct_spec hs vs) as (s & ls & E & Hd & Hv).
    subst vs. exists s. split; [done|].
    apply SingleFacts.single_iter_values_spec; [done|].
    by rewrite length_fmap in Hf.
  - destruct (DoubleFacts.double_construct_spec hd vs) as (s & ls & E & Hd & Hv).
    assert (length ls < fuel) as Hf'.
    { rewrite <- Hv in Hf. by rewrite length_fmap in Hf. }
    destruct (DoubleFacts.iter_reverse_values fuel s ls Hd Hf')
      as (nodes & E1 & E2).
    subst vs. exists s, nodes.
    split_and!; [done|by apply DoubleFacts.double_iter_values_spec|done|done].
Qed.

Lemma C7_round_trip_witness :
  (∃ s, Single.construct ∅ [6%Z; 5%Z; 2%Z; 8%Z; 45%Z] = Ok tt s
        ∧ Single.iter_values 8 s = Ok [6%Z; 5%Z; 2%Z; 8%Z; 45%Z] s)
  ∧ (∃ s nodes, Double.construct ∅ [6%Z; 5%Z; 2%Z; 8%Z; 45%Z] = Ok tt s
                ∧ Double.iter_values 8 s = Ok [6%Z; 5%Z; 2%Z; 8%Z; 45%Z] s
                ∧ Double.iter_reverse 8 s = Ok nodes s
                ∧ Double.values_of nodes s
                  = Ok (reverse [6%Z; 5%Z; 2%Z; 8%Z; 45%Z]) s).
Proof. apply (C7_round_trip 8 [6%Z; 5%Z; 2%Z; 8%Z; 45%Z] ∅ ∅). simpl. lia. Defined.

(** C8.  [Double.remove] given a node reference raises nothing but
    [AttributeError] (never a not-found error such as [ValueError]), from
    any state.  For a node whose [last_node] and [next_node] are set,
    whether or not it is a node of the list, it returns, decrements
    [_length], and relinks the neighbours: the predecessor's [next_node]
    becomes the successor (or [head] becomes the successor when the node is
    [head]) and the successor's [last_node] becomes the predecessor (or
    [tail] becomes the predecessor when the node is [tail]). *)
Theorem C8_double_remove_unchecked {V} fuel (s : Double.state (V:=V))
    l n a b na nb :
  Double.heap s !! l = Some n →
  Double.last_node n = Some a → Double.next_node n = Some b →
  Double.heap s !! a = Some na → Double.heap s !! b = Some nb →
  (∀ (s0 : Double.state (V:=V)) l0 e s1,
     Double.remove fuel (ByNode l0) s0 = Raise e s1 → e = AttributeError)
  ∧ ∃ s', Double.remove fuel (ByNode l) s = Ok tt s'
      ∧ Double._length (Double.self s')
        = (Double._length (Double.self s) - 1)%Z
      ∧ (if decide (Some l = Double.head (Double.self s))
         then Double.head (Double.self s') = Some b
         else Double.head (Double.self s') = Double.head (Double.self s)
              ∧ ∃ na', Double.heap s' !! a = Some na'
                       ∧ Double.next_node na' = Some b)
      ∧ (if decide (Some l = Double.tail (Double.self s))
         then Double.tail (Double.self s') = Some a
         else Double.tail (Double.self s') = Double.tail (Double.self s)
              ∧ ∃ nb', Double.heap s' !! b = Some nb'
                       ∧ Double.last_node nb' = Some a).
Proof.
  intros Hl Ha Hb Hna Hnb. split.
  - intros s0 l0 e s1 E.
    pose proof (DoubleFacts.remove_node_raises_only fuel l0 s0) as Hr.
    by rewrite E in Hr.
  - by eapply DoubleFacts.remove_node_linked.
Qed.

(** A node of [Double(1, 2, 3)] removed from the unrelated empty list that
    shares its store: the call returns and the empty list's [_length]
    becomes [-1]. *)
Lemma C8_double_remove_unchecked_witness :
  ∃ s', Double.remove 8 (ByNode 2%positive)
          (Double.mkState (Double.mkList 0 None None) (Double.heap double_123))
        = Ok tt s'
      ∧ Double._length (Double.self s') = (-1)%Z.
Proof.
  destruct (C8_double_remove_unchecked 8
              (Double.mkState (Double.mkList 0 None None)
                 (Double.heap double_123))
              2%positive
              (Double.mkNode 2%Z (Some 3%positive) (Some 1%positive))
              1%positive 3%positive
              (Double.mkNode 1%Z (Some 2%positive) None)
              (Double.mkNode 3%Z None (Some 2%positive)))
    as (_ & s' & E & Hlen & _); try (vm_compute; reflexivity).
  exists s'. split; [exact E|exact Hlen].
Defined.

(** C9 (evaluated).  After [SinglyLinked(1)] and [insert_after(0, 2)] the
    values are [1, 2], and [set(-1, 9)] then changes the value at position
    [0], not the last one: the values are [9, 2].  After a further
    [append_tail(3)] the length is [3] and [set(2, 9)] raises
    [IndexError].  On a [Double] the first program gives [1, 9]. *)
Lemma C9_single_setitem_after_insert_after :
  returned (insert_after_then_set_last single_start)
  = Some ([1%Z; 2%Z], [9%Z; 2%Z])
  ∧ returned (double_insert_after_then_set_last double_start)
    = Some ([1%Z; 2%Z], [1%Z; 9%Z])
  ∧ match insert_after_then_set_at_len single_start with
    | Raise e s => e = IndexError ∧ Single._length (Single.self s) = 3%Z
    | _ => False
    end.
Proof. split_and!; vm_compute; done. Qed.

(** C10 (counterexample).  The right operand [x] is an object that is not
    a node and carries a [value] attribute equal to [1]: in both modules
    [Node(1) == x] is true although [1 == x] is false. *)
Lemma C10_non_node_with_value_attribute :
  Single.Node__eq__ pyobj_value 1%positive (Single.OpObj (PyBox 1)) single_nodes
  = Ok true single_nodes
  ∧ Double.Node__eq__ pyobj_value 1%positive (Double.OpObj (PyBox 1)) double_nodes
    = Ok true double_nodes
  ∧ bool_decide (PyInt 1 = PyBox 1) = false.
Proof. split_and!; by vm_compute. Qed.

(** C10 (amended).  [n == x] and [n < x] on a node [n], in both modules:
    when [x] is a node [m] the result is [n.value == m.value] (resp. [<]);
    when [x] is any other object with a [value] attribute [w] the result is
    [n.value == w]; when [x] has no [value] attribute the result is
    [n.value == x]. *)
Theorem C10_node_comparisons `{EqDecision V}
    (lt : V → V → bool) (attr_value : V → option V) :
  (∀ (s : Single.state (V:=V)) self n x,
     Single.heap s !! self = Some n →
     (∀ m nm, x = Single.OpNode m → Single.heap s !! m = Some nm →
        Single.Node__eq__ attr_value self x s
        = Ok (bool_decide (Single.value n = Single.value nm)) s
        ∧ Single.Node__lt__ lt attr_value self x s
          = Ok (lt (Single.value n) (Single.value nm)) s)
     ∧ (∀ o w, x = Single.OpObj o → attr_value o = Some w →
          Single.Node__eq__ attr_value self x s
          = Ok (bool_decide (Single.value n = w)) s
          ∧ Single.Node__lt__ lt attr_value self x s
            = Ok (lt (Single.value n) w) s)
     ∧ (∀ o, x = Single.OpObj o → attr_value o = None →
          Single.Node__eq__ attr_value self x s
          = Ok (bool_decide (Single.value n = o)) s
          ∧ Single.Node__lt__ lt attr_value self x s
            = Ok (lt (Single.value n) o) s))
  ∧ (∀ (s : Double.state (V:=V)) self n x,
       Double.heap s !! self = Some n →
       (∀ m nm, x = Double.OpNode m → Double.heap s !! m = Some nm →
          Double.Node__eq__ attr_value self x s
          = Ok (bool_decide (Double.value n = Double.value nm)) s
          ∧ Double.Node__lt__ lt attr_value self x s
            = Ok (lt (Double.value n) (Double.value nm)) s)
       ∧ (∀ o w, x = Double.OpObj o → attr_value o = Some w →
            Double.Node__eq__ attr_value self x s
            = Ok (bool_decide (Double.value n = w)) s
            ∧ Double.Node__lt__ lt attr_value self x s
              = Ok (lt (Double.value n) w) s)
       ∧ (∀ o, x = Double.OpObj o → attr_value o = None →
            Double.Node__eq__ attr_value self x s
            = Ok (bool_decide (Double.value n = o)) s
            ∧ Double.Node__lt__ lt attr_value self x s
              = Ok (lt (Double.value n) o) s)).
Proof.
  split; intros s self n x Hn; split_and!.
  - intros m nm -> Hm.
    unfold Single.Node__eq__, Single.Node__lt__, bind, Single.getattr.
    by rewrite Hn, Hm.
  - intros o w -> Hw.
    unfold Single.Node__eq__, Single.Node__lt__, bind, Single.getattr.
    by rewrite Hn, Hw.
  - intros o -> Hw.
    unfold Single.Node__eq__, Single.Node__lt__, bind, Single.getattr.
    by rewrite Hn, Hw.
  - intros m nm -> Hm.
    unfold Double.Node__eq__, Double.Node__lt__, bind, Double.getattr.
    by rewrite Hn, Hm.
  - intros o w -> Hw.
    unfold Double.Node__eq__, Double.Node__lt__, bind, Double.getattr.
    by rewrite Hn, Hw.
  - intros o -> Hw.
    unfold Double.Node__eq__, Double.Node__lt__, bind, Double.getattr.
    by rewrite Hn, Hw.
Qed.

Lemma C10_node_comparisons_witness :
  Single.Node__eq__ pyobj_value 1%positive (Single.OpNode 2%positive)
    single_nodes = Ok false single_nodes
  ∧ Single.Node__lt__ pyobj_lt pyobj_value 1%positive
      (Single.OpNode 2%positive) single_nodes = Ok true single_nodes
  ∧ Double.Node__eq__ pyobj_value 1%positive (Double.OpObj (PyInt 1))
      double_nodes = Ok true double_nodes
  ∧ Double.Node__lt__ pyobj_lt pyobj_value 1%positive (Double.OpObj (PyInt 1))
      double_nodes = Ok false double_nodes.
Proof.
  pose proof (C10_node_comparisons pyobj_lt pyobj_value) as [HS HD].
  destruct (HS single_nodes 1%positive (Single.mkNode (PyInt 1) None)
              (Single.OpNode 2%positive) eq_refl) as (H1 & _ & _).
  destruct (H1 2%positive (Single.mkNode (PyInt 2) None) eq_refl eq_refl)
    as [E1 E2].
  destruct (HD double_nodes 1%positive (Double.mkNode (PyInt 1) None None)
              (Double.OpObj (PyInt 1)) eq_refl) as (_ & _ & H3).
  destruct (H3 (PyInt 1) eq_refl eq_refl) as [E3 E4].
  split_and!; [exact E1|exact E2|exact E3|exact E4].
Defined.

End Claims.

(** * Facts about the example states *)
Module ExampleFacts.
Import Examples.

Lemma double_123_dlist : Double.dlist double_123 cells_123.
Proof.
  split_and!.
  - apply (bool_decide_unpack _). vm_compute. exact I.
  - vm_compute. reflexivity.
  - vm_compute. reflexivity.
  - vm_compute. reflexivity.
  - vm_compute. repeat split; reflexivity.
Qed.

Lemma single_123_slist : Single.slist single_123 cells_123.
Proof.
  split_and!.
  - apply (bool_decide_unpack _). vm_compute. exact I.
  - vm_compute. reflexivity.
  - vm_compute. reflexivity.
  - vm_compute. reflexivity.
  - vm_compute. repeat split; reflexivity.
Qed.

End ExampleFacts.

(** * Further properties of the two modules *)
Module Extras.
Import Examples ExampleFacts.

(** ** pylinked.py *)

(** X1.  [Double.append_tail] on a well-formed list returns, and the list is
    then the old cells followed by one new node holding the value (so the
    new node is the tail and the length has grown by one). *)
Theorem X1_double_append_tail {V} (s : Double.state (V:=V)) ls v :
  Double.dlist s ls →
  ∃ s', Double.append_tail v s = Ok tt s'
        ∧ Double.dlist s' (ls ++ [(fresh (dom (Double.heap s)), v)]).
Proof. apply DoubleFacts.double_append_tail_spec. Qed.

Lemma X1_double_append_tail_witness :
  ∃ s', Double.append_tail 4%Z double_123 = Ok tt s'
        ∧ Double.dlist s'
            (cells_123 ++ [(fresh (dom (Double.heap double_123)), 4%Z)]).
Proof. exact (X1_double_append_tail double_123 cells_123 4%Z double_123_dlist). Defined.

(** X2.  [Double.append_head] on a well-formed list returns, and the list
    is then one new node holding the value followed by the old cells. *)
Theorem X2_double_append_head {V} (s : Double.state (V:=V)) ls v :
  Double.dlist s ls →
  ∃ s', Double.append_head v s = Ok tt s'
        ∧ Double.dlist s' ((fresh (dom (Double.heap s)), v) :: ls).
Proof. apply DoubleFacts.append_head_spec. Qed.

Lemma X2_double_append_head_witness :
  ∃ s', Double.append_head 0%Z double_123 = Ok tt s'
        ∧ Double.dlist s'
            ((fresh (dom (Double.heap double_123)), 0%Z) :: cells_123).
Proof. exact (X2_double_append_head double_123 cells_123 0%Z double_123_dlist). Defined.

(** X3.  [Double.extend] on a well-formed list returns, and the list is
    then the old cells followed by new nodes holding the given values in
    their order. *)
Theorem X3_double_extend {V} (s : Double.state (V:=V)) ls vs :
  Double.dlist s ls →
  ∃ s' ls', Double.extend vs s = Ok tt s'
            ∧ Double.dlist s' (ls ++ ls') ∧ ls'.*2 = vs.
Proof. apply DoubleFacts.double_extend_spec. Qed.

Lemma X3_double_extend_witness :
  ∃ s' ls', Double.extend [4%Z; 5%Z] double_123 = Ok tt s'
            ∧ Double.dlist s' (cells_123 ++ ls') ∧ ls'.*2 = [4%Z; 5%Z].
Proof. exact (X3_double_extend double_123 cells_123 [4%Z; 5%Z] double_123_dlist). Defined.

(** X4.  [Double.insert_after], given a node of a well-formed list or a
    valid index, returns, and the new value sits right after the target: at
    position [k + 1] for a target at position [k]. *)
Theorem X4_double_insert_after {V} fuel (s : Double.state (V:=V)) ls k c t v :
  Double.dlist s ls → designates ls k c t → length ls < fuel →
  ∃ s', Double.insert_after fuel t v s = Ok tt s'
        ∧ Double.dlist s'
            (take (S k) ls ++ (fresh (dom (Double.heap s)), v)
               :: drop (S k) ls).
Proof.
  intros Hd Ht Hf. pose proof Ht as [Hc _].
  eapply DoubleFacts.double_insert_after_at; [done|done|].
  by eapply DoubleFacts.designates_resolve.
Qed.

Lemma X4_double_insert_after_witness :
  ∃ s', Double.insert_after 8 (ByIndex (Int 1)) 9%Z double_123 = Ok tt s'
        ∧ Double.dlist s'
            (take 2 cells_123 ++ (fresh (dom (Double.heap double_123)), 9%Z)
               :: drop 2 cells_123).
Proof.
  apply (X4_double_insert_after 8 double_123 cells_123 1
           (2%positive, 2%Z) (ByIndex (Int 1)) 9%Z double_123_dlist).
  - split; [reflexivity|]. right. exists 1%Z. split; reflexivity.
  - simpl. lia.
Defined.

(** X5.  [Double.insert_before], given a node of a well-formed list or a
    valid index, returns, and the new value sits right before the target:
    it takes position [k] and the target moves to [k + 1]. *)
Theorem X5_double_insert_before {V} fuel (s : Double.state (V:=V)) ls k c t v :
  Double.dlist s ls → designates ls k c t → length ls < fuel →
  ∃ s', Double.insert_before fuel t v s = Ok tt s'
        ∧ Double.dlist s'
            (take k ls ++ (fresh (dom (Double.heap s)), v) :: drop k ls).
Proof.
  intros Hd Ht Hf. pose proof Ht as [Hc _].
  eapply DoubleFacts.double_insert_before_at; [done|done|].
  by eapply DoubleFacts.designates_resolve.
Qed.

Lemma X5_double_insert_before_witness :
  ∃ s', Double.insert_before 8 (ByNode 3%positive) 9%Z double_123 = Ok tt s'
        ∧ Double.dlist s'
            (take 2 cells_123 ++ (fresh (dom (Double.heap double_123)), 9%Z)
               :: drop 2 cells_123).
Proof.
  apply (X5_double_insert_before 8 double_123 cells_123 2
           (3%positive, 3%Z) (ByNode 3%positive) 9%Z double_123_dlist).
  - split; [reflexivity|]. by left.
  - simpl. lia.
Defined.

(** X6.  [Double.remove], given a node of a well-formed list or a valid
    index ([-1] for the last element), returns, and the list is the old one
    without the cell at that position. *)
Theorem X6_double_remove {V} fuel (s : Double.state (V:=V)) ls k c t :
  Double.dlist s ls → designates ls k c t → length ls < fuel →
  ∃ s', Double.remove fuel t s = Ok tt s' ∧ Double.dlist s' (delete k ls).
Proof.
  intros Hd Ht Hf. pose proof Ht as [Hc _].
  eapply DoubleFacts.double_remove_at; [done|done|].
  by eapply DoubleFacts.designates_resolve.
Qed.

Lemma X6_double_remove_witness :
  ∃ s', Double.remove 8 (ByIndex (Int (-1))) double_123 = Ok tt s'
        ∧ Double.dlist s' (delete 2 cells_123).
Proof.
  apply (X6_double_remove 8 double_123 cells_123 2
           (3%positive, 3%Z) (ByIndex (Int (-1))) double_123_dlist).
  - split; [reflexivity|]. right. exists (-1)%Z. split; reflexivity.
  - simpl. lia.
Defined.

(** X7.  On a well-formed doubly-linked list an index that designates no
    position (a slice, an integer below [-1] or at or beyond the length,
    [-1] on the empty list) makes [__getitem__], [__setitem__],
    [insert_after], [insert_before] and [remove] raise [IndexError], with
    the list unchanged. *)
Theorem X7_double_index_error {V} fuel (s : Double.state (V:=V)) ls idx v :
  Double.dlist s ls → out_of_range (length ls) idx → length ls < fuel →
  Double.__getitem__ fuel idx s = Raise IndexError s
  ∧ Double.__setitem__ fuel idx v s = Raise IndexError s
  ∧ Double.insert_after fuel (ByIndex idx) v s = Raise IndexError s
  ∧ Double.insert_before fuel (ByIndex idx) v s = Raise IndexError s
  ∧ Double.remove fuel (ByIndex idx) s = Raise IndexError s.
Proof.
  intros Hd Hidx Hf.
  assert (Hget : Double.__getitem__ fuel idx s = Raise IndexError s).
  { destruct idx as [i|]; [|done].
    rewrite (DoubleFacts.double_getitem_spec _ _ ls) by done.
    unfold cell_at. simpl in Hidx. by rewrite Hidx. }
  split_and!; [done|..].
  - destruct idx as [i|]; [|done].
    rewrite DoubleFacts.double_setitem_getitem. unfold bind. by rewrite Hget.
  - unfold Double.insert_after, bind, Double.resolve. by rewrite Hget.
  - unfold Double.insert_before, bind, Double.resolve. by rewrite Hget.
  - unfold Double.remove, bind, Double.resolve. by rewrite Hget.
Qed.

Lemma X7_double_index_error_witness :
  Double.__getitem__ 8 (Int 3) double_123 = Raise IndexError double_123
  ∧ Double.__setitem__ 8 (Int 3) 0%Z double_123 = Raise IndexError double_123
  ∧ Double.insert_after 8 (ByIndex (Int 3)) 0%Z double_123
    = Raise IndexError double_123
  ∧ Double.insert_before 8 (ByIndex (Int 3)) 0%Z double_123
    = Raise IndexError double_123
  ∧ Double.remove 8 (ByIndex (Int 3)) double_123 = Raise IndexError double_123.
Proof.
  apply (X7_double_index_error 8 double_123 cells_123 (Int 3) 0%Z
           double_123_dlist).
  - reflexivity.
  - simpl. lia.
Defined.

(** X8.  On a well-formed doubly-linked list [__getitem__] with a valid
    index returns the node at the designated position, whose [value] is the
    element there, and leaves the list as it is; [-1] designates the last
    position. *)
Theorem X8_double_getitem {V} fuel (s : Double.state (V:=V)) ls i k :
  Double.dlist s ls → position (length ls) i = Some k → length ls < fuel →
  ∃ c, ls !! k = Some c
       ∧ Double.__getitem__ fuel (Int i) s = Ok c.1 s
       ∧ Double.getattr Double.value (Some c.1) s = Ok c.2 s.
Proof. apply DoubleFacts.double_getitem_at. Qed.

Lemma X8_double_getitem_witness :
  ∃ c, cells_123 !! 2 = Some c
       ∧ Double.__getitem__ 8 (Int (-1)) double_123 = Ok c.1 double_123
       ∧ Double.getattr Double.value (Some c.1) double_123 = Ok c.2 double_123.
Proof.
  apply (X8_double_getitem 8 double_123 cells_123 (-1) 2 double_123_dlist).
  - reflexivity.
  - simpl. lia.
Defined.

(** X9.  After [d[i] = v] with a valid index on a well-formed doubly-linked
    list, [d[i]] is the same node as before and holds [v], and the values
    of the list are the old ones with the one at that position replaced. *)
Theorem X9_double_setitem_then_getitem {V} fuel (s : Double.state (V:=V))
    ls i k v :
  Double.dlist s ls → position (length ls) i = Some k → length ls < fuel →
  ∃ s' node, Double.__setitem__ fuel (Int i) v s = Ok tt s'
             ∧ Double.__getitem__ fuel (Int i) s = Ok node s
             ∧ Double.__getitem__ fuel (Int i) s' = Ok node s'
             ∧ Double.getattr Double.value (Some node) s' = Ok v s'
             ∧ Double.iter_values fuel s' = Ok (<[k := v]> ls.*2) s'.
Proof.
  intros Hd Hk Hf.
  destruct (DoubleFacts.double_setitem_spec fuel s ls i k v Hd Hk Hf)
    as (c & n & s' & Hc & Hn & Hset & _ & _ & Hd').
  assert (Hk' : position (length (<[k := (c.1, v)]> ls)) i = Some k)
    by by rewrite length_insert.
  assert (Hf' : length (<[k := (c.1, v)]> ls) < fuel)
    by by rewrite length_insert.
  destruct (DoubleFacts.double_getitem_at fuel s ls i k Hd Hk Hf)
    as (c0 & Hc0 & Hg & _).
  destruct (DoubleFacts.double_getitem_at fuel s' _ i k Hd' Hk' Hf')
    as (c1 & Hc1 & Hg' & Hv').
  rewrite list_lookup_insert_eq in Hc1 by by eapply lookup_lt_Some.
  simplify_eq. simpl in *.
  exists s', c.1. split_and!; [done..|].
  rewrite (DoubleFacts.double_iter_values_spec _ _ _ Hd' Hf').
  by rewrite list_fmap_insert.
Qed.

Lemma X9_double_setitem_then_getitem_witness :
  ∃ s' node, Double.__setitem__ 8 (Int 1) 7%Z double_123 = Ok tt s'
             ∧ Double.__getitem__ 8 (Int 1) double_123 = Ok node double_123
             ∧ Double.__getitem__ 8 (Int 1) s' = Ok node s'
             ∧ Double.getattr Double.value (Some node) s' = Ok 7%Z s'
             ∧ Double.iter_values 8 s' = Ok (<[1 := 7%Z]> cells_123.*2) s'.
Proof.
  apply (X9_double_setitem_then_getitem 8 double_123 cells_123 1 1 7%Z
           double_123_dlist).
  - reflexivity.
  - simpl. lia.
Defined.

(** X10.  On a well-formed doubly-linked list [__iter__] yields the nodes
    from head to tail, [iter_values] their values, [iter_reverse] the same
    nodes in the opposite order, and [__len__] the number of nodes
    yielded; none of them changes the list. *)
Theorem X10_double_iteration {V} fuel (s : Double.state (V:=V)) ls :
  Double.dlist s ls → length ls < fuel →
  Double.__iter__ fuel s = Ok ls.*1 s
  ∧ Double.iter_values fuel s = Ok ls.*2 s
  ∧ Double.iter_reverse fuel s = Ok (reverse ls.*1) s
  ∧ Double.__len__ s = Ok (Z.of_nat (length ls.*1)) s.
Proof.
  intros Hd Hf. split_and!.
  - pose proof Hd as (_ & Hh & _ & _ & Hseg).
    unfold Double.__iter__, bind, Double.get_head, gets. rewrite Hh.
    by eapply DoubleFacts.iter_from_dseg.
  - by apply DoubleFacts.double_iter_values_spec.
  - by apply DoubleFacts.iter_reverse_spec.
  - destruct Hd as (_ & _ & _ & Hl & _).
    unfold Double.__len__, Double.get_length, gets.
    by rewrite Hl, length_fmap.
Qed.

Lemma X10_double_iteration_witness :
  Double.__iter__ 8 double_123 = Ok cells_123.*1 double_123
  ∧ Double.iter_values 8 double_123 = Ok cells_123.*2 double_123
  ∧ Double.iter_reverse 8 double_123 = Ok (reverse cells_123.*1) double_123
  ∧ Double.__len__ double_123 = Ok (Z.of_nat (length cells_123.*1)) double_123.
Proof.
  apply (X10_double_iteration 8 double_123 cells_123 double_123_dlist).
  simpl. lia.
Defined.

(** X11.  In every state of a doubly-linked list reached from a constructor
    call by operations with valid arguments, [len(d)] is the number of
    nodes that iterating [d] yields. *)
Theorem X11_double_len_counts_nodes {V} (s : Double.state (V:=V)) :
  Double.reachable s →
  ∃ nodes, (∀ fuel, length nodes < fuel → Double.__iter__ fuel s = Ok nodes s)
           ∧ Double.__len__ s = Ok (Z.of_nat (length nodes)) s.
Proof.
  intros Hr. destruct (DoubleFacts.reachable_length s Hr) as (nodes & Hi & Hl).
  exists nodes. split; [done|].
  unfold Double.__len__, Double.get_length, gets. by rewrite Hl.
Qed.

Lemma X11_double_len_counts_nodes_witness :
  ∃ nodes, (∀ fuel, length nodes < fuel →
              Double.__iter__ fuel double_123 = Ok nodes double_123)
           ∧ Double.__len__ double_123 = Ok (Z.of_nat (length nodes)) double_123.
Proof.
  apply (X11_double_len_counts_nodes double_123).
  apply (Double.reachable_construct ∅ [1%Z; 2%Z; 3%Z]).
  vm_compute. reflexivity.
Defined.

(** X12.  On a well-formed doubly-linked list every operation whose node
    argument, if any, is a node of the list returns and leaves a
    well-formed list, or raises [IndexError] and leaves the list as it
    was; so none of them raises [AttributeError] or breaks the links. *)
Theorem X12_double_operations_preserve {V} fuel (a : Double.op (V:=V)) s ls :
  Double.dlist s ls → Double.valid_op s a → length ls < fuel →
  (∃ s' ls', Double.exec fuel a s = Ok tt s' ∧ Double.dlist s' ls')
  ∨ Double.exec fuel a s = Raise IndexError s.
Proof. apply DoubleFacts.exec_outcome. Qed.

Lemma X12_double_operations_preserve_witness :
  (∃ s' ls', Double.exec 8 (Double.Remove (ByIndex (Int 0))) double_123
             = Ok tt s' ∧ Double.dlist s' ls')
  ∨ Double.exec 8 (Double.Remove (ByIndex (Int 0))) double_123
    = Raise IndexError double_123.
Proof.
  apply (X12_double_operations_preserve 8 (Double.Remove (ByIndex (Int 0)))
           double_123 cells_123 double_123_dlist).
  - exact I.
  - simpl. lia.
Defined.

(** X13.  [insert_after(node, v)] followed by [remove] of the node just
    inserted gives back the list as it was: the same nodes with the same
    values in the same order, and the same [head], [tail] and length. *)
Theorem X13_double_insert_then_remove {V} fuel (s : Double.state (V:=V))
    xs c ys v :
  Double.dlist s (xs ++ c :: ys) →
  ∃ s1 s2, Double.insert_after fuel (ByNode c.1) v s = Ok tt s1
           ∧ Double.remove fuel (ByNode (fresh (dom (Double.heap s)))) s1
             = Ok tt s2
           ∧ Double.dlist s2 (xs ++ c :: ys)
           ∧ Double.self s2 = Double.self s.
Proof.
  intros Hd.
  destruct (DoubleFacts.insert_after_node_spec fuel s xs c ys v Hd)
    as (s1 & H1 & Hd1).
  change (xs ++ c :: (fresh (dom (Double.heap s)), v) :: ys)
    with (xs ++ [c] ++ (fresh (dom (Double.heap s)), v) :: ys) in Hd1.
  rewrite app_assoc in Hd1.
  destruct (DoubleFacts.remove_node_spec fuel s1 _ _ _ Hd1) as (s2 & H2 & Hd2).
  rewrite <- app_assoc in Hd2. simpl in *.
  exists s1, s2. split_and!; [done..|].
  destruct Hd as (_ & Hh & Ht & Hl & _), Hd2 as (_ & Hh2 & Ht2 & Hl2 & _).
  destruct (Double.self s), (Double.self s2). simpl in *. congruence.
Qed.

Lemma X13_double_insert_then_remove_witness :
  ∃ s1 s2, Double.insert_after 8 (ByNode 2%positive) 9%Z double_123 = Ok tt s1
           ∧ Double.remove 8 (ByNode (fresh (dom (Double.heap double_123)))) s1
             = Ok tt s2
           ∧ Double.dlist s2 cells_123
           ∧ Double.self s2 = Double.self double_123.
Proof.
  exact (X13_double_insert_then_remove 8 double_123 [(1%positive, 1%Z)]
           (2%positive, 2%Z) [(3%positive, 3%Z)] 9%Z double_123_dlist).
Defined.

(** X14.  On non-empty well-formed doubly-linked lists, whatever the
    values' [!=] is: [d == d] is [True] exactly when no value of [d] is
    [!=] to itself (so it is [False] for a list that holds a NaN), and when
    the values' [!=] is symmetric, [a == b] gives what [b == a] gives. *)
Theorem X14_double_eq_refl_sym {V} {ne : ValueNe V} fuel
    (s : Double.state (V:=V)) (d : Double.Double) ls ls' :
  Double.dlist s ls → Double.dlist (Double.mkState d (Double.heap s)) ls' →
  ls ≠ [] → ls' ≠ [] → length ls ≤ fuel → length ls' ≤ fuel →
  Double.__eq__ (ne:=ne) fuel (Double.IsList (Double.self s)) s
  = Ok (forallb (λ v, negb (ne v v)) ls.*2) s
  ∧ ((∀ v w, ne v w = ne w v) →
     returned (Double.__eq__ (ne:=ne) fuel (Double.IsList d) s)
     = returned (Double.__eq__ (ne:=ne) fuel (Double.IsList (Double.self s))
                   (Double.mkState d (Double.heap s)))).
Proof.
  intros Hd Hd' Hne Hne' Hf Hf'.
  assert (Hs : Double.dlist (Double.mkState (Double.self s) (Double.heap s)) ls)
    by by destruct s.
  split.
  - rewrite (DoubleFacts.eq_values fuel s _ ls ls) by done.
    by rewrite DoubleFacts.values_eq_refl.
  - intros Hsym.
    rewrite (DoubleFacts.eq_values fuel s d ls ls') by done.
    rewrite (DoubleFacts.eq_values fuel (Double.mkState d (Double.heap s))
               (Double.self s) ls' ls) by done.
    simpl. f_equal. by apply DoubleFacts.values_eq_sym.
Qed.

Lemma X14_double_eq_refl_sym_witness :
  Double.__eq__ 8 (Double.IsList (Double.self double_123)) double_123
  = Ok (forallb (λ v, negb (value_ne v v)) cells_123.*2) double_123
  ∧ ((∀ v w : Z, value_ne v w = value_ne w v) →
     returned (Double.__eq__ 8 (Double.IsList (Double.self double_123))
                 double_123)
     = returned (Double.__eq__ 8 (Double.IsList (Double.self double_123))
                   (Double.mkState (Double.self double_123)
                      (Double.heap double_123)))).
Proof.
  apply (X14_double_eq_refl_sym 8 double_123 (Double.self double_123)
           cells_123 cells_123 double_123_dlist).
  - exact double_123_dlist.
  - discriminate.
  - discriminate.
  - simpl. lia.
  - simpl. lia.
Defined.

(** X15.  [a == b] on doubly-linked lists raises [AttributeError] as soon
    as one of the two is empty ([a] well-formed), whatever the other is;
    it never returns [False] or [True] then. *)
Theorem X15_double_eq_empty `{EqDecision V} fuel (s : Double.state (V:=V))
    (d : Double.Double) ls :
  Double.dlist s ls → ls = [] ∨ Double.head d = None →
  Double.__eq__ (S fuel) (Double.IsList d) s = Raise AttributeError s.
Proof.
  intros Hd Hor. destruct ls as [|c ls].
  - apply DoubleFacts.eq_empty_self. by destruct Hd as (_ & -> & _).
  - destruct Hor as [|Hh]; [done|].
    by eapply DoubleFacts.eq_empty_other.
Qed.

Lemma X15_double_eq_empty_witness :
  Double.__eq__ 8 (Double.IsList (Double.mkList 0 None None)) double_123
  = Raise AttributeError double_123.
Proof.
  apply (X15_double_eq_empty 7 double_123 (Double.mkList 0 None None)
           cells_123 double_123_dlist).
  by right.
Defined.

(** X16.  On a well-formed doubly-linked list [get_next] of the node at
    position [k] is the node at position [k + 1], [None] for the tail, and
    [get_previous] is the node at position [k - 1], [None] for the head. *)
Theorem X16_double_neighbours {V} (s : Double.state (V:=V)) ls k c :
  Double.dlist s ls → ls !! k = Some c →
  Double.get_next (Some c.1) s = Ok (fst <$> ls !! S k) s
  ∧ Double.get_previous (Some c.1) s
    = Ok (match k with 0 => None | S j => fst <$> ls !! j end) s.
Proof.
  intros Hd Hc. split.
  - by apply DoubleFacts.double_get_next_spec.
  - by apply DoubleFacts.double_get_previous_spec.
Qed.

Lemma X16_double_neighbours_witness :
  Double.get_next (Some 2%positive) double_123
  = Ok (fst <$> cells_123 !! 2) double_123
  ∧ Double.get_previous (Some 2%positive) double_123
    = Ok (fst <$> cells_123 !! 0) double_123.
Proof.
  apply (X16_double_neighbours double_123 cells_123 1 (2%positive, 2%Z)
           double_123_dlist).
  reflexivity.
Defined.

(** X17.  [repr] and [str] of a well-formed doubly-linked list are
    [Double(...)] around the comma-separated [Node(<repr of the value>)]
    of its elements in order, the latter being [repr] of each node;
    computing them leaves the list as it is. *)
Theorem X17_double_repr {V} (repr : V → string) fuel
    (s : Double.state (V:=V)) ls :
  Double.dlist s ls → length ls < fuel →
  Double.__repr__ repr fuel s
  = Ok ("Double("
        +:+ String.concat ", " ((λ v, "Node(" +:+ repr v +:+ ")") <$> ls.*2)
        +:+ ")") s
  ∧ Double.__str__ repr fuel s = Double.__repr__ repr fuel s
  ∧ (∀ k c, ls !! k = Some c →
       Double.Node__repr__ repr c.1 s = Ok ("Node(" +:+ repr c.2 +:+ ")") s).
Proof.
  intros Hd Hf. split_and!; [by apply DoubleFacts.double_repr_spec|done|].
  intros k c Hc. destruct Hd as (_ & _ & _ & _ & Hseg).
  destruct (DoubleFacts.dseg_cell _ _ _ _ c Hseg) as (n & Hn & Hv).
  { by eapply list_elem_of_lookup_2. }
  unfold Double.Node__repr__, bind, Double.getattr. by rewrite Hn, Hv.
Qed.

Lemma X17_double_repr_witness :
  Double.__repr__ pretty 8 double_123
  = Ok "Double(Node(1), Node(2), Node(3))" double_123
  ∧ Double.__str__ pretty 8 double_123 = Double.__repr__ pretty 8 double_123
  ∧ (∀ k c, cells_123 !! k = Some c →
       Double.Node__repr__ pretty c.1 double_123
       = Ok ("Node(" +:+ pretty c.2 +:+ ")") double_123).
Proof.
  refine (X17_double_repr pretty 8 double_123 cells_123 double_123_dlist _).
  simpl. lia.
Defined.

(** ** single.py *)

(** X18.  [SinglyLinked.append_tail] on a well-formed list returns, and the
    list is then the old cells followed by one new node holding the value;
    [extend] does so for each of the given values in their order. *)
Theorem X18_single_append_tail_extend {V} (s : Single.state (V:=V)) ls v vs :
  Single.slist s ls →
  (∃ s', Single.append_tail v s = Ok tt s'
         ∧ Single.slist s' (ls ++ [(fresh (dom (Single.heap s)), v)]))
  ∧ (∃ s' ls', Single.extend vs s = Ok tt s'
               ∧ Single.slist s' (ls ++ ls') ∧ ls'.*2 = vs).
Proof.
  intros Hd. split.
  - by apply SingleFacts.single_append_tail_spec.
  - by apply SingleFacts.single_extend_spec.
Qed.

Lemma X18_single_append_tail_extend_witness :
  (∃ s', Single.append_tail 4%Z single_123 = Ok tt s'
         ∧ Single.slist s'
             (cells_123 ++ [(fresh (dom (Single.heap single_123)), 4%Z)]))
  ∧ (∃ s' ls', Single.extend [4%Z; 5%Z] single_123 = Ok tt s'
               ∧ Single.slist s' (cells_123 ++ ls') ∧ ls'.*2 = [4%Z; 5%Z]).
Proof.
  exact (X18_single_append_tail_extend single_123 cells_123 4%Z [4%Z; 5%Z]
           single_123_slist).
Defined.

(** X19.  [SinglyLinked.append_head] on a well-formed list returns, and the
    list is then one new node holding the value followed by the old
    cells. *)
Theorem X19_single_append_head {V} (s : Single.state (V:=V)) ls v :
  Single.slist s ls →
  ∃ s', Single.append_head v s = Ok tt s'
        ∧ Single.slist s' ((fresh (dom (Single.heap s)), v) :: ls).
Proof. apply SingleFacts.single_append_head_spec. Qed.

Lemma X19_single_append_head_witness :
  ∃ s', Single.append_head 0%Z single_123 = Ok tt s'
        ∧ Single.slist s'
            ((fresh (dom (Single.heap single_123)), 0%Z) :: cells_123).
Proof.
  exact (X19_single_append_head single_123 cells_123 0%Z single_123_slist).
Defined.

(** X20.  [SinglyLinked.insert_after], given a node of a well-formed list
    or a valid index, returns; the chain from [head] then has the new value
    right after the target (position [k + 1] for a target at position [k])
    and the length is one more, but [tail] is left as it was: the list is
    well-formed again when the target was not the last node. *)
Theorem X20_single_insert_after {V} fuel (s : Single.state (V:=V))
    ls k c t v :
  Single.slist s ls → designates ls k c t → length ls < fuel →
  ∃ s', Single.insert_after fuel t v s = Ok tt s'
        ∧ Single.schain s'
            (take (S k) ls ++ (fresh (dom (Single.heap s)), v)
               :: drop (S k) ls)
        ∧ Single._length (Single.self s') = Z.of_nat (S (length ls))
        ∧ Single.tail (Single.self s') = Single.tail (Single.self s)
        ∧ (S k < length ls →
           Single.slist s'
             (take (S k) ls ++ (fresh (dom (Single.heap s)), v)
                :: drop (S k) ls)).
Proof. apply SingleFacts.single_insert_after_at. Qed.

Lemma X20_single_insert_after_witness :
  ∃ s', Single.insert_after 8 (ByIndex (Int 0)) 9%Z single_123 = Ok tt s'
        ∧ Single.schain s'
            (take 1 cells_123 ++ (fresh (dom (Single.heap single_123)), 9%Z)
               :: drop 1 cells_123)
        ∧ Single._length (Single.self s') = Z.of_nat (S (length cells_123))
        ∧ Single.tail (Single.self s') = Single.tail (Single.self single_123)
        ∧ (1 < length cells_123 →
           Single.slist s'
             (take 1 cells_123 ++ (fresh (dom (Single.heap single_123)), 9%Z)
                :: drop 1 cells_123)).
Proof.
  apply (X20_single_insert_after 8 single_123 cells_123 0
           (1%positive, 1%Z) (ByIndex (Int 0)) 9%Z single_123_slist).
  - split; [reflexivity|]. right. exists 0%Z. split; reflexivity.
  - simpl. lia.
Defined.

(** X21.  [SinglyLinked.remove], given a node of a well-formed list or a
    valid index ([-1] for the last element), returns, and the list is the
    old one without the cell at that position, well-formed again (so
    [head], [tail] and the length are updated). *)
Theorem X21_single_remove {V} fuel (s : Single.state (V:=V)) ls k c t :
  Single.slist s ls → designates ls k c t → length ls < fuel →
  ∃ s', Single.remove fuel t s = Ok tt s' ∧ Single.slist s' (delete k ls).
Proof. apply SingleFacts.single_remove_at. Qed.

Lemma X21_single_remove_witness :
  ∃ s', Single.remove 8 (ByNode 3%positive) single_123 = Ok tt s'
        ∧ Single.slist s' (delete 2 cells_123).
Proof.
  apply (X21_single_remove 8 single_123 cells_123 2
           (3%positive, 3%Z) (ByNode 3%positive) single_123_slist).
  - split; [reflexivity|]. by left.
  - simpl. lia.
Defined.

(** X22.  On a well-formed singly-linked list an integer index that
    designates no position makes [__getitem__], [__setitem__] and
    [insert_after] raise [IndexError], and [remove] raise [IndexError] too,
    except for [remove(0)] (on the empty list), which raises
    [AttributeError]; the list is unchanged in each case. *)
Theorem X22_single_index_error {V} fuel (s : Single.state (V:=V)) ls i v :
  Single.slist s ls → position (length ls) i = None → length ls < fuel →
  Single.__getitem__ fuel (Int i) s = Raise IndexError s
  ∧ Single.__setitem__ fuel (Int i) v s = Raise IndexError s
  ∧ Single.insert_after fuel (ByIndex (Int i)) v s = Raise IndexError s
  ∧ Single.remove fuel (ByIndex (Int i)) s
    = Raise (if decide (i = 0)%Z then AttributeError else IndexError) s.
Proof.
  intros Hd Hi Hf.
  assert (Hget : Single.__getitem__ fuel (Int i) s = Raise IndexError s).
  { rewrite (SingleFacts.single_getitem_spec _ _ ls) by done.
    unfold cell_at. by rewrite Hi. }
  split_and!; [done|..].
  - rewrite SingleFacts.single_setitem_getitem. unfold bind. by rewrite Hget.
  - unfold Single.insert_after, bind. by rewrite Hget.
  - by eapply SingleFacts.single_remove_index_error.
Qed.

Lemma X22_single_index_error_witness :
  Single.__getitem__ 8 (Int 3) single_123 = Raise IndexError single_123
  ∧ Single.__setitem__ 8 (Int 3) 0%Z single_123 = Raise IndexError single_123
  ∧ Single.insert_after 8 (ByIndex (Int 3)) 0%Z single_123
    = Raise IndexError single_123
  ∧ Single.remove 8 (ByIndex (Int 3)) single_123 = Raise IndexError single_123.
Proof.
  apply (X22_single_index_error 8 single_123 cells_123 3 0%Z
           single_123_slist).
  - reflexivity.
  - simpl. lia.
Defined.

(** X23.  [SinglyLinked.remove] given a node that is not in the
    (well-formed) list raises [ValueError] and leaves the list, its length
    included, as it was. *)
Theorem X23_single_remove_absent {V} fuel (s : Single.state (V:=V)) ls l :
  Single.slist s ls → l ∉ ls.*1 → length ls < fuel →
  Single.remove fuel (ByNode l) s = Raise ValueError s.
Proof. apply SingleFacts.single_remove_node_absent. Qed.

Lemma X23_single_remove_absent_witness :
  Single.remove 8 (ByNode 7%positive) single_123 = Raise ValueError single_123.
Proof.
  apply (X23_single_remove_absent 8 single_123 cells_123 7%positive
           single_123_slist).
  - apply (bool_decide_unpack _). vm_compute. exact I.
  - simpl. lia.
Defined.

(** X24.  On a well-formed singly-linked list [__getitem__] with a valid
    index returns the node at the designated position, whose [value] is the
    element there, and leaves the list as it is; [-1] designates the last
    position. *)
Theorem X24_single_getitem {V} fuel (s : Single.state (V:=V)) ls i k :
  Single.slist s ls → position (length ls) i = Some k → length ls < fuel →
  ∃ c, ls !! k = Some c
       ∧ Single.__getitem__ fuel (Int i) s = Ok c.1 s
       ∧ Single.getattr Single.value (Some c.1) s = Ok c.2 s.
Proof. apply SingleFacts.single_getitem_at. Qed.

Lemma X24_single_getitem_witness :
  ∃ c, cells_123 !! 2 = Some c
       ∧ Single.__getitem__ 8 (Int (-1)) single_123 = Ok c.1 single_123
       ∧ Single.getattr Single.value (Some c.1) single_123 = Ok c.2 single_123.
Proof.
  apply (X24_single_getitem 8 single_123 cells_123 (-1) 2 single_123_slist).
  - reflexivity.
  - simpl. lia.
Defined.

(** X25.  After [l[i] = v] with a valid index on a well-formed
    singly-linked list, [l[i]] is the same node as before and holds [v],
    and the values of the list are the old ones with the one at that
    position replaced. *)
Theorem X25_single_setitem_then_getitem {V} fuel (s : Single.state (V:=V))
    ls i k v :
  Single.slist s ls → position (length ls) i = Some k → length ls < fuel →
  ∃ s' node, Single.__setitem__ fuel (Int i) v s = Ok tt s'
             ∧ Single.__getitem__ fuel (Int i) s = Ok node s
             ∧ Single.__getitem__ fuel (Int i) s' = Ok node s'
             ∧ Single.getattr Single.value (Some node) s' = Ok v s'
             ∧ Single.iter_values fuel s' = Ok (<[k := v]> ls.*2) s'.
Proof.
  intros Hd Hk Hf.
  destruct (SingleFacts.single_setitem_spec fuel s ls i k v Hd Hk Hf)
    as (c & n & s' & Hc & Hn & Hset & _ & _ & Hd').
  assert (Hk' : position (length (<[k := (c.1, v)]> ls)) i = Some k)
    by by rewrite length_insert.
  assert (Hf' : length (<[k := (c.1, v)]> ls) < fuel)
    by by rewrite length_insert.
  destruct (SingleFacts.single_getitem_at fuel s ls i k Hd Hk Hf)
    as (c0 & Hc0 & Hg & _).
  destruct (SingleFacts.single_getitem_at fuel s' _ i k Hd' Hk' Hf')
    as (c1 & Hc1 & Hg' & Hv').
  rewrite list_lookup_insert_eq in Hc1 by by eapply lookup_lt_Some.
  simplify_eq. simpl in *.
  exists s', c.1. split_and!; [done..|].
  rewrite (SingleFacts.single_iter_values_spec _ _ _ Hd' Hf').
  by rewrite list_fmap_insert.
Qed.

Lemma X25_single_setitem_then_getitem_witness :
  ∃ s' node, Single.__setitem__ 8 (Int 1) 7%Z single_123 = Ok tt s'
             ∧ Single.__getitem__ 8 (Int 1) single_123 = Ok node single_123
             ∧ Single.__getitem__ 8 (Int 1) s' = Ok node s'
             ∧ Single.getattr Single.value (Some node) s' = Ok 7%Z s'
             ∧ Single.iter_values 8 s' = Ok (<[1 := 7%Z]> cells_123.*2) s'.
Proof.
  apply (X25_single_setitem_then_getitem 8 single_123 cells_123 1 1 7%Z
           single_123_slist).
  - reflexivity.
  - simpl. lia.
Defined.

(** X26.  On a well-formed singly-linked list [__iter__] yields the nodes
    from head to tail, [iter_values] their values, and [__len__] the number
    of nodes yielded; none of them changes the list. *)
Theorem X26_single_iteration {V} fuel (s : Single.state (V:=V)) ls :
  Single.slist s ls → length ls < fuel →
  Single.__iter__ fuel s = Ok ls.*1 s
  ∧ Single.iter_values fuel s = Ok ls.*2 s
  ∧ Single.__len__ s = Ok (Z.of_nat (length ls.*1)) s.
Proof.
  intros Hd Hf. split_and!.
  - by apply SingleFacts.single_iter_spec.
  - by apply SingleFacts.single_iter_values_spec.
  - destruct Hd as (_ & _ & _ & Hl & _).
    unfold Single.__len__, Single.get_length, gets.
    by rewrite Hl, length_fmap.
Qed.

Lemma X26_single_iteration_witness :
  Single.__iter__ 8 single_123 = Ok cells_123.*1 single_123
  ∧ Single.iter_values 8 single_123 = Ok cells_123.*2 single_123
  ∧ Single.__len__ single_123 = Ok (Z.of_nat (length cells_123.*1)) single_123.
Proof.
  apply (X26_single_iteration 8 single_123 cells_123 single_123_slist).
  simpl. lia.
Defined.

(** X27.  On a well-formed singly-linked list [get_next] of the node at
    position [k] is the node at position [k + 1], and [None] for the last
    node. *)
Theorem X27_single_get_next {V} (s : Single.state (V:=V)) ls k c :
  Single.slist s ls → ls !! k = Some c →
  Single.get_next (Some c.1) s = Ok (fst <$> ls !! S k) s.
Proof. apply SingleFacts.single_get_next_spec. Qed.

Lemma X27_single_get_next_witness :
  Single.get_next (Some 3%positive) single_123
  = Ok (fst <$> cells_123 !! 3) single_123.
Proof.
  apply (X27_single_get_next single_123 cells_123 2 (3%positive, 3%Z)
           single_123_slist).
  reflexivity.
Defined.

(** X28.  [repr] and [str] of a well-formed singly-linked list are
    [<SingleLinkedNaive(...)>] around the comma-separated
    [<Node(<repr of the value>)>] of its elements in order, the latter
    being [repr] and [str] of each node; computing them leaves the list as
    it is. *)
Theorem X28_single_repr {V} (repr : V → string) fuel
    (s : Single.state (V:=V)) ls :
  Single.slist s ls → length ls < fuel →
  Single.__repr__ repr fuel s
  = Ok ("<SingleLinkedNaive("
        +:+ String.concat ", "
              ((λ v, "<Node(" +:+ repr v +:+ ")>") <$> ls.*2)
        +:+ ")>") s
  ∧ Single.__str__ repr fuel s = Single.__repr__ repr fuel s
  ∧ (∀ k c, ls !! k = Some c →
       Single.Node__repr__ repr c.1 s = Ok ("<Node(" +:+ repr c.2 +:+ ")>") s
       ∧ Single.Node__str__ repr c.1 s
         = Ok ("<Node(" +:+ repr c.2 +:+ ")>") s).
Proof.
  intros Hd Hf. split_and!; [by apply SingleFacts.single_repr_spec|done|].
  intros k c Hc.
  unfold Single.Node__str__, Single.Node__repr__, bind.
  by rewrite (SingleFacts.single_cell_value _ _ _ _ Hd Hc).
Qed.

Lemma X28_single_repr_witness :
  Single.__repr__ pretty 8 single_123
  = Ok "<SingleLinkedNaive(<Node(1)>, <Node(2)>, <Node(3)>)>" single_123
  ∧ Single.__str__ pretty 8 single_123 = Single.__repr__ pretty 8 single_123
  ∧ (∀ k c, cells_123 !! k = Some c →
       Single.Node__repr__ pretty c.1 single_123
       = Ok ("<Node(" +:+ pretty c.2 +:+ ")>") single_123
       ∧ Single.Node__str__ pretty c.1 single_123
         = Ok ("<Node(" +:+ pretty c.2 +:+ ")>") single_123).
Proof.
  refine (X28_single_repr pretty 8 single_123 cells_123 single_123_slist _).
  simpl. lia.
Defined.

(** ** Both modules *)

(** X29.  Reading an element never changes a list: from any state, whether
    well-formed or not, and for any index, [__getitem__] of either
    container ends, by a return or by an exception, in the state it
    started from. *)
Theorem X29_getitem_changes_nothing {V} fuel idx :
  (∀ (s : Single.state (V:=V)) s',
     final (Single.__getitem__ fuel idx s) = Some s' → s' = s)
  ∧ (∀ (s : Double.state (V:=V)) s',
       final (Double.__getitem__ fuel idx s) = Some s' → s' = s).
Proof.
  split; intros s s' Hfin.
  - pose proof (SingleFacts.pure_getitem fuel idx s) as Hp.
    destruct (Single.__getitem__ fuel idx s); simpl in *; congruence.
  - pose proof (DoubleFacts.double_pure_getitem fuel idx s) as Hp.
    destruct (Double.__getitem__ fuel idx s); simpl in *; congruence.
Qed.

(** X30.  [l[i] = v], on either container.  From any state, when it
    returns, the list's attributes ([head], [tail], [_length]) are unchanged
    and the store is changed at one node only, whose links are kept and
    whose value becomes [v].  On a well-formed list, for an index [i] that
    designates position [k] ([0 ≤ i < length], or [-1] on a non-empty
    list), it does return, the node is the one at position [k], and the cells
    of the list are the same but for the value at position [k]. *)
Theorem X30_setitem_frame {V} fuel i k (v : V) :
  (∀ s idx s', Single.__setitem__ fuel idx v s = Ok tt s' →
     Single.self s' = Single.self s
     ∧ ∃ l n, Single.heap s !! l = Some n
         ∧ Single.heap s'
           = <[l := Single.mkNode v (Single.next_node n)]> (Single.heap s))
  ∧ (∀ s idx s', Double.__setitem__ fuel idx v s = Ok tt s' →
       Double.self s' = Double.self s
       ∧ ∃ l n, Double.heap s !! l = Some n
           ∧ Double.heap s'
             = <[l := Double.mkNode v (Double.next_node n)
                        (Double.last_node n)]> (Double.heap s))
  ∧ (∀ s ls, Single.slist s ls →
       position (length ls) i = Some k → length ls < fuel →
       ∃ c n s', ls !! k = Some c ∧ Single.heap s !! c.1 = Some n
         ∧ Single.__setitem__ fuel (Int i) v s = Ok tt s'
         ∧ Single.self s' = Single.self s
         ∧ Single.heap s'
           = <[c.1 := Single.mkNode v (Single.next_node n)]> (Single.heap s)
         ∧ Single.slist s' (<[k := (c.1, v)]> ls))
  ∧ (∀ s ls, Double.dlist s ls →
       position (length ls) i = Some k → length ls < fuel →
       ∃ c n s', ls !! k = Some c ∧ Double.heap s !! c.1 = Some n
         ∧ Double.__setitem__ fuel (Int i) v s = Ok tt s'
         ∧ Double.self s' = Double.self s
         ∧ Double.heap s'
           = <[c.1 := Double.mkNode v (Double.next_node n)
                        (Double.last_node n)]> (Double.heap s)
         ∧ Double.dlist s' (<[k := (c.1, v)]> ls)).
Proof.
  split_and!.
  - intros s idx s'. apply SingleFacts.single_setitem_frame.
  - intros s idx s'. apply DoubleFacts.double_setitem_frame.
  - intros s ls Hd Hk Hf. by apply SingleFacts.single_setitem_spec.
  - intros s ls Hd Hk Hf. by apply DoubleFacts.double_setitem_spec.
Qed.

Lemma X30_setitem_frame_witness :
  (∃ s', Single.__setitem__ 8 (Int (-1)) 7%Z single_123 = Ok tt s'
         ∧ Single.self s' = Single.self single_123
         ∧ Single.slist s'
             [(1%positive, 1%Z); (2%positive, 2%Z); (3%positive, 7%Z)])
  ∧ (∃ s', Double.__setitem__ 8 (Int (-1)) 7%Z double_123 = Ok tt s'
           ∧ Double.self s' = Double.self double_123
           ∧ Double.dlist s'
               [(1%positive, 1%Z); (2%positive, 2%Z); (3%positive, 7%Z)]).
Proof.
  split.
  - destruct (proj1 (proj2 (proj2 (X30_setitem_frame 8 (-1) 2 7%Z))) single_123
                [(1%positive, 1%Z); (2%positive, 2%Z); (3%positive, 3%Z)])
      as (c & n & s' & Hc & _ & E & Hself & _ & Hd).
    + split_and!.
      * apply (bool_decide_unpack _). vm_compute. exact I.
      * vm_compute. reflexivity.
      * vm_compute. reflexivity.
      * vm_compute. reflexivity.
      * vm_compute. repeat split; reflexivity.
    + reflexivity.
    + simpl. lia.
    + injection Hc as <-. exists s'. split_and!; [exact E|exact Hself|exact Hd].
  - destruct (proj2 (proj2 (proj2 (X30_setitem_frame 8 (-1) 2 7%Z))) double_123
                [(1%positive, 1%Z); (2%positive, 2%Z); (3%positive, 3%Z)])
      as (c & n & s' & Hc & _ & E & Hself & _ & Hd).
    + split_and!.
      * apply (bool_decide_unpack _). vm_compute. exact I.
      * vm_compute. reflexivity.
      * vm_compute. reflexivity.
      * vm_compute. reflexivity.
      * vm_compute. repeat split; reflexivity.
    + reflexivity.
    + simpl. lia.
    + injection Hc as <-. exists s'. split_and!; [exact E|exact Hself|exact Hd].
Defined.

End Extras.
